(** * A shallow embedding of the RISC-V assembly interpreter (package [riscv])

    The development follows the Go sources: the processor state [CPU], the
    instruction variants with their [Operate] methods, the text decoder
    [DecodeInstr] with its regular expressions, and the execution engine
    ([LoadInstructions], [RunNextInstruction], [RunProgram]).

    Conventions of the model.
    - Machine integers are values of [Z]; every Go conversion is written out
      as a wrap-around function ([int32], [uint32], ...).  The Go type [int]
      is taken to be 64 bits wide.
    - A Go [string] is a [string] of bytes.  Program text is taken to be
      ASCII: the classes [\w], [\s] and [.] of the patterns look at one byte
      at a time, and [TrimSpace] removes the ASCII white space only.
    - A run-time panic is a value [Panic f] of the type [result]; code that
      receives a [*CPU] is a function in the state-and-panic monad [M]. *)

From Stdlib Require Import ZArith Lia Ascii.
From stdpp Require Import base option list strings gmap pretty.

Local Open Scope string_scope.
Local Open Scope list_scope.
Local Open Scope Z_scope.

(** ** Machine integers *)

Definition uint8 (x : Z) : Z := x mod 2 ^ 8.
Definition uint16 (x : Z) : Z := x mod 2 ^ 16.
Definition uint32 (x : Z) : Z := x mod 2 ^ 32.
Definition int8 (x : Z) : Z := (x + 2 ^ 7) mod 2 ^ 8 - 2 ^ 7.
Definition int32 (x : Z) : Z := (x + 2 ^ 31) mod 2 ^ 32 - 2 ^ 31.
(** The Go type [int] on a 64-bit platform. *)
Definition int (x : Z) : Z := (x + 2 ^ 63) mod 2 ^ 64 - 2 ^ 63.

Definition is_int32 (x : Z) : Prop := - 2 ^ 31 <= x < 2 ^ 31.
Definition is_uint32 (x : Z) : Prop := 0 <= x < 2 ^ 32.
Definition is_byte (x : Z) : Prop := 0 <= x < 2 ^ 8.

(** ** Panics *)

Inductive fault : Type :=
  | InvalidRegister (abiName : string)      (* panic("invalid register: %s") *)
  | ImmediateParseError (imm_str : string)  (* panic("immediate parse error: %s") *)
  | InvalidOperation (token : string)       (* panic("invalid operation: %s") *)
  | InvalidJump                             (* panic("Invalid Jump") *)
  | DivideByZero                            (* runtime error: integer divide by zero *)
  | NegativeShift                           (* runtime error: negative shift amount *)
  | IndexOutOfRange.                        (* runtime error: index / slice bounds out of range *)

Inductive result (A : Type) : Type :=
  | Ok (a : A)
  | Panic (f : fault).
Arguments Ok {A} a.
Arguments Panic {A} f.

Definition rbind {A B : Type} (r : result A) (k : A -> result B) : result B :=
  match r with
  | Ok a => k a
  | Panic f => Panic f
  end.

Notation "'try' x <- r ;;; k" := (rbind r (fun x => k))
  (at level 10, x name, r at level 99, k at level 200).

(** ** Strings and the regular expressions of the decoder *)

Definition byte_of (a : ascii) : Z := Z.of_N (N_of_ascii a).

Definition in_range (lo hi : string) (a : ascii) : bool :=
  match lo, hi with
  | String l _, String h _ => (byte_of l <=? byte_of a) && (byte_of a <=? byte_of h)
  | _, _ => false
  end.

Definition is_char (c : string) (a : ascii) : bool :=
  match c with
  | String x _ => Ascii.eqb x a
  | EmptyString => false
  end.

Definition is_digit (a : ascii) : bool := in_range "0" "9" a.
Definition is_lower (a : ascii) : bool := in_range "a" "z" a.
Definition is_upper (a : ascii) : bool := in_range "A" "Z" a.

Module Regexp.

(** [\w]: [0-9A-Za-z_]. *)
Definition word (a : ascii) : bool :=
  is_digit a || is_upper a || is_lower a || is_char "_" a.

(** [\s]: tab, line feed, form feed, carriage return, space. *)
Definition space (a : ascii) : bool :=
  let b := byte_of a in
  (b =? 9) || (b =? 10) || (b =? 12) || (b =? 13) || (b =? 32).

(** [.]: anything but a line feed. *)
Definition any (a : ascii) : bool := negb (byte_of a =? 10).

(** [[a-z0-9]]. *)
Definition lower_or_digit (a : ascii) : bool := is_lower a || is_digit a.

Inductive quant : Type := One | Opt | Star | Plus.

(** The patterns of the decoder are sequences of quantified character
    classes with capture groups that do not nest. *)
Inductive piece : Type :=
  | Cls (c : ascii -> bool) (q : quant)
  | GroupOpen
  | GroupClose.

Definition regex : Type := list piece.

(** The state of one match attempt: the text matched so far, the text of
    the group being captured (both reversed) and the groups already
    closed (last one first). *)
Record mstate : Type := MState {
  whole : string;
  current : string;
  closed : list string
}.

Definition start : mstate := MState "" "" [].

Definition push (a : ascii) (st : mstate) : mstate :=
  MState (String a (whole st)) (String a (current st)) (closed st).

Definition open_group (st : mstate) : mstate :=
  MState (whole st) "" (closed st).

Definition close_group (st : mstate) : mstate :=
  MState (whole st) "" (String.rev (current st) :: closed st).

(** Greedy repetition of a class followed by the rest [k] of the pattern:
    the longest run is tried first, and shorter ones when [k] fails. *)
Fixpoint greedy (c : ascii -> bool) (k : string -> mstate -> option mstate)
    (s : string) (st : mstate) : option mstate :=
  match s with
  | String a s' =>
      if c a then
        match greedy c k s' (push a st) with
        | Some r => Some r
        | None => k s st
        end
      else k s st
  | EmptyString => k s st
  end.

(** A match of the pattern at the head of [s], leftmost-first as Go's
    [regexp] package defines it (the match a backtracking engine finds
    first). *)
Fixpoint match_here (p : regex) : string -> mstate -> option mstate :=
  match p with
  | [] => fun _ st => Some st
  | GroupOpen :: p' => fun s st => match_here p' s (open_group st)
  | GroupClose :: p' => fun s st => match_here p' s (close_group st)
  | Cls c One :: p' => fun s st =>
      match s with
      | String a s' => if c a then match_here p' s' (push a st) else None
      | EmptyString => None
      end
  | Cls c Opt :: p' => fun s st =>
      match s with
      | String a s' =>
          if c a then
            match match_here p' s' (push a st) with
            | Some r => Some r
            | None => match_here p' s st
            end
          else match_here p' s st
      | EmptyString => match_here p' s st
      end
  | Cls c Star :: p' => greedy c (match_here p')
  | Cls c Plus :: p' => fun s st =>
      match s with
      | String a s' =>
          if c a then greedy c (match_here p') s' (push a st) else None
      | EmptyString => None
      end
  end.

(** The submatches of a successful attempt: the whole match, then the
    groups in order. *)
Definition submatches (st : mstate) : list string :=
  String.rev (whole st) :: List.rev (closed st).

(** [FindStringSubmatch] for a pattern that is not anchored: the leftmost
    position at which the pattern matches; [[]] is Go's [nil]. *)
Fixpoint FindStringSubmatch (p : regex) (s : string) : list string :=
  match match_here p s start with
  | Some st => submatches st
  | None =>
      match s with
      | String _ s' => FindStringSubmatch p s'
      | EmptyString => []
      end
  end.

(** [FindString] for a pattern that starts with [^]: only the head of the
    text is tried, and no match gives the empty string. *)
Definition FindStringAnchored (p : regex) (s : string) : string :=
  match match_here p s start with
  | Some st => String.rev (whole st)
  | None => ""
  end.

(** A literal text as a pattern. *)
Fixpoint lit (s : string) : regex :=
  match s with
  | String a s' => Cls (Ascii.eqb a) One :: lit s'
  | EmptyString => []
  end.

Definition group (p : regex) : regex := GroupOpen :: p ++ [GroupClose].

End Regexp.

Import Regexp.

(** [strings.TrimSpace] on ASCII text: tab, line feed, vertical tab, form
    feed, carriage return and space are removed at both ends. *)
Definition is_space (a : ascii) : bool :=
  let b := byte_of a in
  (b =? 9) || (b =? 10) || (b =? 11) || (b =? 12) || (b =? 13) || (b =? 32).

Fixpoint trim_left (s : string) : string :=
  match s with
  | String a s' => if is_space a then trim_left s' else s
  | EmptyString => ""
  end.

Fixpoint trim_right (s : string) : string :=
  match s with
  | String a s' =>
      match trim_right s' with
      | EmptyString => if is_space a then "" else String a ""
      | t => String a t
      end
  | EmptyString => ""
  end.

Definition TrimSpace (s : string) : string := trim_right (trim_left s).

(** [strconv.Atoi]: an optional sign and at least one decimal digit; [None]
    is a non-nil error (bad syntax, or a value outside the range of [int]). *)
Fixpoint digits_value (s : string) (acc : Z) : option Z :=
  match s with
  | String a s' =>
      if is_digit a then digits_value s' (acc * 10 + (byte_of a - 48)) else None
  | EmptyString => Some acc
  end.

Definition Atoi (s : string) : option Z :=
  match s with
  | EmptyString => None
  | String a s' =>
      let body := if is_char "-" a || is_char "+" a then s' else s in
      match body with
      | EmptyString => None
      | _ =>
          match digits_value body 0 with
          | Some n =>
              let v := if is_char "-" a then - n else n in
              if (- 2 ^ 63 <=? v) && (v <? 2 ^ 63) then Some v else None
          | None => None
          end
      end
  end.

(** [slices.Contains]. *)
Definition Contains (l : list string) (s : string) : bool :=
  existsb (String.eqb s) l.

(** A Go map literal with string keys, read with the comma-ok form. *)
Fixpoint lookup_table {A : Type} (table : list (string * A)) (key : string)
    : option A :=
  match table with
  | [] => None
  | (k, v) :: table' => if String.eqb k key then Some v else lookup_table table' key
  end.

(** [tokens[i]] on a slice of strings. *)
Definition index (tokens : list string) (i : nat) : result string :=
  match tokens !! i with
  | Some t => Ok t
  | None => Panic IndexOutOfRange
  end.

(** ** Processor state *)

Record CPU : Type := mkCPU {
  PC : Z;                       (* uint32 *)
  Registers : list Z;           (* [32]int32 *)
  Memory : list Z;              (* []byte *)
  MemorySize : Z;               (* uint32 *)
  instructions : list string;
  Done : bool;
  Labels : gmap string Z;       (* map[string]uint32 *)
  MemoryHistory : list string;
  entryPoint : string
}.

Definition set_PC (v : Z) (cpu : CPU) : CPU :=
  mkCPU v (Registers cpu) (Memory cpu) (MemorySize cpu) (instructions cpu)
    (Done cpu) (Labels cpu) (MemoryHistory cpu) (entryPoint cpu).
Definition set_Registers (v : list Z) (cpu : CPU) : CPU :=
  mkCPU (PC cpu) v (Memory cpu) (MemorySize cpu) (instructions cpu)
    (Done cpu) (Labels cpu) (MemoryHistory cpu) (entryPoint cpu).
Definition set_Memory (v : list Z) (cpu : CPU) : CPU :=
  mkCPU (PC cpu) (Registers cpu) v (MemorySize cpu) (instructions cpu)
    (Done cpu) (Labels cpu) (MemoryHistory cpu) (entryPoint cpu).
Definition set_instructions (v : list string) (cpu : CPU) : CPU :=
  mkCPU (PC cpu) (Registers cpu) (Memory cpu) (MemorySize cpu) v
    (Done cpu) (Labels cpu) (MemoryHistory cpu) (entryPoint cpu).
Definition set_Done (v : bool) (cpu : CPU) : CPU :=
  mkCPU (PC cpu) (Registers cpu) (Memory cpu) (MemorySize cpu) (instructions cpu)
    v (Labels cpu) (MemoryHistory cpu) (entryPoint cpu).
Definition set_Labels (v : gmap string Z) (cpu : CPU) : CPU :=
  mkCPU (PC cpu) (Registers cpu) (Memory cpu) (MemorySize cpu) (instructions cpu)
    (Done cpu) v (MemoryHistory cpu) (entryPoint cpu).
Definition set_MemoryHistory (v : list string) (cpu : CPU) : CPU :=
  mkCPU (PC cpu) (Registers cpu) (Memory cpu) (MemorySize cpu) (instructions cpu)
    (Done cpu) (Labels cpu) v (entryPoint cpu).
Definition set_entryPoint (v : string) (cpu : CPU) : CPU :=
  mkCPU (PC cpu) (Registers cpu) (Memory cpu) (MemorySize cpu) (instructions cpu)
    (Done cpu) (Labels cpu) (MemoryHistory cpu) v.

(** Code that works on a [*CPU]: it reads and updates the state, and may
    panic. *)
Definition M (A : Type) : Type := CPU -> result (A * CPU).

Definition ret {A : Type} (a : A) : M A := fun cpu => Ok (a, cpu).

Definition bind {A B : Type} (m : M A) (k : A -> M B) : M B :=
  fun cpu =>
    match m cpu with
    | Ok (a, cpu') => k a cpu'
    | Panic f => Panic f
    end.

Definition lift {A : Type} (r : result A) : M A :=
  fun cpu =>
    match r with
    | Ok a => Ok (a, cpu)
    | Panic f => Panic f
    end.

Definition get : M CPU := fun cpu => Ok (cpu, cpu).
Definition modify (f : CPU -> CPU) : M unit := fun cpu => Ok (tt, f cpu).

Notation "'do' x <- m ;;; k" := (bind m (fun x => k))
  (at level 10, x name, m at level 99, k at level 200).
Notation "m1 ;;; m2" := (bind m1 (fun _ => m2))
  (at level 100, m2 at level 200, right associativity).

Definition abiToRegister : list (string * Z) :=
  [ ("zero", 0); ("x0", 0);
    ("ra", 1); ("x1", 1);
    ("sp", 2); ("x2", 2);
    ("gp", 3); ("x3", 3);
    ("tp", 4); ("x4", 4);
    ("t0", 5); ("x5", 5);
    ("t1", 6); ("x6", 6);
    ("t2", 7); ("x7", 7);
    ("fp", 8); ("s0", 8); ("x8", 8);
    ("s1", 9); ("x9", 9);
    ("a0", 10); ("x10", 10);
    ("a1", 11); ("x11", 11);
    ("a2", 12); ("x12", 12);
    ("a3", 13); ("x13", 13);
    ("a4", 14); ("x14", 14);
    ("a5", 15); ("x15", 15);
    ("a6", 16); ("x16", 16);
    ("a7", 17); ("x17", 17);
    ("s2", 18); ("x18", 18);
    ("s3", 19); ("x19", 19);
    ("s4", 20); ("x20", 20);
    ("s5", 21); ("x21", 21);
    ("s6", 22); ("x22", 22);
    ("s7", 23); ("x23", 23);
    ("s8", 24); ("x24", 24);
    ("s9", 25); ("x25", 25);
    ("s10", 26); ("x26", 26);
    ("s11", 27); ("x27", 27);
    ("t3", 28); ("x28", 28);
    ("t4", 29); ("x29", 29);
    ("t5", 30); ("x30", 30);
    ("t6", 31); ("x31", 31) ].

Definition getRegisterNumber (abiName : string) : result Z :=
  match lookup_table abiToRegister abiName with
  | Some reg => Ok (int8 reg)
  | None => Panic (InvalidRegister abiName)
  end.

Definition parseImm (imm_str : string) : result Z :=
  match Atoi imm_str with
  | Some imm => Ok (int32 imm)
  | None => Panic (ImmediateParseError imm_str)
  end.

(** [cpu.Registers[abiToRegister["sp"]] = int32(memorySize)]: the index of a
    missing key would be the zero value. *)
Definition NewCPU (memorySize : Z) : CPU :=
  let sp := default 0 (lookup_table abiToRegister "sp") in
  {| PC := 16;
     Registers := <[Z.to_nat sp := int32 memorySize]> (replicate 32 0);
     Memory := replicate (Z.to_nat memorySize) 0;
     MemorySize := memorySize;
     instructions := [];
     Done := false;
     Labels := ∅;
     MemoryHistory := [];
     entryPoint := "" |}.

(** The value of [len(cpu.Memory)]. *)
Definition len {A : Type} (l : list A) : Z := Z.of_nat (length l).

(** [Some e] is a non-nil error. *)
Definition checkMemoryAccess (cpu : CPU) (address : Z) : option string :=
  if uint32 (address + 4) >? uint32 (len (Memory cpu))
  then Some "invalid memory access"
  else None.

(** Reading and writing [cpu.Registers[i]], with Go's index check. *)
Definition readReg (i : Z) : M Z := fun cpu =>
  if i <? 0 then Panic IndexOutOfRange
  else match Registers cpu !! Z.to_nat i with
       | Some v => Ok (v, cpu)
       | None => Panic IndexOutOfRange
       end.

Definition writeReg (i : Z) (v : Z) : M unit := fun cpu =>
  if (i <? 0) || (len (Registers cpu) <=? i) then Panic IndexOutOfRange
  else Ok (tt, set_Registers (<[Z.to_nat i := v]> (Registers cpu)) cpu).

(** [cpu.PC += d]. *)
Definition addPC (d : Z) : M unit :=
  modify (fun cpu => set_PC (uint32 (PC cpu + d)) cpu).

(** ** Instruction set model *)

(** The closures of the operation tables.  Integer division by zero and a
    negative shift count are run-time panics in Go. *)
Definition go_div (a b : Z) : result Z :=
  if b =? 0 then Panic DivideByZero else Ok (int32 (Z.quot a b)).
Definition go_rem (a b : Z) : result Z :=
  if b =? 0 then Panic DivideByZero else Ok (int32 (Z.rem a b)).
(** [a << b] on [int32]. *)
Definition go_shl (a b : Z) : result Z :=
  if b <? 0 then Panic NegativeShift else Ok (int32 (Z.shiftl a b)).
(** [int32(uint32(a) >> b)]. *)
Definition go_shr_logical (a b : Z) : result Z :=
  if b <? 0 then Panic NegativeShift else Ok (int32 (Z.shiftr (uint32 a) b)).
(** [a >> b] on [int32]. *)
Definition go_shr (a b : Z) : result Z :=
  if b <? 0 then Panic NegativeShift else Ok (Z.shiftr a b).

Definition instrToThreePtOp : list (string * (Z -> Z -> result Z)) :=
  [ ("add", fun a b => Ok (int32 (a + b)));
    ("sub", fun a b => Ok (int32 (a - b)));
    ("mul", fun a b => Ok (int32 (a * b)));
    ("div", fun a b => go_div a b);
    ("rem", fun a b => go_rem a b);
    ("and", fun a b => Ok (Z.land a b));
    ("or", fun a b => Ok (Z.lor a b));
    ("xor", fun a b => Ok (Z.lxor a b));
    ("sll", fun a b => go_shl a b);
    ("srl", fun a b => go_shr_logical a b);
    ("sra", fun a b => go_shr a b) ].

Definition instrToThreePtImmOp : list (string * (Z -> Z -> result Z)) :=
  [ ("addi", fun a b => Ok (int32 (a + b)));
    ("andi", fun a b => Ok (Z.land a b));
    ("ori", fun a b => Ok (Z.lor a b));
    ("xori", fun a b => Ok (Z.lxor a b));
    ("slli", fun a b => go_shl a b);
    ("srli", fun a b => go_shr_logical a b);
    ("srai", fun a b => go_shr a b) ].

Definition instrToLoadImmOp : list (string * (Z -> M Z)) :=
  [ ("li", fun imm => ret imm);
    ("lui", fun imm => ret (int32 (Z.shiftl imm 12)));
    ("auipc", fun imm =>
       do cpu <- get ;;; ret (int32 (int32 (PC cpu) + int32 (Z.shiftl imm 12)))) ].

(** *** Memory *)

(** [cpu.Memory[address:]]. *)
Definition slice_from (mem : list Z) (address : Z) : result (list Z) :=
  if address <=? len mem then Ok (drop (Z.to_nat address) mem)
  else Panic IndexOutOfRange.

(** [binary.LittleEndian]. *)
Definition Uint32 (b : list Z) : result Z :=
  match b with
  | b0 :: b1 :: b2 :: b3 :: _ =>
      Ok (Z.lor (Z.lor (Z.lor b0 (Z.shiftl b1 8)) (Z.shiftl b2 16)) (Z.shiftl b3 24))
  | _ => Panic IndexOutOfRange
  end.

Definition Uint16 (b : list Z) : result Z :=
  match b with
  | b0 :: b1 :: _ => Ok (Z.lor b0 (Z.shiftl b1 8))
  | _ => Panic IndexOutOfRange
  end.

Definition PutUint32 (b : list Z) (v : Z) : result (list Z) :=
  match b with
  | _ :: _ :: _ :: _ :: rest =>
      Ok (uint8 v :: uint8 (Z.shiftr v 8) :: uint8 (Z.shiftr v 16)
            :: uint8 (Z.shiftr v 24) :: rest)
  | _ => Panic IndexOutOfRange
  end.

Definition PutUint16 (b : list Z) (v : Z) : result (list Z) :=
  match b with
  | _ :: _ :: rest => Ok (uint8 v :: uint8 (Z.shiftr v 8) :: rest)
  | _ => Panic IndexOutOfRange
  end.

(** The new entry goes to the front of [cpu.MemoryHistory]. *)
Definition record_history (entry : string) : M unit :=
  modify (fun cpu => set_MemoryHistory (entry :: MemoryHistory cpu) cpu).

(** A write through the slice [cpu.Memory[address:]] lands in the backing
    array of [cpu.Memory]. *)
Definition write_slice (address : Z) (b : list Z) : M unit :=
  modify (fun cpu => set_Memory (take (Z.to_nat address) (Memory cpu) ++ b) cpu).

Definition loadWord (address : Z) : M Z :=
  do cpu <- get ;;;
  match checkMemoryAccess cpu address with
  | Some _ => ret 0
  | None =>
      do b <- lift (slice_from (Memory cpu) address) ;;;
      do w <- lift (Uint32 b) ;;;
      let value := int32 w in
      record_history
        ("Loaded word (" +:+ pretty value +:+ ") from  " +:+ pretty address) ;;;
      ret value
  end.

Definition loadHalf (address : Z) : M Z :=
  do cpu <- get ;;;
  match checkMemoryAccess cpu address with
  | Some _ => ret 0
  | None =>
      do b <- lift (slice_from (Memory cpu) address) ;;;
      do value <- lift (Uint16 b) ;;;
      record_history
        ("Loaded half (" +:+ pretty value +:+ ") from  " +:+ pretty address) ;;;
      ret value
  end.

Definition loadByte (address : Z) : M Z :=
  do cpu <- get ;;;
  match checkMemoryAccess cpu address with
  | Some _ => ret 0
  | None =>
      match Memory cpu !! Z.to_nat address with
      | Some b =>
          let value := uint8 b in
          record_history
            ("Loaded byte (" +:+ pretty value +:+ ") from  " +:+ pretty address) ;;;
          ret value
      | None => lift (Panic IndexOutOfRange)
      end
  end.

Definition instrToLoadOp : list (string * (Z -> Z -> M Z)) :=
  [ ("lw", fun rs1_val imm => loadWord (uint32 (int32 (rs1_val + imm))));
    ("lh", fun rs1_val imm =>
       do h <- loadHalf (uint32 (int32 (rs1_val + imm))) ;;; ret (int32 h));
    ("lhu", fun rs1_val imm =>
       do h <- loadHalf (uint32 (int32 (rs1_val + imm))) ;;; ret (int32 (uint32 h)));
    ("lb", fun rs1_val imm =>
       do b <- loadByte (uint32 (int32 (rs1_val + imm))) ;;; ret (int32 b));
    ("lbu", fun rs1_val imm =>
       do b <- loadByte (uint32 (int32 (rs1_val + imm))) ;;; ret (int32 (uint32 b))) ].

Definition storeWord (address value : Z) : M unit :=
  do cpu <- get ;;;
  match checkMemoryAccess cpu address with
  | Some _ => ret tt
  | None =>
      record_history
        ("Stored word (" +:+ pretty value +:+ ") to address " +:+ pretty address) ;;;
      do b <- lift (slice_from (Memory cpu) address) ;;;
      do b' <- lift (PutUint32 b (uint32 value)) ;;;
      write_slice address b'
  end.

Definition storeHalf (address value : Z) : M unit :=
  do cpu <- get ;;;
  match checkMemoryAccess cpu address with
  | Some _ => ret tt
  | None =>
      record_history
        ("Stored half-word (" +:+ pretty value +:+ ") to address " +:+ pretty address) ;;;
      do b <- lift (slice_from (Memory cpu) address) ;;;
      do b' <- lift (PutUint16 b (uint16 value)) ;;;
      write_slice address b'
  end.

Definition storeByte (address value : Z) : M unit :=
  do cpu <- get ;;;
  match checkMemoryAccess cpu address with
  | Some _ => ret tt
  | None =>
      record_history
        ("Stored byte (" +:+ pretty value +:+ ") to address " +:+ pretty address) ;;;
      if address <? len (Memory cpu)
      then modify (fun c => set_Memory (<[Z.to_nat address := uint8 value]> (Memory c)) c)
      else lift (Panic IndexOutOfRange)
  end.

Definition instrToStoreOp : list (string * (Z -> Z -> Z -> M unit)) :=
  [ ("sw", fun rs1_val rs2_val imm => storeWord (uint32 (int32 (imm + rs1_val))) rs2_val);
    ("sh", fun rs1_val rs2_val imm => storeHalf (uint32 (int32 (imm + rs1_val))) rs2_val);
    ("sb", fun rs1_val rs2_val imm => storeByte (uint32 (int32 (imm + rs1_val))) rs2_val) ].

(** *** Branches and jumps *)

Definition immOrLabel (destination : string) : M Z :=
  do cpu <- get ;;;
  match Atoi destination with
  | Some imm => ret imm
  | None =>
      match Labels cpu !! destination with
      | None => lift (Panic InvalidJump)
      | Some targetAddr => ret (int targetAddr - int (PC cpu))
      end
  end.

Definition trueOrNext (valid : bool) (destination : string) : M unit :=
  if valid then
    do imm <- immOrLabel destination ;;; addPC (uint32 imm)
  else addPC 4.

Definition instrToBranchThreeOp : list (string * (Z -> Z -> string -> M unit)) :=
  [ ("beq", fun rs1 rs2 destination => trueOrNext (rs1 =? rs2) destination);
    ("bne", fun rs1 rs2 destination => trueOrNext (negb (rs1 =? rs2)) destination);
    ("blt", fun rs1 rs2 destination => trueOrNext (rs1 <? rs2) destination);
    ("bltu", fun rs1 rs2 destination => trueOrNext (uint32 rs1 <? uint32 rs2) destination);
    ("bgt", fun rs1 rs2 destination => trueOrNext (rs1 >? rs2) destination);
    ("bgtu", fun rs1 rs2 destination => trueOrNext (uint32 rs1 >? uint32 rs2) destination);
    ("ble", fun rs1 rs2 destination => trueOrNext (rs1 <=? rs2) destination);
    ("bleu", fun rs1 rs2 destination => trueOrNext (uint32 rs1 <=? uint32 rs2) destination);
    ("bge", fun rs1 rs2 destination => trueOrNext (rs1 >=? rs2) destination);
    ("bgeu", fun rs1 rs2 destination => trueOrNext (uint32 rs1 >=? uint32 rs2) destination) ].

Definition instrToBranchTwoOp : list (string * (Z -> string -> M unit)) :=
  [ ("beqz", fun rs1 destination => trueOrNext (rs1 =? 0) destination);
    ("bnez", fun rs1 destination => trueOrNext (negb (rs1 =? 0)) destination);
    ("bltz", fun rs1 destination => trueOrNext (rs1 <? 0) destination);
    ("bgtz", fun rs1 destination => trueOrNext (rs1 >? 0) destination);
    ("bgez", fun rs1 destination => trueOrNext (rs1 >=? 0) destination) ].

Definition instrToSetOp : list (string * (Z -> Z -> bool)) :=
  [ ("slt", fun rs1 rs2 => rs1 <? rs2);
    ("sltu", fun rs1 rs2 => uint32 rs1 <? uint32 rs2) ].

Definition instrToSetImmOp : list (string * (Z -> Z -> bool)) :=
  [ ("slti", fun rs1 imm => rs1 <? imm);
    ("sltiu", fun rs1 imm => uint32 rs1 <? uint32 imm) ].

(** *** The instruction variants *)

Inductive Instr : Type :=
  | NoOp (reason : string)
  | InstrThreePt (rd rs1 rs2 : Z) (op : Z -> Z -> result Z)
  | InstrThreePtImm (rd rs1 : Z) (imm : Z) (op : Z -> Z -> result Z)
  | LoadImmInstr (rd : Z) (imm : Z) (op : Z -> M Z)
  | LoadInstr (rd rs1 : Z) (imm : Z) (op : Z -> Z -> M Z)
  | StoreInstr (rs1 rs2 : Z) (imm : Z) (op : Z -> Z -> Z -> M unit)
  | BranchThreeInstr (rs1 rs2 : Z) (destination : string)
      (op : Z -> Z -> string -> M unit)
  | BranchTwoInstr (rs1 : Z) (destination : string) (op : Z -> string -> M unit)
  | JumpInstr (destination : string)
  | JumpAndLinkInstr (destination : string) (rd : Z)
  | JumpAndLinkRInstr (imm : Z) (rd rs1 : Z)
  | SetInstr (rd rs1 rs2 : Z) (op : Z -> Z -> bool)
  | SetImmInstr (rd rs1 : Z) (imm : Z) (op : Z -> Z -> bool).

(** [if instr.rd != 0 { body }]. *)
Definition when_rd (rd : Z) (body : M unit) : M unit :=
  if negb (rd =? 0) then body else ret tt.

(** [cpu.Registers[rd] = value]. *)
Definition assign (rd : Z) (value : M Z) : M unit :=
  do v <- value ;;; writeReg rd v.

Definition Operate (instr : Instr) : M unit :=
  match instr with
  | NoOp _ => addPC 4
  | InstrThreePt rd rs1 rs2 op =>
      when_rd rd
        (assign rd
           (do a <- readReg rs1 ;;; do b <- readReg rs2 ;;; lift (op a b))) ;;;
      addPC 4
  | InstrThreePtImm rd rs1 imm op =>
      when_rd rd (assign rd (do a <- readReg rs1 ;;; lift (op a imm))) ;;;
      addPC 4
  | LoadImmInstr rd imm op =>
      when_rd rd (assign rd (op imm)) ;;;
      addPC 4
  | LoadInstr rd rs1 imm op =>
      when_rd rd (assign rd (do a <- readReg rs1 ;;; op a imm)) ;;;
      addPC 4
  | StoreInstr rs1 rs2 imm op =>
      do a <- readReg rs1 ;;; do b <- readReg rs2 ;;;
      op a b imm ;;;
      addPC 4
  | BranchThreeInstr rs1 rs2 destination op =>
      do a <- readReg rs1 ;;; do b <- readReg rs2 ;;; op a b destination
  | BranchTwoInstr rs1 destination op =>
      do a <- readReg rs1 ;;; op a destination
  | JumpInstr destination =>
      do imm <- immOrLabel destination ;;; addPC (uint32 imm)
  | JumpAndLinkInstr destination rd =>
      when_rd rd
        (assign rd (do cpu <- get ;;; ret (int32 (int32 (PC cpu) + 4)))) ;;;
      do imm <- immOrLabel destination ;;; addPC (uint32 imm)
  | JumpAndLinkRInstr imm rd rs1 =>
      when_rd rd
        (assign rd (do cpu <- get ;;; ret (int32 (int32 (PC cpu) + 4)))) ;;;
      do a <- readReg rs1 ;;;
      modify (set_PC (uint32 (int imm + int a)))
  | SetInstr rd rs1 rs2 op =>
      when_rd rd
        (do a <- readReg rs1 ;;; do b <- readReg rs2 ;;;
         if op a b then assign rd (ret 1) else assign rd (ret 0)) ;;;
      addPC 4
  | SetImmInstr rd rs1 imm op =>
      when_rd rd
        (do a <- readReg rs1 ;;;
         if op a imm then assign rd (ret 1) else assign rd (ret 0)) ;;;
      addPC 4
  end.

(** ** Decoder *)

Definition threePtInstrTypes : list string :=
  ["add"; "sub"; "mul"; "div"; "rem"; "and"; "or"; "xor"; "sll"; "srl"; "sra"].
Definition threePtImmInstrTypes : list string :=
  ["addi"; "andi"; "ori"; "xori"; "slli"; "srli"; "srai"].
Definition loadImmInstrTypes : list string := ["li"; "lui"; "auipc"].
Definition loadInstrTypes : list string := ["lw"; "lh"; "lhu"; "lb"; "lbu"].
Definition storeInstrTypes : list string := ["sw"; "sh"; "sb"].
Definition branchThreeInstrTypes : list string :=
  ["beq"; "bne"; "blt"; "bltu"; "bgt"; "bgtu"; "ble"; "bleu"; "bge"; "bgeu"].
Definition branchTwoInstrTypes : list string :=
  ["beqz"; "bnez"; "bltz"; "bgtz"; "blez"; "bgez"].
Definition setInstrTypes : list string := ["slt"; "sltu"].
Definition setImmInstrTypes : list string := ["slti"; "sltiu"].

Definition parseThreePt (tokens : list string) : result Instr :=
  try t0 <- index tokens 0 ;;;
  match lookup_table instrToThreePtOp t0 with
  | None => Panic (InvalidOperation t0)
  | Some op =>
      try t1 <- index tokens 1 ;;; try rd <- getRegisterNumber t1 ;;;
      try t2 <- index tokens 2 ;;; try rs1 <- getRegisterNumber t2 ;;;
      try t3 <- index tokens 3 ;;; try rs2 <- getRegisterNumber t3 ;;;
      Ok (InstrThreePt rd rs1 rs2 op)
  end.

Definition parseThreePtImm (tokens : list string) : result Instr :=
  try t0 <- index tokens 0 ;;;
  match lookup_table instrToThreePtImmOp t0 with
  | None => Ok (NoOp "Invalid Operation")
  | Some op =>
      try t1 <- index tokens 1 ;;; try rd <- getRegisterNumber t1 ;;;
      try t2 <- index tokens 2 ;;; try rs1 <- getRegisterNumber t2 ;;;
      try t3 <- index tokens 3 ;;; try imm <- parseImm t3 ;;;
      Ok (InstrThreePtImm rd rs1 imm op)
  end.

Definition parseLoadImm (tokens : list string) : result Instr :=
  try t0 <- index tokens 0 ;;;
  match lookup_table instrToLoadImmOp t0 with
  | None => Ok (NoOp "Invalid Operation")
  | Some op =>
      try t1 <- index tokens 1 ;;; try rd <- getRegisterNumber t1 ;;;
      try t2 <- index tokens 2 ;;; try imm <- parseImm t2 ;;;
      Ok (LoadImmInstr rd imm op)
  end.

Definition parseLoad (tokens : list string) : result Instr :=
  try t0 <- index tokens 0 ;;;
  match lookup_table instrToLoadOp t0 with
  | None => Ok (NoOp "Invalid Operation")
  | Some op =>
      try t1 <- index tokens 1 ;;; try rd <- getRegisterNumber t1 ;;;
      try t3 <- index tokens 3 ;;; try rs1 <- getRegisterNumber t3 ;;;
      try t2 <- index tokens 2 ;;; try imm <- parseImm t2 ;;;
      Ok (LoadInstr rd rs1 imm op)
  end.

Definition parseStore (tokens : list string) : result Instr :=
  try t0 <- index tokens 0 ;;;
  match lookup_table instrToStoreOp t0 with
  | None => Ok (NoOp "Invalid Operation")
  | Some op =>
      try t3 <- index tokens 3 ;;; try rs1 <- getRegisterNumber t3 ;;;
      try t1 <- index tokens 1 ;;; try rs2 <- getRegisterNumber t1 ;;;
      try t2 <- index tokens 2 ;;; try imm <- parseImm t2 ;;;
      Ok (StoreInstr rs1 rs2 imm op)
  end.

Definition parseBranchThree (tokens : list string) : result Instr :=
  try t0 <- index tokens 0 ;;;
  match lookup_table instrToBranchThreeOp t0 with
  | None => Ok (NoOp "Invalid Operation")
  | Some op =>
      try t1 <- index tokens 1 ;;; try rs1 <- getRegisterNumber t1 ;;;
      try t2 <- index tokens 2 ;;; try rs2 <- getRegisterNumber t2 ;;;
      try destination <- index tokens 3 ;;;
      Ok (BranchThreeInstr rs1 rs2 destination op)
  end.

Definition parseBranchTwo (tokens : list string) : result Instr :=
  try t0 <- index tokens 0 ;;;
  match lookup_table instrToBranchTwoOp t0 with
  | None => Ok (NoOp "Invalid Operation")
  | Some op =>
      try t1 <- index tokens 1 ;;; try rs1 <- getRegisterNumber t1 ;;;
      try destination <- index tokens 2 ;;;
      Ok (BranchTwoInstr rs1 destination op)
  end.

Definition parseJal (tokens : list string) : result Instr :=
  try t1 <- index tokens 1 ;;; try rd <- getRegisterNumber t1 ;;;
  try destination <- index tokens 2 ;;;
  Ok (JumpAndLinkInstr destination rd).

Definition parseJalr (tokens : list string) : result Instr :=
  try t1 <- index tokens 1 ;;; try rd <- getRegisterNumber t1 ;;;
  try t2 <- index tokens 2 ;;; try rs1 <- getRegisterNumber t2 ;;;
  try t3 <- index tokens 3 ;;; try imm <- parseImm t3 ;;;
  Ok (JumpAndLinkRInstr imm rd rs1).

Definition parseSet (tokens : list string) : result Instr :=
  try t0 <- index tokens 0 ;;;
  match lookup_table instrToSetOp t0 with
  | None => Ok (NoOp "Invalid Operation")
  | Some op =>
      try t1 <- index tokens 1 ;;; try rd <- getRegisterNumber t1 ;;;
      try t2 <- index tokens 2 ;;; try rs1 <- getRegisterNumber t2 ;;;
      try t3 <- index tokens 3 ;;; try rs2 <- getRegisterNumber t3 ;;;
      Ok (SetInstr rd rs1 rs2 op)
  end.

Definition parseSetImm (tokens : list string) : result Instr :=
  try t0 <- index tokens 0 ;;;
  match lookup_table instrToSetImmOp t0 with
  | None => Ok (NoOp "Invalid Operation")
  | Some op =>
      try t1 <- index tokens 1 ;;; try rd <- getRegisterNumber t1 ;;;
      try t2 <- index tokens 2 ;;; try rs1 <- getRegisterNumber t2 ;;;
      try t3 <- index tokens 3 ;;; try imm <- parseImm t3 ;;;
      Ok (SetImmInstr rd rs1 imm op)
  end.

(** [^(\w+)] *)
Definition firstTokenRe : regex := group [Cls word Plus].
(** [(\w+)\s+(\w+)\s*,\s*(\w+)\s*,\s*(\-?\.?\w+)] *)
Definition threePtRe : regex :=
  group [Cls word Plus] ++ [Cls space Plus] ++ group [Cls word Plus]
    ++ [Cls space Star; Cls (is_char ",") One; Cls space Star]
    ++ group [Cls word Plus]
    ++ [Cls space Star; Cls (is_char ",") One; Cls space Star]
    ++ group [Cls (is_char "-") Opt; Cls (is_char ".") Opt; Cls word Plus].
(** [(\w+)\s+(\w+)\s*,\s*(\w+)] *)
Definition twoPtImmRe : regex :=
  group [Cls word Plus] ++ [Cls space Plus] ++ group [Cls word Plus]
    ++ [Cls space Star; Cls (is_char ",") One; Cls space Star]
    ++ group [Cls word Plus].
(** [(\w+)\s+(\w+)\s*,\s*(-?[0-9]+)\(([a-z0-9]+)\)] *)
Definition loadStoreRe : regex :=
  group [Cls word Plus] ++ [Cls space Plus] ++ group [Cls word Plus]
    ++ [Cls space Star; Cls (is_char ",") One; Cls space Star]
    ++ group [Cls (is_char "-") Opt; Cls is_digit Plus]
    ++ [Cls (is_char "(") One]
    ++ group [Cls lower_or_digit Plus]
    ++ [Cls (is_char ")") One].
(** [(\w)\s+(.?\w+)] *)
Definition jumpRe : regex :=
  group [Cls word One] ++ [Cls space Plus] ++ group [Cls any Opt; Cls word Plus].

(** The end of [DecodeInstr]: the [mv] case and the final no-operation. *)
Definition decodeMv (instrTypeToken instr_str : string) : result Instr :=
  if String.eqb instrTypeToken "mv" then
    let tokens := FindStringSubmatch twoPtImmRe instr_str in
    if (length tokens =? 0)%nat then Ok (NoOp "")
    else
      try t2 <- index tokens 2 ;;; try rd <- getRegisterNumber t2 ;;;
      try t3 <- index tokens 3 ;;; try rs1 <- getRegisterNumber t3 ;;;
      Ok (InstrThreePtImm rd rs1 0 (fun i1 i2 => Ok i1))
  else Ok (NoOp "").

(** One decoding case: the pattern must match, then the tokens are parsed. *)
Definition matched (re : regex) (instr_str : string)
    (parse : list string -> result Instr) : result Instr :=
  let tokens := FindStringSubmatch re instr_str in
  if (length tokens =? 0)%nat then Ok (NoOp "") else parse tokens.

Definition DecodeInstr (instr_str_raw : string) : result Instr :=
  let instr_str := TrimSpace instr_str_raw in
  let instrTypeToken := FindStringAnchored firstTokenRe instr_str in
  if Contains threePtInstrTypes instrTypeToken then
    matched threePtRe instr_str (fun tokens => parseThreePt (drop 1 tokens))
  else if Contains threePtImmInstrTypes instrTypeToken then
    matched threePtRe instr_str (fun tokens => parseThreePtImm (drop 1 tokens))
  else if Contains loadImmInstrTypes instrTypeToken then
    matched twoPtImmRe instr_str (fun tokens => parseLoadImm (drop 1 tokens))
  else if Contains loadInstrTypes instrTypeToken then
    matched loadStoreRe instr_str (fun tokens => parseLoad (drop 1 tokens))
  else if Contains storeInstrTypes instrTypeToken then
    matched loadStoreRe instr_str (fun tokens => parseStore (drop 1 tokens))
  else if Contains branchThreeInstrTypes instrTypeToken then
    matched threePtRe instr_str (fun tokens => parseBranchThree (drop 1 tokens))
  else if Contains branchTwoInstrTypes instrTypeToken then
    matched twoPtImmRe instr_str (fun tokens => parseBranchTwo (drop 1 tokens))
  else if Contains setInstrTypes instrTypeToken then
    matched threePtRe instr_str (fun tokens => parseSet (drop 1 tokens))
  else if Contains setImmInstrTypes instrTypeToken then
    matched threePtRe instr_str (fun tokens => parseSetImm (drop 1 tokens))
  else if String.eqb instrTypeToken "j" then
    matched jumpRe instr_str (fun tokens =>
      try destination <- index tokens 2 ;;; Ok (JumpInstr destination))
  else if String.eqb instrTypeToken "call" then
    matched jumpRe instr_str (fun tokens =>
      try destination <- index tokens 2 ;;;
      Ok (JumpAndLinkInstr destination
            (int8 (default 0 (lookup_table abiToRegister "ra")))))
  else if String.eqb instrTypeToken "jr" then
    matched jumpRe instr_str (fun tokens =>
      try t2 <- index tokens 2 ;;; try rs1 <- getRegisterNumber t2 ;;;
      Ok (JumpAndLinkRInstr 0 0 rs1))
  else if String.eqb instrTypeToken "jal" then
    matched twoPtImmRe instr_str (fun tokens => parseJal tokens)
  else if String.eqb instrTypeToken "jalr" then
    (* the instruction built by [parseJalr] is dropped: there is no
       [return] in front of the call, and control goes on to the [mv] case *)
    matched threePtRe instr_str (fun tokens =>
      try _ <- parseJalr tokens ;;; decodeMv instrTypeToken instr_str)
  else decodeMv instrTypeToken instr_str.

(** ** Execution engine *)

(** [(.+):] *)
Definition labelRe : regex := group [Cls any Plus] ++ lit ":".
(** [.global\s(\w+)] *)
Definition globalRe : regex :=
  [Cls any One] ++ lit "global" ++ [Cls space One] ++ group [Cls word Plus].

(** The body of the loop of [LoadInstructions] for the line [instr] at
    position [i]. *)
Definition loadLine (i : Z) (instr : string) (cpu : CPU) : CPU :=
  match FindStringSubmatch labelRe instr with
  | [_; label] =>
      set_Labels (<[label := uint32 (i * 4 + 16 + 4)]> (Labels cpu)) cpu
  | _ =>
      match FindStringSubmatch globalRe instr with
      | [_; name] => set_entryPoint name cpu
      | _ => cpu
      end
  end.

Fixpoint loadLines (i : Z) (instrs : list string) (cpu : CPU) : CPU :=
  match instrs with
  | [] => cpu
  | instr :: instrs' => loadLines (i + 1) instrs' (loadLine i instr cpu)
  end.

(** [int((cpu.PC - 16) / 4)] *)
Definition instr_num (cpu : CPU) : Z := int (uint32 (PC cpu - 16) / 4).

Definition LoadInstructions (instrs : list string) (cpu : CPU) : CPU :=
  let cpu := set_entryPoint "" cpu in
  let cpu := loadLines 0 instrs cpu in
  let cpu := set_instructions instrs cpu in
  if instr_num cpu >? len (instructions cpu) - 1
  then set_Done true cpu
  else set_Done false cpu.

(** The diagnostic [print(v.reason)] of a no-operation writes to the
    standard error stream and is not part of the state. *)
Definition RunNextInstruction : M unit :=
  do cpu <- get ;;;
  if PC cpu <? 16 then modify (set_Done true)
  else if instr_num cpu >? len (instructions cpu) - 1 then modify (set_Done true)
  else
    match instructions cpu !! Z.to_nat (instr_num cpu) with
    | None => lift (Panic IndexOutOfRange)
    | Some line => do instr <- lift (DecodeInstr line) ;;; Operate instr
    end.

(** The loop [for !cpu.Done { cpu.RunNextInstruction() }]; [None] when the
    fuel runs out before the loop ends. *)
Fixpoint RunLoop (fuel : nat) (cpu : CPU) : option (result CPU) :=
  if Done cpu then Some (Ok cpu)
  else
    match fuel with
    | O => None
    | S fuel' =>
        match RunNextInstruction cpu with
        | Ok (_, cpu') => RunLoop fuel' cpu'
        | Panic f => Some (Panic f)
        end
    end.

Definition RunProgram (fuel : nat) (cpu : CPU) : option (result CPU) :=
  match RunLoop fuel cpu with
  | Some (Ok cpu') => Some (Ok (set_Done false (set_PC 16 cpu')))
  | Some (Panic f) => Some (Panic f)
  | None => None
  end.

Definition GetCurrInstr (cpu : CPU) : string :=
  let n := instr_num cpu in
  if (n <? len (instructions cpu)) && (n >=? 0)
  then default "" (instructions cpu !! Z.to_nat n)
  else "".

(** * Properties *)

(** ** Machine integers *)

Lemma uint32_range x : is_uint32 (uint32 x).
Proof. unfold is_uint32, uint32. apply Z.mod_pos_bound. lia. Qed.

Lemma uint32_id x : is_uint32 x -> uint32 x = x.
Proof. unfold is_uint32, uint32. intros H. apply Z.mod_small. lia. Qed.

Lemma int32_range x : is_int32 (int32 x).
Proof.
  unfold is_int32, int32.
  pose proof (Z.mod_pos_bound (x + 2 ^ 31) (2 ^ 32)). lia.
Qed.

Lemma int32_id x : is_int32 x -> int32 x = x.
Proof.
  unfold is_int32, int32. intros H.
  rewrite Z.mod_small; lia.
Qed.

Lemma int_id x : - 2 ^ 63 <= x < 2 ^ 63 -> int x = x.
Proof. unfold int. intros H. rewrite Z.mod_small; lia. Qed.

Lemma uint32_int32 x : uint32 (int32 x) = uint32 x.
Proof.
  unfold uint32, int32.
  rewrite Zminus_mod, Zmod_mod, <- Zminus_mod.
  f_equal. lia.
Qed.

Lemma int32_uint32 x : int32 (uint32 x) = int32 x.
Proof.
  unfold uint32, int32. f_equal.
  rewrite Zplus_mod, Zmod_mod, <- Zplus_mod. reflexivity.
Qed.

(** ** The state monad *)

Ltac munfold :=
  unfold when_rd, assign, addPC, record_history, write_slice, readReg,
    writeReg, bind, ret, lift, get, modify in *.

Lemma bind_ok {A B : Type} (m : M A) (k : A -> M B) cpu b cpu' :
  bind m k cpu = Ok (b, cpu') ->
  exists a cpu1, m cpu = Ok (a, cpu1) /\ k a cpu1 = Ok (b, cpu').
Proof.
  unfold bind. destruct (m cpu) as [[a cpu1]|f]; [|discriminate].
  intros H. exists a, cpu1. split; [reflexivity|exact H].
Qed.

(** ** Running a program on a fresh processor *)

(** The state after [LoadInstructions] and [RunProgram] on a processor made
    by [NewCPU], as the tests of the package do it. *)
Definition run_fresh (fuel : nat) (memorySize : Z) (program : list string)
    : option (result CPU) :=
  RunProgram fuel (LoadInstructions program (NewCPU memorySize)).

Definition register_of (r : option (result CPU)) (i : nat) : option Z :=
  match r with
  | Some (Ok cpu) => Registers cpu !! i
  | _ => None
  end.

Definition memory_of (r : option (result CPU)) (i : nat) : option Z :=
  match r with
  | Some (Ok cpu) => Memory cpu !! i
  | _ => None
  end.

(** The end-to-end tests of the package. *)
Example TestStoreByte :
  let r := run_fresh 10 16 ["li x1, 4"; "sb x1, 0(x0)"] in
  register_of r 1 = Some 4 /\ memory_of r 0 = Some 4.
Proof. vm_compute. split; reflexivity. Qed.

Example TestLoad :
  let r := run_fresh 10 16 ["li x1, 16"; "sw x1, 4(x0)"; "lw x3, 4(x0)"] in
  register_of r 1 = Some 16 /\ register_of r 3 = Some 16.
Proof. vm_compute. split; reflexivity. Qed.

(** ** Decoding of [jalr] *)

(** Whatever follows the mnemonic, a line whose first token is [jalr] is
    never decoded to a jump-and-link-register instruction: the decoder
    panics or gives the no-operation. *)
Lemma jalr_never_decoded line :
  FindStringAnchored firstTokenRe (TrimSpace line) = "jalr" ->
  DecodeInstr line = Ok (NoOp "") \/ exists f, DecodeInstr line = Panic f.
Proof.
  intros H. unfold DecodeInstr. rewrite H. cbn -[FindStringSubmatch].
  unfold matched.
  destruct (length _ =? 0)%nat; [left; reflexivity|].
  destruct (parseJalr _) as [i|f]; cbn; [left; reflexivity|right; eauto].
Qed.

(** C1 (the code departs from the claim): the well-formed line
    [jalr x1, x2, 0] is not decoded to an instruction that links and jumps;
    [parseJalr] receives the token list with the whole match in front, so
    that the mnemonic is read as the destination register and the decoder
    panics. *)
Theorem jalr_decode_panics :
  DecodeInstr "jalr x1, x2, 0" = Panic (InvalidRegister "jalr").
Proof. vm_compute. reflexivity. Qed.

(** The sibling [jr] is decoded as the claim describes [jalr]. *)
Example jr_decodes : DecodeInstr "jr ra" = Ok (JumpAndLinkRInstr 0 0 1).
Proof. vm_compute. reflexivity. Qed.

(** ** Little-endian bytes *)

Lemma byte_bit w k n :
  0 <= k -> 0 <= n ->
  Z.testbit (Z.shiftl (uint8 (Z.shiftr w k)) k) n
  = (k <=? n) && (n <? k + 8) && Z.testbit w n.
Proof.
  intros Hk Hn. rewrite Z.shiftl_spec by lia. unfold uint8.
  rewrite Z.testbit_mod_pow2 by lia.
  destruct (Z.leb_spec k n) as [Hle|Hlt].
  - rewrite Z.shiftr_spec by lia. replace (n - k + k) with n by lia.
    destruct (Z.ltb_spec (n - k) 8), (Z.ltb_spec n (k + 8)); try lia; reflexivity.
  - rewrite (Z.testbit_neg_r _ (n - k)) by lia.
    rewrite andb_false_r. reflexivity.
Qed.

Lemma byte0_bit w n :
  0 <= n -> Z.testbit (uint8 w) n = (n <? 8) && Z.testbit w n.
Proof. intros Hn. unfold uint8. apply Z.testbit_mod_pow2. lia. Qed.

(** The four bytes that [PutUint32] writes are read back by [Uint32]. *)
Lemma le32_roundtrip v :
  Z.lor (Z.lor (Z.lor (uint8 (uint32 v))
                      (Z.shiftl (uint8 (Z.shiftr (uint32 v) 8)) 8))
               (Z.shiftl (uint8 (Z.shiftr (uint32 v) 16)) 16))
        (Z.shiftl (uint8 (Z.shiftr (uint32 v) 24)) 24)
  = uint32 v.
Proof.
  apply Z.bits_inj'. intros n Hn.
  rewrite !Z.lor_spec, !byte_bit, byte0_bit by lia.
  unfold uint32. rewrite Z.testbit_mod_pow2 by lia.
  destruct (Z.testbit v n); rewrite ?andb_false_r, ?andb_true_r; [|reflexivity].
  destruct (Z.ltb_spec n 8), (Z.leb_spec 8 n), (Z.ltb_spec n (8 + 8)),
    (Z.leb_spec 16 n), (Z.ltb_spec n (16 + 8)), (Z.leb_spec 24 n),
    (Z.ltb_spec n (24 + 8)), (Z.ltb_spec n 32); try lia; reflexivity.
Qed.

Lemma le16_roundtrip v :
  Z.lor (uint8 (uint16 v)) (Z.shiftl (uint8 (Z.shiftr (uint16 v) 8)) 8)
  = uint16 v.
Proof.
  apply Z.bits_inj'. intros n Hn.
  rewrite !Z.lor_spec, !byte_bit, byte0_bit by lia.
  unfold uint16. rewrite Z.testbit_mod_pow2 by lia.
  destruct (Z.testbit v n); rewrite ?andb_false_r, ?andb_true_r; [|reflexivity].
  destruct (Z.ltb_spec n 8), (Z.leb_spec 8 n), (Z.ltb_spec n (8 + 8)),
    (Z.ltb_spec n 16); try lia; reflexivity.
Qed.

(** ** Memory accesses that pass the bounds check *)

Lemma len_nonneg {A : Type} (l : list A) : 0 <= len l.
Proof. unfold len. lia. Qed.

Lemma checkMemoryAccess_ok cpu A :
  0 <= A -> A + 4 <= len (Memory cpu) -> len (Memory cpu) < 2 ^ 32 ->
  checkMemoryAccess cpu A = None.
Proof.
  intros H0 H1 H2. unfold checkMemoryAccess, uint32.
  rewrite !Z.mod_small by lia.
  destruct (Z.gtb_spec (A + 4) (len (Memory cpu))); [lia|reflexivity].
Qed.

(** A rejected access, as long as [address + 4] does not wrap around. *)
Lemma checkMemoryAccess_fail cpu A :
  0 <= A -> A + 4 < 2 ^ 32 -> len (Memory cpu) < A + 4 ->
  checkMemoryAccess cpu A = Some "invalid memory access".
Proof.
  intros H0 H1 H2. unfold checkMemoryAccess, uint32.
  pose proof (len_nonneg (Memory cpu)).
  rewrite !Z.mod_small by lia.
  destruct (Z.gtb_spec (A + 4) (len (Memory cpu))); [reflexivity|lia].
Qed.

Lemma slice_from_ok (mem : list Z) A :
  0 <= A -> A <= len mem -> slice_from mem A = Ok (drop (Z.to_nat A) mem).
Proof.
  intros H0 H1. unfold slice_from.
  destruct (Z.leb_spec A (len mem)); [reflexivity|lia].
Qed.

Lemma drop_four (mem : list Z) A :
  0 <= A -> A + 4 <= len mem ->
  exists b0 b1 b2 b3 rest, drop (Z.to_nat A) mem = b0 :: b1 :: b2 :: b3 :: rest.
Proof.
  intros H0 H1. unfold len in H1.
  pose proof (length_drop mem (Z.to_nat A)) as Hl.
  destruct (drop (Z.to_nat A) mem) as [|b0 [|b1 [|b2 [|b3 rest]]]];
    simpl in Hl; try lia.
  eauto 6.
Qed.

Lemma slice_written (mem : list Z) A (b : list Z) :
  0 <= A -> A <= len mem ->
  drop (Z.to_nat A) (take (Z.to_nat A) mem ++ b) = b.
Proof.
  intros H0 H1. unfold len in H1.
  rewrite drop_app_ge by (rewrite length_take; lia).
  rewrite length_take.
  replace (Z.to_nat A - Z.to_nat A `min` length mem)%nat with 0%nat by lia.
  reflexivity.
Qed.

Lemma len_written (mem : list Z) A (b : list Z) :
  0 <= A -> A <= len mem ->
  length b = length (drop (Z.to_nat A) mem) ->
  len (take (Z.to_nat A) mem ++ b) = len mem.
Proof.
  intros H0 H1 Hb. unfold len in *.
  rewrite length_app, length_take, Hb, length_drop. lia.
Qed.

(** What a store that passes the check does to the state. *)
Lemma storeWord_ok cpu A V :
  0 <= A -> A + 4 <= len (Memory cpu) -> len (Memory cpu) < 2 ^ 32 ->
  exists mem' hist',
    storeWord A V cpu = Ok (tt, set_Memory mem' (set_MemoryHistory hist' cpu))
    /\ len mem' = len (Memory cpu)
    /\ exists rest,
         drop (Z.to_nat A) mem'
         = uint8 (uint32 V) :: uint8 (Z.shiftr (uint32 V) 8)
             :: uint8 (Z.shiftr (uint32 V) 16)
             :: uint8 (Z.shiftr (uint32 V) 24) :: rest.
Proof.
  intros H0 H1 H2. unfold storeWord.
  unfold bind at 1. unfold get. rewrite checkMemoryAccess_ok by assumption.
  destruct (drop_four (Memory cpu) A) as (b0 & b1 & b2 & b3 & rest & Hd); try lia.
  munfold. rewrite slice_from_ok by lia. rewrite Hd. cbn.
  eexists _, _. split; [reflexivity|]. split.
  - apply len_written; try lia. rewrite Hd. reflexivity.
  - exists rest. apply slice_written; lia.
Qed.

Lemma storeHalf_ok cpu A V :
  0 <= A -> A + 4 <= len (Memory cpu) -> len (Memory cpu) < 2 ^ 32 ->
  exists mem' hist',
    storeHalf A V cpu = Ok (tt, set_Memory mem' (set_MemoryHistory hist' cpu))
    /\ len mem' = len (Memory cpu)
    /\ exists rest,
         drop (Z.to_nat A) mem'
         = uint8 (uint16 V) :: uint8 (Z.shiftr (uint16 V) 8) :: rest.
Proof.
  intros H0 H1 H2. unfold storeHalf.
  unfold bind at 1. unfold get. rewrite checkMemoryAccess_ok by assumption.
  destruct (drop_four (Memory cpu) A) as (b0 & b1 & b2 & b3 & rest & Hd); try lia.
  munfold. rewrite slice_from_ok by lia. rewrite Hd. cbn.
  eexists _, _. split; [reflexivity|]. split.
  - apply len_written; try lia. rewrite Hd. reflexivity.
  - eexists. apply slice_written; lia.
Qed.

Lemma storeByte_ok cpu A V :
  0 <= A -> A + 4 <= len (Memory cpu) -> len (Memory cpu) < 2 ^ 32 ->
  exists mem' hist',
    storeByte A V cpu = Ok (tt, set_Memory mem' (set_MemoryHistory hist' cpu))
    /\ len mem' = len (Memory cpu)
    /\ mem' !! Z.to_nat A = Some (uint8 V).
Proof.
  intros H0 H1 H2. unfold storeByte.
  unfold bind at 1. unfold get. rewrite checkMemoryAccess_ok by assumption.
  munfold. destruct (Z.ltb_spec A (len (Memory cpu))); [|lia]. cbn.
  eexists _, _. split; [reflexivity|]. split.
  - unfold len. rewrite length_insert. reflexivity.
  - apply list_lookup_insert_eq. unfold len in *. lia.
Qed.

Lemma loadWord_ok cpu A b0 b1 b2 b3 rest :
  0 <= A -> A + 4 <= len (Memory cpu) -> len (Memory cpu) < 2 ^ 32 ->
  drop (Z.to_nat A) (Memory cpu) = b0 :: b1 :: b2 :: b3 :: rest ->
  exists hist',
    loadWord A cpu
    = Ok (int32 (Z.lor (Z.lor (Z.lor b0 (Z.shiftl b1 8)) (Z.shiftl b2 16))
                       (Z.shiftl b3 24)),
          set_MemoryHistory hist' cpu).
Proof.
  intros H0 H1 H2 Hd. unfold loadWord.
  unfold bind at 1. unfold get. rewrite checkMemoryAccess_ok by assumption.
  munfold. rewrite slice_from_ok by lia. rewrite Hd. cbn.
  eexists. reflexivity.
Qed.

Lemma loadHalf_ok cpu A b0 b1 rest :
  0 <= A -> A + 4 <= len (Memory cpu) -> len (Memory cpu) < 2 ^ 32 ->
  drop (Z.to_nat A) (Memory cpu) = b0 :: b1 :: rest ->
  exists hist',
    loadHalf A cpu
    = Ok (Z.lor b0 (Z.shiftl b1 8), set_MemoryHistory hist' cpu).
Proof.
  intros H0 H1 H2 Hd. unfold loadHalf.
  unfold bind at 1. unfold get. rewrite checkMemoryAccess_ok by assumption.
  munfold. rewrite slice_from_ok by lia. rewrite Hd. cbn.
  eexists. reflexivity.
Qed.

Lemma loadByte_ok cpu A b :
  0 <= A -> A + 4 <= len (Memory cpu) -> len (Memory cpu) < 2 ^ 32 ->
  Memory cpu !! Z.to_nat A = Some b ->
  exists hist', loadByte A cpu = Ok (uint8 b, set_MemoryHistory hist' cpu).
Proof.
  intros H0 H1 H2 Hb. unfold loadByte.
  unfold bind at 1. unfold get. rewrite checkMemoryAccess_ok by assumption.
  rewrite Hb. munfold. cbn. eexists. reflexivity.
Qed.

(** ** Round trips through memory *)

(** A word that is stored is the word that is loaded. *)
Lemma word_roundtrip cpu A V :
  0 <= A -> A + 4 <= len (Memory cpu) -> len (Memory cpu) < 2 ^ 32 ->
  exists cpu1 cpu2,
    storeWord A V cpu = Ok (tt, cpu1) /\ loadWord A cpu1 = Ok (int32 V, cpu2).
Proof.
  intros H0 H1 H2.
  destruct (storeWord_ok cpu A V H0 H1 H2) as (mem' & hist' & Hs & Hl & rest & Hd).
  edestruct (loadWord_ok (set_Memory mem' (set_MemoryHistory hist' cpu)) A)
    as (h & Hload); [cbn; lia|cbn; lia|cbn; lia|exact Hd|].
  eexists _, _. split; [exact Hs|]. rewrite Hload.
  rewrite le32_roundtrip, int32_uint32. reflexivity.
Qed.

(** A half-word that is stored is loaded as its low 16 bits. *)
Lemma half_roundtrip cpu A V :
  0 <= A -> A + 4 <= len (Memory cpu) -> len (Memory cpu) < 2 ^ 32 ->
  exists cpu1 cpu2,
    storeHalf A V cpu = Ok (tt, cpu1) /\ loadHalf A cpu1 = Ok (uint16 V, cpu2).
Proof.
  intros H0 H1 H2.
  destruct (storeHalf_ok cpu A V H0 H1 H2) as (mem' & hist' & Hs & Hl & rest & Hd).
  edestruct (loadHalf_ok (set_Memory mem' (set_MemoryHistory hist' cpu)) A)
    as (h & Hload); [cbn; lia|cbn; lia|cbn; lia|exact Hd|].
  eexists _, _. split; [exact Hs|]. rewrite Hload.
  rewrite le16_roundtrip. reflexivity.
Qed.

(** A byte that is stored is loaded as its low 8 bits. *)
Lemma byte_roundtrip cpu A V :
  0 <= A -> A + 4 <= len (Memory cpu) -> len (Memory cpu) < 2 ^ 32 ->
  exists cpu1 cpu2,
    storeByte A V cpu = Ok (tt, cpu1) /\ loadByte A cpu1 = Ok (uint8 V, cpu2).
Proof.
  intros H0 H1 H2.
  destruct (storeByte_ok cpu A V H0 H1 H2) as (mem' & hist' & Hs & Hl & Hb).
  destruct (loadByte_ok (set_Memory mem' (set_MemoryHistory hist' cpu)) A
              (uint8 V)) as (h & Hload);
    [cbn; lia|cbn; lia|cbn; lia|exact Hb|].
  eexists _, _. split; [exact Hs|]. rewrite Hload.
  unfold uint8. rewrite Zmod_mod. reflexivity.
Qed.

(** The operations of [lh] and [lhu] are the same function, and so are
    those of [lb] and [lbu]: the value of [loadHalf] is a [uint16] and that
    of [loadByte] a [uint8], and the conversion to [int32] keeps it. *)
Lemma lh_is_lhu op_lh op_lhu rs1_val imm cpu :
  lookup_table instrToLoadOp "lh" = Some op_lh ->
  lookup_table instrToLoadOp "lhu" = Some op_lhu ->
  op_lh rs1_val imm cpu = op_lhu rs1_val imm cpu.
Proof.
  cbn. intros [= <-] [= <-]. unfold bind.
  destruct (loadHalf _ cpu) as [[h c]|f]; [|reflexivity].
  unfold ret. rewrite int32_uint32. reflexivity.
Qed.

Lemma lb_is_lbu op_lb op_lbu rs1_val imm cpu :
  lookup_table instrToLoadOp "lb" = Some op_lb ->
  lookup_table instrToLoadOp "lbu" = Some op_lbu ->
  op_lb rs1_val imm cpu = op_lbu rs1_val imm cpu.
Proof.
  cbn. intros [= <-] [= <-]. unfold bind.
  destruct (loadByte _ cpu) as [[h c]|f]; [|reflexivity].
  unfold ret. rewrite int32_uint32. reflexivity.
Qed.

(** The round trips through the operations of the store and load
    instructions, at the address [rs1 + imm]. *)
Lemma sw_lw_roundtrip op_sw op_lw cpu base imm V :
  lookup_table instrToStoreOp "sw" = Some op_sw ->
  lookup_table instrToLoadOp "lw" = Some op_lw ->
  uint32 (int32 (base + imm)) + 4 <= len (Memory cpu) ->
  len (Memory cpu) < 2 ^ 32 ->
  exists cpu1 cpu2,
    op_sw base V imm cpu = Ok (tt, cpu1)
    /\ op_lw base imm cpu1 = Ok (int32 V, cpu2).
Proof.
  cbn. intros [= <-] [= <-] H1 H2.
  replace (imm + base) with (base + imm) by lia.
  apply word_roundtrip; [apply uint32_range|assumption|assumption].
Qed.

Lemma sh_lhu_roundtrip op_sh op_lhu cpu base imm V :
  lookup_table instrToStoreOp "sh" = Some op_sh ->
  lookup_table instrToLoadOp "lhu" = Some op_lhu ->
  uint32 (int32 (base + imm)) + 4 <= len (Memory cpu) ->
  len (Memory cpu) < 2 ^ 32 ->
  exists cpu1 cpu2,
    op_sh base V imm cpu = Ok (tt, cpu1)
    /\ op_lhu base imm cpu1 = Ok (uint16 V, cpu2).
Proof.
  cbn. intros [= <-] [= <-] H1 H2.
  replace (imm + base) with (base + imm) by lia.
  destruct (half_roundtrip cpu (uint32 (int32 (base + imm))) V)
    as (cpu1 & cpu2 & Hs & Hl);
    [apply uint32_range|assumption|assumption|].
  exists cpu1, cpu2. split; [exact Hs|].
  unfold bind. rewrite Hl. unfold ret. rewrite int32_uint32.
  rewrite int32_id; [reflexivity|].
  unfold is_int32, uint16.
  pose proof (Z.mod_pos_bound V (2 ^ 16)). lia.
Qed.

Lemma sb_lbu_roundtrip op_sb op_lbu cpu base imm V :
  lookup_table instrToStoreOp "sb" = Some op_sb ->
  lookup_table instrToLoadOp "lbu" = Some op_lbu ->
  uint32 (int32 (base + imm)) + 4 <= len (Memory cpu) ->
  len (Memory cpu) < 2 ^ 32 ->
  exists cpu1 cpu2,
    op_sb base V imm cpu = Ok (tt, cpu1)
    /\ op_lbu base imm cpu1 = Ok (uint8 V, cpu2).
Proof.
  cbn. intros [= <-] [= <-] H1 H2.
  replace (imm + base) with (base + imm) by lia.
  destruct (byte_roundtrip cpu (uint32 (int32 (base + imm))) V)
    as (cpu1 & cpu2 & Hs & Hl);
    [apply uint32_range|assumption|assumption|].
  exists cpu1, cpu2. split; [exact Hs|].
  unfold bind. rewrite Hl. unfold ret. rewrite int32_uint32.
  rewrite int32_id; [reflexivity|].
  unfold is_int32, uint8.
  pose proof (Z.mod_pos_bound V (2 ^ 8)). lia.
Qed.

(** C2 (the code departs from the claim): the half-word of [-1] stored at
    address 0 is loaded by the signed load [lh] as 65535, not as [-1]; the
    program is run on a processor with 16 bytes of memory. *)
Theorem lh_does_not_sign_extend :
  let r := run_fresh 10 16 ["addi x1, x0, -1"; "sh x1, 0(x0)"; "lh x3, 0(x0)"] in
  register_of r 1 = Some (-1) /\ register_of r 3 = Some 65535.
Proof. vm_compute. split; reflexivity. Qed.

Example lb_does_not_sign_extend :
  let r := run_fresh 10 16 ["addi x1, x0, -1"; "sb x1, 0(x0)"; "lb x3, 0(x0)"] in
  register_of r 1 = Some (-1) /\ register_of r 3 = Some 255.
Proof. vm_compute. split; reflexivity. Qed.

(** ** Accesses that fail the bounds check *)

(** As long as [address + 4] does not wrap around, an access that reaches
    over the end of the memory leaves the state as it is, and a load gives
    zero. *)
Lemma rejected_access_is_noop cpu A V :
  0 <= A -> A + 4 < 2 ^ 32 -> len (Memory cpu) < A + 4 ->
  loadWord A cpu = Ok (0, cpu) /\ loadHalf A cpu = Ok (0, cpu)
  /\ loadByte A cpu = Ok (0, cpu)
  /\ storeWord A V cpu = Ok (tt, cpu) /\ storeHalf A V cpu = Ok (tt, cpu)
  /\ storeByte A V cpu = Ok (tt, cpu).
Proof.
  intros H0 H1 H2.
  unfold loadWord, loadHalf, loadByte, storeWord, storeHalf, storeByte, bind, get.
  rewrite checkMemoryAccess_fail by assumption.
  repeat split; reflexivity.
Qed.

(** C8 (the code departs from the claim): the load [lw x1, -4(x0)] is an
    access beyond the end of a memory of 16 bytes; its address 4294967292
    passes the bounds check, because [address + 4] wraps around to 0, and
    the access to the memory panics. *)
Theorem wrapped_address_panics :
  RunNextInstruction (LoadInstructions ["lw x1, -4(x0)"] (NewCPU 16))
  = Panic IndexOutOfRange.
Proof. vm_compute. reflexivity. Qed.

Example wrapped_store_panics :
  run_fresh 10 16 ["li x1, 7"; "sb x1, -1(x0)"] = Some (Panic IndexOutOfRange).
Proof. vm_compute. reflexivity. Qed.

(** ** Shifts *)

Lemma shift_names (name s1 s2 s3 : string) :
  Contains [s1; s2; s3] name = true -> name = s1 \/ name = s2 \/ name = s3.
Proof.
  unfold Contains. cbn.
  destruct (String.eqb_spec name s1); [auto|].
  destruct (String.eqb_spec name s2); [auto|].
  destruct (String.eqb_spec name s3); [auto|discriminate].
Qed.

Lemma go_shl_total a b : (b <? 0) = false -> exists v, go_shl a b = Ok v.
Proof. intros H. unfold go_shl. rewrite H. eauto. Qed.
Lemma go_shr_logical_total a b :
  (b <? 0) = false -> exists v, go_shr_logical a b = Ok v.
Proof. intros H. unfold go_shr_logical. rewrite H. eauto. Qed.
Lemma go_shr_total a b : (b <? 0) = false -> exists v, go_shr a b = Ok v.
Proof. intros H. unfold go_shr. rewrite H. eauto. Qed.

(** The shift closures of both tables: a negative count panics, any other
    count gives a value. *)
Lemma shift_closure (op : Z -> Z -> result Z) a b :
  op = (fun a b => go_shl a b) \/ op = (fun a b => go_shr_logical a b)
  \/ op = (fun a b => go_shr a b) ->
  if b <? 0 then op a b = Panic NegativeShift else exists v, op a b = Ok v.
Proof.
  intros [->|[->| ->]]; destruct (b <? 0) eqn:Hb;
    auto using go_shl_total, go_shr_logical_total, go_shr_total;
    unfold go_shl, go_shr_logical, go_shr; rewrite Hb; reflexivity.
Qed.

Lemma shift_reg_op name op :
  Contains ["sll"; "srl"; "sra"] name = true ->
  lookup_table instrToThreePtOp name = Some op ->
  op = (fun a b => go_shl a b) \/ op = (fun a b => go_shr_logical a b)
  \/ op = (fun a b => go_shr a b).
Proof.
  intros Hn Hop. apply shift_names in Hn.
  destruct Hn as [->|[->| ->]]; cbn in Hop; injection Hop as <-; auto.
Qed.

Lemma shift_imm_op name op :
  Contains ["slli"; "srli"; "srai"] name = true ->
  lookup_table instrToThreePtImmOp name = Some op ->
  op = (fun a b => go_shl a b) \/ op = (fun a b => go_shr_logical a b)
  \/ op = (fun a b => go_shr a b).
Proof.
  intros Hn Hop. apply shift_names in Hn.
  destruct Hn as [->|[->| ->]]; cbn in Hop; injection Hop as <-; auto.
Qed.

(** C10 (counterexample): with register 0 as destination, [sll] with the
    negative shift amount [-1] in [x2] runs without a fault: the program ends
    normally, and [x2] holds [-1]. *)
Lemma shift_to_x0_does_not_fault :
  register_of (run_fresh 10 16 ["addi x2, x0, -1"; "sll x0, x1, x2"]) 2
  = Some (-1).
Proof. vm_compute. reflexivity. Qed.

(** C10 (amended): for [sll], [srl], [sra] with the shift amount [b] in
    [rs2], and for [slli], [srli], [srai] with the immediate [imm]: when the
    destination is register 0 the operation is not applied and the
    instruction only advances the program counter; otherwise a negative
    shift amount is a fatal fault; and for an amount that is not negative
    the operation produces a value. *)
Theorem shift_amounts name namei op opi rd rs1 rs2 imm cpu a b :
  Contains ["sll"; "srl"; "sra"] name = true ->
  lookup_table instrToThreePtOp name = Some op ->
  Contains ["slli"; "srli"; "srai"] namei = true ->
  lookup_table instrToThreePtImmOp namei = Some opi ->
  readReg rs1 cpu = Ok (a, cpu) ->
  readReg rs2 cpu = Ok (b, cpu) ->
  (if rd =? 0
   then Operate (InstrThreePt rd rs1 rs2 op) cpu
        = Ok (tt, set_PC (uint32 (PC cpu + 4)) cpu)
   else if b <? 0
   then Operate (InstrThreePt rd rs1 rs2 op) cpu = Panic NegativeShift
   else exists v, op a b = Ok v)
  /\
  (if rd =? 0
   then Operate (InstrThreePtImm rd rs1 imm opi) cpu
        = Ok (tt, set_PC (uint32 (PC cpu + 4)) cpu)
   else if imm <? 0
   then Operate (InstrThreePtImm rd rs1 imm opi) cpu = Panic NegativeShift
   else exists v, opi a imm = Ok v).
Proof.
  intros Hn Hop Hni Hopi Ha Hb.
  pose proof (shift_closure op a b (shift_reg_op _ _ Hn Hop)) as Hs.
  pose proof (shift_closure opi a imm (shift_imm_op _ _ Hni Hopi)) as Hsi.
  split.
  - destruct (rd =? 0) eqn:Hrd.
    + cbn. unfold bind, when_rd. rewrite Hrd. reflexivity.
    + destruct (b <? 0); [|exact Hs].
      cbn. unfold bind, when_rd, assign, bind. rewrite Hrd. cbn.
      rewrite Ha, Hb. unfold lift. rewrite Hs. reflexivity.
  - destruct (rd =? 0) eqn:Hrd.
    + cbn. unfold bind, when_rd. rewrite Hrd. reflexivity.
    + destruct (imm <? 0); [|exact Hsi].
      cbn. unfold bind, when_rd, assign, bind. rewrite Hrd. cbn.
      rewrite Ha. unfold lift. rewrite Hsi. reflexivity.
Qed.

(** A processor whose register [x1] holds [-1]. *)
Definition cpu_minus_one : CPU :=
  set_Registers (<[1%nat := -1]> (Registers (NewCPU 16))) (NewCPU 16).

Lemma shift_amounts_witness :
  exists op opi,
    lookup_table instrToThreePtOp "sll" = Some op
    /\ lookup_table instrToThreePtImmOp "slli" = Some opi
    /\ Operate (InstrThreePt 3 2 1 op) cpu_minus_one = Panic NegativeShift
    /\ Operate (InstrThreePtImm 3 2 (-1) opi) cpu_minus_one = Panic NegativeShift.
Proof.
  eexists. eexists. split; [reflexivity|]. split; [reflexivity|].
  exact (shift_amounts "sll" "slli" _ _ 3 2 1 (-1) cpu_minus_one 16 (-1)
           eq_refl eq_refl eq_refl eq_refl eq_refl eq_refl).
Defined.

(** The fault is reached from program text. *)
Example negative_shift_reachable :
  run_fresh 10 16 ["addi x2, x0, -1"; "sll x3, x1, x2"]
  = Some (Panic NegativeShift)
  /\ run_fresh 10 16 ["srai x3, x1, -1"] = Some (Panic NegativeShift).
Proof. vm_compute. split; reflexivity. Qed.

(** ** Matching a known text *)

Fixpoint all_chars (c : ascii -> bool) (s : string) : bool :=
  match s with
  | String a s' => c a && all_chars c s'
  | EmptyString => true
  end.

(** The next character, if there is one, is outside the class. *)
Definition stops (c : ascii -> bool) (s : string) : bool :=
  match s with
  | String a _ => negb (c a)
  | EmptyString => true
  end.

Fixpoint pushs (w : string) (st : mstate) : mstate :=
  match w with
  | String a w' => pushs w' (push a st)
  | EmptyString => st
  end.

Lemma append_cons a (s t : string) : String a s +:+ t = String a (s +:+ t).
Proof. reflexivity. Qed.

Lemma append_nil_l (s : string) : "" +:+ s = s.
Proof. reflexivity. Qed.

Lemma append_assoc (s1 s2 s3 : string) :
  (s1 +:+ s2) +:+ s3 = s1 +:+ (s2 +:+ s3).
Proof.
  induction s1 as [|a s1 IH]; [reflexivity|].
  rewrite !append_cons, IH. reflexivity.
Qed.

Lemma append_nil_r (s : string) : s +:+ "" = s.
Proof.
  induction s as [|a s IH]; [reflexivity|].
  rewrite append_cons, IH. reflexivity.
Qed.

Lemma rev_app_append (x acc : string) :
  String.rev_app x acc = String.rev x +:+ acc.
Proof.
  unfold String.rev. revert acc.
  induction x as [|a x IH]; intros acc; simpl; [reflexivity|].
  rewrite (IH (String a acc)), (IH (String a "")), append_assoc.
  reflexivity.
Qed.

Lemma whole_pushs_app w st acc :
  String.rev_app (whole (pushs w st)) acc
  = String.rev_app (whole st) (w +:+ acc).
Proof.
  revert st. induction w as [|a w IH]; intros st; simpl; [reflexivity|].
  rewrite IH. reflexivity.
Qed.

Lemma current_pushs_app w st acc :
  String.rev_app (current (pushs w st)) acc
  = String.rev_app (current st) (w +:+ acc).
Proof.
  revert st. induction w as [|a w IH]; intros st; simpl; [reflexivity|].
  rewrite IH. reflexivity.
Qed.

Lemma whole_pushs w st :
  String.rev (whole (pushs w st)) = String.rev (whole st) +:+ w.
Proof.
  unfold String.rev at 1.
  rewrite whole_pushs_app, append_nil_r. apply rev_app_append.
Qed.

Lemma current_pushs w st :
  String.rev (current (pushs w st)) = String.rev (current st) +:+ w.
Proof.
  unfold String.rev at 1.
  rewrite current_pushs_app, append_nil_r. apply rev_app_append.
Qed.

Lemma closed_pushs w st : closed (pushs w st) = closed st.
Proof. revert st. induction w as [|a w IH]; intros st; cbn; [reflexivity|]. rewrite IH. reflexivity. Qed.

(** A run of the class is taken whole when the rest of the pattern matches
    what follows it. *)
Lemma greedy_all c k w rest st r :
  all_chars c w = true ->
  greedy c k rest (pushs w st) = Some r ->
  greedy c k (w +:+ rest) st = Some r.
Proof.
  revert st. induction w as [|a w IH]; intros st Hall Hk; simpl in *.
  - exact Hk.
  - apply andb_true_iff in Hall as [Ha Hw].
    rewrite Ha. rewrite (IH _ Hw Hk). reflexivity.
Qed.

(** At a character outside the class the repetition ends. *)
Lemma greedy_stops c k s st : stops c s = true -> greedy c k s st = k s st.
Proof.
  destruct s as [|a s]; cbn; [reflexivity|].
  intros H. apply negb_true_iff in H. rewrite H. reflexivity.
Qed.

Lemma greedy_run c k w rest st r :
  all_chars c w = true -> stops c rest = true ->
  k rest (pushs w st) = Some r ->
  greedy c k (w +:+ rest) st = Some r.
Proof.
  intros Hall Hstop Hk. apply greedy_all; [exact Hall|].
  rewrite greedy_stops by exact Hstop. exact Hk.
Qed.

(** ** Labels *)

(** The label that a line defines for [LoadInstructions]. *)
Definition label_of (instr : string) : option string :=
  match FindStringSubmatch labelRe instr with
  | [_; label] => Some label
  | _ => None
  end.

(** The label table after the loop of [LoadInstructions] over the lines
    from position [i] on. *)
Fixpoint scan_labels (i : Z) (instrs : list string) (m : gmap string Z)
    : gmap string Z :=
  match instrs with
  | [] => m
  | instr :: instrs' =>
      scan_labels (i + 1) instrs'
        match label_of instr with
        | Some label => <[label := uint32 (i * 4 + 16 + 4)]> m
        | None => m
        end
  end.

Lemma loadLine_Labels i instr cpu :
  Labels (loadLine i instr cpu)
  = match label_of instr with
    | Some label => <[label := uint32 (i * 4 + 16 + 4)]> (Labels cpu)
    | None => Labels cpu
    end.
Proof.
  unfold loadLine, label_of.
  destruct (FindStringSubmatch labelRe instr) as [|w [|l [|x t]]];
    try reflexivity;
    destruct (FindStringSubmatch globalRe instr) as [|w' [|l' [|x' t']]];
    reflexivity.
Qed.

(** The loop touches the label table and the entry point only. *)
Lemma loadLine_frame i instr cpu :
  let cpu' := loadLine i instr cpu in
  PC cpu' = PC cpu /\ Registers cpu' = Registers cpu
  /\ Memory cpu' = Memory cpu /\ MemorySize cpu' = MemorySize cpu
  /\ MemoryHistory cpu' = MemoryHistory cpu.
Proof.
  unfold loadLine.
  destruct (FindStringSubmatch labelRe instr) as [|w [|l [|x t]]];
    try (cbn; tauto);
    destruct (FindStringSubmatch globalRe instr) as [|w' [|l' [|x' t']]];
    cbn; tauto.
Qed.

Lemma loadLines_frame instrs i cpu :
  let cpu' := loadLines i instrs cpu in
  PC cpu' = PC cpu /\ Registers cpu' = Registers cpu
  /\ Memory cpu' = Memory cpu /\ MemorySize cpu' = MemorySize cpu
  /\ MemoryHistory cpu' = MemoryHistory cpu.
Proof.
  revert i cpu. induction instrs as [|instr instrs IH]; intros i cpu; cbn.
  - tauto.
  - destruct (IH (i + 1) (loadLine i instr cpu)) as (H1 & H2 & H3 & H4 & H5).
    destruct (loadLine_frame i instr cpu) as (G1 & G2 & G3 & G4 & G5).
    cbn in *. repeat split; congruence.
Qed.

Lemma loadLines_Labels instrs i cpu :
  Labels (loadLines i instrs cpu) = scan_labels i instrs (Labels cpu).
Proof.
  revert i cpu. induction instrs as [|instr instrs IH]; intros i cpu; cbn.
  - reflexivity.
  - rewrite IH, loadLine_Labels. reflexivity.
Qed.

(** Entries that were in the table before the scan stay, unless the scan
    defines the same name. *)
Lemma scan_labels_union instrs i (m1 m2 : gmap string Z) :
  scan_labels i instrs (m1 ∪ m2) = scan_labels i instrs m1 ∪ m2.
Proof.
  revert i m1. induction instrs as [|instr instrs IH]; intros i m1; cbn.
  - reflexivity.
  - destruct (label_of instr) as [l|]; [|apply IH].
    rewrite insert_union_l. apply IH.
Qed.

(** The labels that a program text defines: what the scan puts into an
    empty table. *)
Definition defined_labels (instrs : list string) : gmap string Z :=
  scan_labels 0 instrs ∅.

Lemma LoadInstructions_Labels instrs cpu :
  Labels (LoadInstructions instrs cpu) = scan_labels 0 instrs (Labels cpu).
Proof.
  unfold LoadInstructions.
  pose proof (loadLines_Labels instrs 0 (set_entryPoint "" cpu)) as HL.
  cbn in HL. cbn zeta.
  destruct (instr_num _ >? _); cbn; exact HL.
Qed.

(** C3 (counterexample): after the program [["old:"]], loading the program
    [["main:"]] leaves the label [old] in the table, although the new
    program text does not define it. *)
Lemma reload_keeps_old_labels :
  Labels (LoadInstructions ["main:"] (LoadInstructions ["old:"] (NewCPU 16)))
    !! "old" = Some 20
  /\ Labels (LoadInstructions ["main:"] (NewCPU 16)) !! "old" = None.
Proof. split; vm_compute; reflexivity. Qed.

(** C3 (amended): loading a program adds the labels that the new text
    defines to the label table, where they replace entries of the same
    name; every other entry of the table stays.  [Done] is computed anew
    from the program counter and the length of the new program; registers,
    memory and program counter are unchanged. *)
Theorem LoadInstructions_spec instrs cpu :
  let cpu' := LoadInstructions instrs cpu in
  Labels cpu' = defined_labels instrs ∪ Labels cpu
  /\ Done cpu' = (instr_num cpu >? len instrs - 1)
  /\ instructions cpu' = instrs
  /\ Registers cpu' = Registers cpu
  /\ Memory cpu' = Memory cpu
  /\ PC cpu' = PC cpu.
Proof.
  unfold LoadInstructions.
  destruct (loadLines_frame instrs 0 (set_entryPoint "" cpu))
    as (H1 & H2 & H3 & H4 & H5).
  pose proof (loadLines_Labels instrs 0 (set_entryPoint "" cpu)) as HL.
  cbn in H1, H2, H3, HL.
  assert (scan_labels 0 instrs (Labels cpu)
          = defined_labels instrs ∪ Labels cpu) as HU.
  { unfold defined_labels. rewrite <- scan_labels_union.
    rewrite (left_id_L ∅ (∪)). reflexivity. }
  set (cpu1 := loadLines 0 instrs (set_entryPoint "" cpu)) in *.
  assert (instr_num (set_instructions instrs cpu1) = instr_num cpu) as HN.
  { unfold instr_num. cbn. rewrite H1. reflexivity. }
  cbn zeta. rewrite HN.
  change (instructions (set_instructions instrs cpu1)) with instrs.
  destruct (instr_num cpu >? len instrs - 1); cbn;
    repeat split; congruence.
Qed.

(** *** The address of a label *)

(** An identifier: word characters, the first of which is not a digit. *)
Definition is_identifier (s : string) : bool :=
  match s with
  | String a s' => word a && negb (is_digit a) && all_chars word s'
  | EmptyString => false
  end.

Lemma word_any a : word a = true -> any a = true.
Proof.
  destruct a as [[] [] [] [] [] [] [] []]; vm_compute; intros H;
    first [reflexivity | discriminate H].
Qed.

Lemma all_chars_impl (c d : ascii -> bool) s :
  (forall a, c a = true -> d a = true) ->
  all_chars c s = true -> all_chars d s = true.
Proof.
  intros Hcd. induction s as [|a s IH]; simpl; [reflexivity|].
  intros H. apply andb_true_iff in H as [Ha Hs].
  rewrite (Hcd _ Ha), (IH Hs). reflexivity.
Qed.

Lemma FindStringSubmatch_here p s st :
  match_here p s start = Some st -> FindStringSubmatch p s = submatches st.
Proof. intros H. destruct s; simpl; rewrite H; reflexivity. Qed.

(** A text without line feed, followed by a colon, defines the label of
    that text. *)
Lemma label_of_colon a w :
  all_chars any (String a w) = true ->
  label_of (String a w +:+ ":") = Some (String a w).
Proof.
  intros Hall. simpl in Hall. apply andb_true_iff in Hall as [Ha Hw].
  unfold label_of.
  rewrite (FindStringSubmatch_here _ _
             (push ":" (close_group (pushs w (push a (open_group start)))))).
  - unfold submatches. cbn [whole closed push close_group].
    rewrite closed_pushs, current_pushs. reflexivity.
  - rewrite append_cons. cbn [labelRe group lit app match_here].
    rewrite Ha. apply greedy_all; [exact Hw|].
    reflexivity.
Qed.

Lemma label_of_identifier name :
  is_identifier name = true -> label_of (name +:+ ":") = Some name.
Proof.
  destruct name as [|a w]; [discriminate|]. simpl. intros H.
  apply andb_true_iff in H as [H Hw]. apply andb_true_iff in H as [Ha _].
  apply label_of_colon. simpl.
  rewrite (word_any _ Ha). apply (all_chars_impl word any); auto using word_any.
Qed.

Lemma scan_labels_other instrs i (m : gmap string Z) name :
  (forall j line, instrs !! j = Some line -> label_of line <> Some name) ->
  scan_labels i instrs m !! name = m !! name.
Proof.
  revert i m. induction instrs as [|instr instrs IH]; intros i m H; simpl.
  - reflexivity.
  - rewrite IH by (intros j line Hj; apply (H (S j)); exact Hj).
    pose proof (H 0%nat instr eq_refl) as H0.
    destruct (label_of instr) as [l|]; [|reflexivity].
    apply lookup_insert_ne. congruence.
Qed.

(** The last line that defines a name gives its address. *)
Lemma scan_labels_lookup instrs k (m : gmap string Z) i line name :
  instrs !! i = Some line ->
  label_of line = Some name ->
  (forall j line', (i < j)%nat -> instrs !! j = Some line' ->
                   label_of line' <> Some name) ->
  scan_labels k instrs m !! name
  = Some (uint32 ((k + Z.of_nat i) * 4 + 16 + 4)).
Proof.
  revert k m i. induction instrs as [|instr instrs IH]; intros k m i Hi Hl Hlast.
  - discriminate Hi.
  - destruct i as [|i]; simpl.
    + injection Hi as ->. rewrite Hl.
      rewrite scan_labels_other.
      * rewrite lookup_insert_eq. do 2 f_equal. lia.
      * intros j line' Hj. apply (Hlast (S j)); [lia|exact Hj].
    + rewrite (IH (k + 1) _ i Hi Hl).
      * do 2 f_equal. lia.
      * intros j line' Hj Hline. apply (Hlast (S j)); [lia|exact Hline].
Qed.

(** C5 (counterexample): in the program [["main:"; "main:"]] the line at
    index 0 is the identifier [main] followed by a colon, and the label
    [main] resolves to 24, not to [0 * 4 + 16 + 4]. *)
Lemma duplicate_label_last_wins :
  ["main:"; "main:"] !! 0%nat = Some "main:"
  /\ Labels (LoadInstructions ["main:"; "main:"] (NewCPU 16)) !! "main"
     = Some 24
  /\ 24 <> 0 * 4 + 16 + 4.
Proof. split; [reflexivity|]. split; [vm_compute; reflexivity|lia]. Qed.

(** C5 (amended): a line at index [i] that is an identifier followed by a
    colon defines a label whose resolved address is [i * 4 + 16 + 4] in
    32-bit unsigned arithmetic, the address of the line after it, provided
    that no later line of the program defines the same name (the last
    definition of a name is the one that counts). *)
Theorem label_address instrs cpu i name :
  is_identifier name = true ->
  instrs !! i = Some (name +:+ ":") ->
  (forall j line, (i < j)%nat -> instrs !! j = Some line ->
                  label_of line <> Some name) ->
  Labels (LoadInstructions instrs cpu) !! name
  = Some (uint32 (Z.of_nat i * 4 + 16 + 4)).
Proof.
  intros Hid Hi Hlast. rewrite LoadInstructions_Labels.
  rewrite (scan_labels_lookup instrs 0 _ i _ name Hi
             (label_of_identifier _ Hid) Hlast).
  reflexivity.
Qed.

(** The resolved address is the address of the slot after the label line:
    a processor whose program counter is that address fetches the line at
    index [i + 1]. *)
Lemma label_points_to_next_line (i : nat) cpu :
  Z.of_nat i * 4 + 16 + 4 < 2 ^ 32 ->
  instr_num (set_PC (uint32 (Z.of_nat i * 4 + 16 + 4)) cpu) = Z.of_nat i + 1.
Proof.
  intros H. unfold instr_num, uint32. cbn [PC set_PC].
  rewrite (Z.mod_small (Z.of_nat i * 4 + 16 + 4)) by lia.
  rewrite Z.mod_small by lia.
  replace (Z.of_nat i * 4 + 16 + 4 - 16) with ((Z.of_nat i + 1) * 4) by lia.
  rewrite Z.div_mul by lia. apply int_id. lia.
Qed.

(** The program of the test [TestLabel]: [main] resolves to 20. *)
Lemma label_address_witness :
  Labels (LoadInstructions ["main:"; "li x1, 100"] (NewCPU 16)) !! "main"
  = Some 20.
Proof.
  apply (label_address ["main:"; "li x1, 100"] (NewCPU 16) 0 "main").
  - reflexivity.
  - reflexivity.
  - intros j line Hj Hl. destruct j as [|[|j]]; [lia| |discriminate Hl].
    injection Hl as <-. vm_compute. discriminate.
Defined.

(** ** What an instruction leaves unchanged *)

(** The fields that no closure of the operation tables writes. *)
Definition keeps (cpu cpu' : CPU) : Prop :=
  Registers cpu' = Registers cpu /\ Done cpu' = Done cpu
  /\ instructions cpu' = instructions cpu /\ Labels cpu' = Labels cpu.

(** The fields that no instruction writes, and register 0. *)
Definition keeps0 (cpu cpu' : CPU) : Prop :=
  Registers cpu' !! 0%nat = Registers cpu !! 0%nat /\ Done cpu' = Done cpu
  /\ instructions cpu' = instructions cpu /\ Labels cpu' = Labels cpu.

Lemma keeps_keeps0 cpu cpu' : keeps cpu cpu' -> keeps0 cpu cpu'.
Proof. unfold keeps, keeps0. intros (H1 & H2 & H3 & H4). rewrite H1. auto. Qed.

Section Preservation.

Variable R : CPU -> CPU -> Prop.
Hypothesis R_refl : forall cpu, R cpu cpu.
Hypothesis R_trans : forall c1 c2 c3, R c1 c2 -> R c2 c3 -> R c1 c3.

(** Every successful run of [m] relates the states before and after. *)
Definition preserves {A : Type} (m : M A) : Prop :=
  forall cpu a cpu', m cpu = Ok (a, cpu') -> R cpu cpu'.

Lemma preserves_ret {A : Type} (a : A) : preserves (ret a).
Proof. intros cpu a' cpu' [= _ <-]. apply R_refl. Qed.

Lemma preserves_get : preserves get.
Proof. intros cpu a' cpu' [= _ <-]. apply R_refl. Qed.

Lemma preserves_lift {A : Type} (r : result A) : preserves (lift r).
Proof.
  intros cpu a' cpu'. unfold lift. destruct r; [|discriminate].
  intros [= _ <-]. apply R_refl.
Qed.

Lemma preserves_bind {A B : Type} (m : M A) (k : A -> M B) :
  preserves m -> (forall a, preserves (k a)) -> preserves (bind m k).
Proof.
  intros Hm Hk cpu b cpu' H.
  apply bind_ok in H as (a & cpu1 & H1 & H2).
  eapply R_trans; [eapply Hm|eapply Hk]; eassumption.
Qed.

Lemma preserves_modify (f : CPU -> CPU) :
  (forall cpu, R cpu (f cpu)) -> preserves (modify f).
Proof. intros Hf cpu a cpu' [= _ <-]. apply Hf. Qed.

Lemma preserves_if {A : Type} (b : bool) (m1 m2 : M A) :
  preserves m1 -> preserves m2 -> preserves (if b then m1 else m2).
Proof. destruct b; auto. Qed.

End Preservation.

Lemma keeps_refl cpu : keeps cpu cpu.
Proof. unfold keeps. auto. Qed.

Lemma keeps_trans c1 c2 c3 : keeps c1 c2 -> keeps c2 c3 -> keeps c1 c3.
Proof. unfold keeps. intros (?&?&?&?) (?&?&?&?). repeat split; congruence. Qed.

Lemma keeps0_refl cpu : keeps0 cpu cpu.
Proof. unfold keeps0. auto. Qed.

Lemma keeps0_trans c1 c2 c3 : keeps0 c1 c2 -> keeps0 c2 c3 -> keeps0 c1 c3.
Proof. unfold keeps0. intros (?&?&?&?) (?&?&?&?). repeat split; congruence. Qed.

Create HintDb frame.

#[local] Hint Resolve keeps_refl keeps0_refl : frame.

Lemma keeps_record_history entry : preserves keeps (record_history entry).
Proof. apply preserves_modify. intros cpu. unfold keeps. cbn. auto. Qed.

Lemma keeps_write_slice address b : preserves keeps (write_slice address b).
Proof. apply preserves_modify. intros cpu. unfold keeps. cbn. auto. Qed.

Lemma keeps_addPC d : preserves keeps (addPC d).
Proof. apply preserves_modify. intros cpu. unfold keeps. cbn. auto. Qed.

Lemma keeps_readReg i : preserves keeps (readReg i).
Proof.
  intros cpu a cpu'. unfold readReg.
  destruct (i <? 0); [discriminate|].
  destruct (Registers cpu !! Z.to_nat i); [|discriminate].
  intros [= _ <-]. apply keeps_refl.
Qed.

#[local] Hint Resolve keeps_record_history keeps_write_slice keeps_addPC
  keeps_readReg : frame.

Ltac frame_step rfl trs :=
  first
    [ solve [auto with frame]
    | apply preserves_ret; apply rfl
    | apply preserves_get; apply rfl
    | apply preserves_lift; apply rfl
    | apply preserves_bind; [apply trs| |intros ?]
    | apply preserves_if ].

Ltac frame := repeat frame_step keeps_refl keeps_trans.

Lemma keeps_loadWord address : preserves keeps (loadWord address).
Proof.
  unfold loadWord. apply preserves_bind; [apply keeps_trans|frame|]. intros cpu.
  destruct (checkMemoryAccess cpu address); frame.
Qed.

Lemma keeps_loadHalf address : preserves keeps (loadHalf address).
Proof.
  unfold loadHalf. apply preserves_bind; [apply keeps_trans|frame|]. intros cpu.
  destruct (checkMemoryAccess cpu address); frame.
Qed.

Lemma keeps_loadByte address : preserves keeps (loadByte address).
Proof.
  unfold loadByte. apply preserves_bind; [apply keeps_trans|frame|]. intros cpu.
  destruct (checkMemoryAccess cpu address); [frame|].
  destruct (Memory cpu !! Z.to_nat address); frame.
Qed.

Lemma keeps_storeWord address value : preserves keeps (storeWord address value).
Proof.
  unfold storeWord. apply preserves_bind; [apply keeps_trans|frame|]. intros cpu.
  destruct (checkMemoryAccess cpu address); frame.
Qed.

Lemma keeps_storeHalf address value : preserves keeps (storeHalf address value).
Proof.
  unfold storeHalf. apply preserves_bind; [apply keeps_trans|frame|]. intros cpu.
  destruct (checkMemoryAccess cpu address); frame.
Qed.

Lemma keeps_storeByte address value : preserves keeps (storeByte address value).
Proof.
  unfold storeByte. apply preserves_bind; [apply keeps_trans|frame|]. intros cpu.
  destruct (checkMemoryAccess cpu address); [frame|].
  apply preserves_bind; [apply keeps_trans|frame|]. intros _.
  apply preserves_if; [|frame].
  apply preserves_modify. intros c. unfold keeps. cbn. auto.
Qed.

Lemma keeps_immOrLabel destination : preserves keeps (immOrLabel destination).
Proof.
  unfold immOrLabel. apply preserves_bind; [apply keeps_trans|frame|]. intros cpu.
  destruct (Atoi destination); [frame|].
  destruct (Labels cpu !! destination); frame.
Qed.

#[local] Hint Resolve keeps_immOrLabel : frame.

Lemma keeps_trueOrNext valid destination :
  preserves keeps (trueOrNext valid destination).
Proof.
  unfold trueOrNext. frame.
Qed.

#[local] Hint Resolve keeps_loadWord keeps_loadHalf keeps_loadByte
  keeps_storeWord keeps_storeHalf keeps_storeByte keeps_trueOrNext : frame.

(** The instructions whose operation is a closure of the tables of the
    package; the register fields are arbitrary. *)
Definition from_tables (instr : Instr) : Prop :=
  match instr with
  | LoadImmInstr _ _ op => exists name, lookup_table instrToLoadImmOp name = Some op
  | LoadInstr _ _ _ op => exists name, lookup_table instrToLoadOp name = Some op
  | StoreInstr _ _ _ op => exists name, lookup_table instrToStoreOp name = Some op
  | BranchThreeInstr _ _ _ op =>
      exists name, lookup_table instrToBranchThreeOp name = Some op
  | BranchTwoInstr _ _ op =>
      exists name, lookup_table instrToBranchTwoOp name = Some op
  | _ => True
  end.

(** Case analysis on a successful look-up in a table. *)
Ltac table_entries H :=
  lazymatch type of H with
  | (if ?b then _ else _) = Some _ =>
      destruct b; [injection H as <-|table_entries H]
  | _ => discriminate H
  end.

Ltac table_cases H :=
  unfold instrToLoadImmOp, instrToLoadOp, instrToStoreOp,
    instrToBranchThreeOp, instrToBranchTwoOp in H;
  cbn [lookup_table] in H; table_entries H.

Lemma keeps_LoadImmOp name op imm :
  lookup_table instrToLoadImmOp name = Some op -> preserves keeps (op imm).
Proof. intros H. table_cases H; frame. Qed.

Lemma keeps_LoadOp name op rs1_val imm :
  lookup_table instrToLoadOp name = Some op -> preserves keeps (op rs1_val imm).
Proof. intros H. table_cases H; frame. Qed.

Lemma keeps_StoreOp name op rs1_val rs2_val imm :
  lookup_table instrToStoreOp name = Some op ->
  preserves keeps (op rs1_val rs2_val imm).
Proof. intros H. table_cases H; frame. Qed.

Lemma keeps_BranchThreeOp name op rs1 rs2 destination :
  lookup_table instrToBranchThreeOp name = Some op ->
  preserves keeps (op rs1 rs2 destination).
Proof. intros H. table_cases H; frame. Qed.

Lemma keeps_BranchTwoOp name op rs1 destination :
  lookup_table instrToBranchTwoOp name = Some op ->
  preserves keeps (op rs1 destination).
Proof. intros H. table_cases H; frame. Qed.

Lemma keeps0_of_keeps {A : Type} (m : M A) :
  preserves keeps m -> preserves keeps0 m.
Proof. intros H cpu a cpu' Hm. apply keeps_keeps0. eapply H. exact Hm. Qed.

Lemma keeps_set_PC v : preserves keeps (modify (set_PC v)).
Proof. apply preserves_modify. intros cpu. unfold keeps. cbn. auto. Qed.

(** A write to a register other than register 0. *)
Lemma keeps0_writeReg rd v : rd <> 0 -> preserves keeps0 (writeReg rd v).
Proof.
  intros Hrd cpu a cpu'. unfold writeReg.
  destruct (Z.ltb_spec rd 0); [discriminate|].
  destruct (len (Registers cpu) <=? rd); [discriminate|]. cbn.
  intros [= _ <-]. unfold keeps0. cbn. repeat split.
  apply list_lookup_insert_ne. lia.
Qed.

Lemma keeps0_assign rd value :
  rd <> 0 -> preserves keeps value -> preserves keeps0 (assign rd value).
Proof.
  intros Hrd Hv. unfold assign.
  apply preserves_bind; [apply keeps0_trans|apply keeps0_of_keeps, Hv|].
  intros v. apply keeps0_writeReg, Hrd.
Qed.

Lemma keeps0_when_rd rd body :
  (rd <> 0 -> preserves keeps0 body) -> preserves keeps0 (when_rd rd body).
Proof.
  intros H. unfold when_rd. destruct (Z.eqb_spec rd 0); cbn.
  - apply preserves_ret, keeps0_refl.
  - apply H. assumption.
Qed.

#[local] Hint Resolve keeps_set_PC : frame.

Ltac frame0 :=
  repeat first
    [ solve [apply keeps0_of_keeps; frame]
    | apply keeps0_assign; [assumption|solve [frame]]
    | apply keeps0_when_rd; intros ?
    | frame_step keeps0_refl keeps0_trans ].

(** No instruction writes register 0, [Done], the program or the labels. *)
Lemma Operate_keeps0 instr : from_tables instr -> preserves keeps0 (Operate instr).
Proof.
  destruct instr; cbn [from_tables Operate]; intros H;
    try (lazymatch type of H with ex _ => destruct H as [name H] end);
    try (pose proof (fun imm => keeps_LoadImmOp _ _ imm H));
    try (pose proof (fun a imm => keeps_LoadOp _ _ a imm H));
    try (pose proof (fun a b imm => keeps_StoreOp _ _ a b imm H));
    try (pose proof (fun a b d => keeps_BranchThreeOp _ _ a b d H));
    try (pose proof (fun a d => keeps_BranchTwoOp _ _ a d H));
    frame0.
Qed.

(** Case analysis on a successful parse. *)
Ltac parse_cases H :=
  repeat
    match type of H with
    | rbind ?r _ = Ok _ =>
        let t := fresh "t" in
        destruct r as [t|] eqn:?; [cbn [rbind] in H|discriminate H]
    | match ?x with _ => _ end = Ok _ => destruct x eqn:?
    end;
  try discriminate H;
  try (injection H as <-).

Lemma matched_from_tables re instr_str parse instr :
  (forall tokens i, parse tokens = Ok i -> from_tables i) ->
  matched re instr_str parse = Ok instr -> from_tables instr.
Proof.
  intros Hp. unfold matched.
  destruct (length _ =? 0)%nat; [intros [= <-]; exact I|apply Hp].
Qed.

Lemma decodeMv_from_tables token instr_str instr :
  decodeMv token instr_str = Ok instr -> from_tables instr.
Proof. unfold decodeMv. intros H. parse_cases H; exact I. Qed.

(** Every instruction that the decoder gives takes its operation from the
    tables. *)
Lemma DecodeInstr_from_tables line instr :
  DecodeInstr line = Ok instr -> from_tables instr.
Proof.
  unfold DecodeInstr.
  repeat match goal with
         | |- (if ?b then _ else _) = Ok _ -> _ => destruct b
         end;
    try (apply matched_from_tables; intros tokens i H);
    try (apply decodeMv_from_tables).
  all: try (unfold parseThreePt, parseThreePtImm, parseLoadImm, parseLoad,
            parseStore, parseBranchThree, parseBranchTwo, parseSet,
            parseSetImm, parseJal in H;
            parse_cases H; cbn [from_tables]; eauto; fail).
  parse_cases H. eapply decodeMv_from_tables. exact H.
Qed.

(** ** Register writes *)

(** The register that an instruction assigns, with the computation of the
    value that it assigns. *)
Definition writes (instr : Instr) : option (Z * M Z) :=
  match instr with
  | InstrThreePt rd rs1 rs2 op =>
      Some (rd, do a <- readReg rs1 ;;; do b <- readReg rs2 ;;; lift (op a b))
  | InstrThreePtImm rd rs1 imm op =>
      Some (rd, do a <- readReg rs1 ;;; lift (op a imm))
  | LoadImmInstr rd imm op => Some (rd, op imm)
  | LoadInstr rd rs1 imm op => Some (rd, do a <- readReg rs1 ;;; op a imm)
  | JumpAndLinkInstr _ rd =>
      Some (rd, do cpu <- get ;;; ret (int32 (int32 (PC cpu) + 4)))
  | JumpAndLinkRInstr _ rd _ =>
      Some (rd, do cpu <- get ;;; ret (int32 (int32 (PC cpu) + 4)))
  | SetInstr rd rs1 rs2 op =>
      Some (rd, do a <- readReg rs1 ;;; do b <- readReg rs2 ;;;
                ret (if op a b then 1 else 0))
  | SetImmInstr rd rs1 imm op =>
      Some (rd, do a <- readReg rs1 ;;; ret (if op a imm then 1 else 0))
  | _ => None
  end.

Lemma writeReg_ok rd v cpu cpu' :
  writeReg rd v cpu = Ok (tt, cpu') ->
  Registers cpu' !! Z.to_nat rd = Some v.
Proof.
  unfold writeReg.
  destruct (Z.ltb_spec rd 0); [discriminate|].
  destruct (Z.leb_spec (len (Registers cpu)) rd); [discriminate|]. cbn.
  intros [= <-]. cbn. apply list_lookup_insert_eq. unfold len in *. lia.
Qed.

Lemma writeReg_keeps_after rd v cpu cpu' :
  writeReg rd v cpu = Ok (tt, cpu') ->
  Done cpu' = Done cpu /\ instructions cpu' = instructions cpu
  /\ Labels cpu' = Labels cpu.
Proof.
  unfold writeReg.
  destruct (rd <? 0); [discriminate|].
  destruct (len (Registers cpu) <=? rd); [discriminate|]. cbn.
  intros [= <-]. cbn. auto.
Qed.

(** The guarded assignment [if rd != 0 { cpu.Registers[rd] = value }],
    followed by code that writes no register. *)
Lemma when_rd_assign rd value rest cpu cpu' :
  preserves keeps value -> preserves keeps rest ->
  bind (when_rd rd (assign rd value)) (fun _ => rest) cpu = Ok (tt, cpu') ->
  if rd =? 0 then Registers cpu' = Registers cpu
  else exists v cpu1,
      value cpu = Ok (v, cpu1) /\ Registers cpu' !! Z.to_nat rd = Some v.
Proof.
  intros Hv Hr H. apply bind_ok in H as ([] & cpu2 & H1 & H2).
  apply Hr in H2 as (HR & _).
  unfold when_rd in H1. destruct (rd =? 0); cbn in H1.
  - injection H1 as <-. exact HR.
  - unfold assign in H1. apply bind_ok in H1 as (v & cpu1 & Hval & Hw).
    exists v, cpu1. split; [exact Hval|].
    rewrite HR. eapply writeReg_ok, Hw.
Qed.

(** The two branches of a set instruction assign the value of one
    conditional expression. *)
Lemma set_assign rd (c : M bool) cpu :
  bind c (fun t => if t then assign rd (ret 1) else assign rd (ret 0)) cpu
  = assign rd (do t <- c ;;; ret (if t then 1 else 0)) cpu.
Proof.
  unfold assign, bind, ret. destruct (c cpu) as [[[] cpu1]|f]; reflexivity.
Qed.

Lemma when_rd_ext rd (m1 m2 : M unit) (rest : M unit) cpu :
  m1 cpu = m2 cpu ->
  bind (when_rd rd m1) (fun _ => rest) cpu
  = bind (when_rd rd m2) (fun _ => rest) cpu.
Proof.
  intros H. unfold bind, when_rd. destruct (rd =? 0); cbn; [reflexivity|].
  rewrite H. reflexivity.
Qed.

Lemma SetInstr_assigns rd rs1 rs2 (op : Z -> Z -> bool) cpu :
  Operate (SetInstr rd rs1 rs2 op) cpu
  = bind (when_rd rd
            (assign rd (do a <- readReg rs1 ;;; do b <- readReg rs2 ;;;
                        ret (if op a b then 1 else 0))))
         (fun _ => addPC 4) cpu.
Proof.
  cbn [Operate]. apply when_rd_ext.
  unfold assign, bind, ret.
  destruct (readReg rs1 cpu) as [[a c1]|]; [|reflexivity].
  destruct (readReg rs2 c1) as [[b c2]|]; [|reflexivity].
  destruct (op a b); reflexivity.
Qed.

Lemma SetImmInstr_assigns rd rs1 imm (op : Z -> Z -> bool) cpu :
  Operate (SetImmInstr rd rs1 imm op) cpu
  = bind (when_rd rd
            (assign rd (do a <- readReg rs1 ;;;
                        ret (if op a imm then 1 else 0))))
         (fun _ => addPC 4) cpu.
Proof.
  cbn [Operate]. apply when_rd_ext.
  unfold assign, bind, ret.
  destruct (readReg rs1 cpu) as [[a c1]|]; [|reflexivity].
  destruct (op a imm); reflexivity.
Qed.

(** C6: from a state in which register 0 holds zero, every instruction
    leaves register 0 at zero, also when it names register 0 as its
    destination (all registers are then unchanged); an instruction whose
    destination is another register leaves in it the value that it
    computed; an instruction without destination changes no register. *)
Theorem register_zero_invariant instr cpu cpu' :
  from_tables instr ->
  Registers cpu !! 0%nat = Some 0 ->
  Operate instr cpu = Ok (tt, cpu') ->
  Registers cpu' !! 0%nat = Some 0
  /\ match writes instr with
     | Some (i, value) =>
         if i =? 0 then Registers cpu' = Registers cpu
         else exists v cpu1,
             value cpu = Ok (v, cpu1) /\ Registers cpu' !! Z.to_nat i = Some v
     | None => Registers cpu' = Registers cpu
     end.
Proof.
  intros Ht H0 H. split.
  - apply (Operate_keeps0 instr Ht) in H as (HR & _). congruence.
  - destruct instr; cbn [writes from_tables] in *;
      try (lazymatch type of Ht with ex _ => destruct Ht as [name Ht] end);
      try (pose proof (fun imm => keeps_LoadImmOp _ _ imm Ht));
      try (pose proof (fun a imm => keeps_LoadOp _ _ a imm Ht));
      try (pose proof (fun a b imm => keeps_StoreOp _ _ a b imm Ht));
      try (pose proof (fun a b d => keeps_BranchThreeOp _ _ a b d Ht));
      try (pose proof (fun a d => keeps_BranchTwoOp _ _ a d Ht));
      try rewrite SetInstr_assigns in H;
      try rewrite SetImmInstr_assigns in H;
      try (apply when_rd_assign in H; [exact H|solve [frame]|solve [frame]]).
    all: cbn [Operate] in H.
    all: match goal with
         | H : ?m _ = Ok (tt, _) |- _ =>
             assert (preserves keeps m) as Hk by frame;
             apply Hk in H as (HR & _); exact HR
         end.
Qed.

(** The instruction of [li x5, 7]. *)
Definition li_x5 : Instr := LoadImmInstr 5 7 (fun imm => ret imm).

Example li_x5_decoded : DecodeInstr "li x5, 7" = Ok li_x5.
Proof. reflexivity. Qed.

Lemma register_zero_invariant_witness :
  exists cpu',
    Operate li_x5 (NewCPU 16) = Ok (tt, cpu')
    /\ Registers cpu' !! 0%nat = Some 0
    /\ exists v cpu1,
        ret 7 (NewCPU 16) = Ok (v, cpu1) /\ Registers cpu' !! 5%nat = Some v.
Proof.
  eexists. split; [reflexivity|].
  exact (register_zero_invariant li_x5 (NewCPU 16) _
           (ex_intro _ "li" eq_refl) eq_refl eq_refl).
Defined.

(** A write to register 0 from program text. *)
Example write_to_x0 :
  register_of (run_fresh 10 16 ["li x0, 100"; "addi x0, x0, 5"]) 0 = Some 0.
Proof. vm_compute. reflexivity. Qed.

(** ** Single step *)

(** The bounds test at the head of [RunNextInstruction]. *)
Definition out_of_bounds (cpu : CPU) : bool :=
  (PC cpu <? 16) || (instr_num cpu >? len (instructions cpu) - 1).

Lemma step_out_of_bounds cpu :
  out_of_bounds cpu = true ->
  RunNextInstruction cpu = Ok (tt, set_Done true cpu).
Proof.
  unfold out_of_bounds, RunNextInstruction, bind, get.
  destruct (PC cpu <? 16); [reflexivity|]. cbn.
  intros ->. reflexivity.
Qed.

Lemma step_in_bounds cpu cpu' :
  out_of_bounds cpu = false ->
  RunNextInstruction cpu = Ok (tt, cpu') ->
  exists line instr,
    instructions cpu !! Z.to_nat (instr_num cpu) = Some line
    /\ DecodeInstr line = Ok instr
    /\ Operate instr cpu = Ok (tt, cpu').
Proof.
  unfold out_of_bounds, RunNextInstruction, bind at 1, get.
  intros Hb. apply orb_false_iff in Hb as [-> ->].
  destruct (instructions cpu !! Z.to_nat (instr_num cpu)) as [line|];
    [|discriminate].
  intros H. apply bind_ok in H as (instr & cpu1 & Hd & Hop).
  unfold lift in Hd.
  destruct (DecodeInstr line) as [i|] eqn:Hdec; [|discriminate].
  injection Hd as -> ->. exists line, instr. auto.
Qed.

(** An instruction that is executed leaves [Done], the program and the
    labels as they are. *)
Lemma step_keeps0 cpu cpu' :
  out_of_bounds cpu = false ->
  RunNextInstruction cpu = Ok (tt, cpu') -> keeps0 cpu cpu'.
Proof.
  intros Hb H.
  destruct (step_in_bounds cpu cpu' Hb H) as (line & instr & _ & Hd & Hop).
  eapply Operate_keeps0; [eapply DecodeInstr_from_tables|]; eassumption.
Qed.

(** C4 (counterexample): the program has the one line [li x1, 4]; the step
    taken in the Ready state executes it and returns with the program
    counter at 20, past the last instruction, and with [Done] still false. *)
Lemma step_past_end_not_done :
  let cpu := LoadInstructions ["li x1, 4"] (NewCPU 16) in
  Done cpu = false
  /\ match RunNextInstruction cpu with
     | Ok (_, cpu') =>
         PC cpu' = 20 /\ out_of_bounds cpu' = true /\ Done cpu' = false
     | Panic _ => False
     end.
Proof. vm_compute. repeat split; reflexivity. Qed.

(** C4 (amended): a single step tests the bounds first.  When the program
    counter is below the reserved base or past the last instruction, the
    step sets [Done] and does nothing else.  Otherwise it fetches and
    decodes the line at the slot of the program counter and applies the
    instruction, and it returns with [Done] unchanged, wherever the program
    counter now points. *)
Theorem single_step cpu cpu' :
  RunNextInstruction cpu = Ok (tt, cpu') ->
  if out_of_bounds cpu then cpu' = set_Done true cpu
  else Done cpu' = Done cpu
       /\ exists line instr,
           instructions cpu !! Z.to_nat (instr_num cpu) = Some line
           /\ DecodeInstr line = Ok instr
           /\ Operate instr cpu = Ok (tt, cpu').
Proof.
  intros H. destruct (out_of_bounds cpu) eqn:Hb.
  - rewrite (step_out_of_bounds cpu Hb) in H. injection H as <-. reflexivity.
  - split.
    + apply (step_keeps0 cpu cpu' Hb H).
    + apply (step_in_bounds cpu cpu' Hb H).
Qed.

(** The one-line program before and after its first step. *)
Definition one_line_cpu : CPU := LoadInstructions ["li x1, 4"] (NewCPU 16).
Definition one_line_cpu1 : CPU :=
  match RunNextInstruction one_line_cpu with
  | Ok (_, cpu') => cpu'
  | Panic _ => one_line_cpu
  end.

(** The first step of the one-line program executes the line and leaves
    [Done] as it was. *)
Lemma single_step_witness :
  RunNextInstruction one_line_cpu = Ok (tt, one_line_cpu1)
  /\ Done one_line_cpu1 = Done one_line_cpu.
Proof.
  assert (RunNextInstruction one_line_cpu = Ok (tt, one_line_cpu1)) as H
    by (vm_compute; reflexivity).
  split; [exact H|].
  exact (proj1 (single_step one_line_cpu one_line_cpu1 H)).
Defined.

(** ** Run to completion *)

(** The state after [k] calls of [RunNextInstruction]. *)
Fixpoint steps (k : nat) (cpu : CPU) : result CPU :=
  match k with
  | O => Ok cpu
  | S k' =>
      match RunNextInstruction cpu with
      | Ok (_, cpu') => steps k' cpu'
      | Panic f => Panic f
      end
  end.

Lemma steps_snoc k cpu c c' :
  steps k cpu = Ok c -> RunNextInstruction c = Ok (tt, c') ->
  steps (S k) cpu = Ok c'.
Proof.
  revert cpu. induction k as [|k IH]; intros cpu Hk Hs.
  - injection Hk as ->. simpl. rewrite Hs. reflexivity.
  - simpl in Hk. destruct (RunNextInstruction cpu) as [[[] cpu1]|] eqn:H1;
      [|discriminate].
    change (steps (S (S k)) cpu)
      with (match RunNextInstruction cpu with
            | Ok (_, cpu') => steps (S k) cpu'
            | Panic f => Panic f
            end).
    rewrite H1. apply IH; assumption.
Qed.

(** The slot of a program counter that is within the bounds. *)
Lemma instr_num_in_bounds cpu :
  is_uint32 (PC cpu) -> out_of_bounds cpu = false ->
  16 <= PC cpu /\ instr_num cpu = (PC cpu - 16) / 4
  /\ 0 <= instr_num cpu <= len (instructions cpu) - 1.
Proof.
  unfold is_uint32, out_of_bounds. intros HPC Hb.
  apply orb_false_iff in Hb as [H16 Hn].
  apply Z.ltb_ge in H16.
  assert (instr_num cpu = (PC cpu - 16) / 4) as Hnum.
  { unfold instr_num, uint32. rewrite Z.mod_small by lia.
    apply int_id.
    assert (0 <= (PC cpu - 16) / 4) by (apply Z.div_pos; lia).
    assert ((PC cpu - 16) / 4 < 2 ^ 32)
      by (apply Z.div_lt_upper_bound; lia).
    lia. }
  split; [exact H16|]. split; [exact Hnum|].
  destruct (Z.gtb_spec (instr_num cpu) (len (instructions cpu) - 1)) as [|Hle];
    [discriminate|].
  split; [|exact Hle]. rewrite Hnum. apply Z.div_pos; lia.
Qed.

(** After an instruction that advances the program counter by 4, the slot
    is the next one, if the program counter is still within the bounds. *)
Lemma next_slot c c' :
  is_uint32 (PC c) -> out_of_bounds c = false ->
  PC c' = uint32 (PC c + 4) -> instructions c' = instructions c ->
  out_of_bounds c' = false ->
  instr_num c' = instr_num c + 1.
Proof.
  intros HPC Hb HPC' Hi Hb'.
  destruct (instr_num_in_bounds c HPC Hb) as (H16 & Hn & _).
  assert (is_uint32 (PC c')) as HPCr by (rewrite HPC'; apply uint32_range).
  destruct (instr_num_in_bounds c' HPCr Hb') as (H16' & Hn' & _).
  assert (PC c' = PC c + 4) as Heq.
  { unfold is_uint32 in HPC. unfold uint32 in HPC'.
    destruct (Z.lt_ge_cases (PC c + 4) (2 ^ 32)) as [Hlt|Hge].
    - rewrite Z.mod_small in HPC' by lia. exact HPC'.
    - exfalso.
      replace (PC c + 4) with (PC c + 4 - 2 ^ 32 + 1 * 2 ^ 32) in HPC' by lia.
      rewrite Z.mod_add in HPC' by lia.
      rewrite Z.mod_small in HPC' by lia. lia. }
  rewrite Hn', Hn, Heq.
  replace (PC c + 4 - 16) with (PC c - 16 + 1 * 4) by lia.
  apply Z.div_add. lia.
Qed.

Section StraightLine.

Variable cpu0 : CPU.

(** Every instruction that the run executes returns and advances the
    program counter by 4. *)
Hypothesis advances :
  forall k c,
    (k < length (instructions cpu0))%nat ->
    steps k cpu0 = Ok c -> Done c = false -> out_of_bounds c = false ->
    exists c', RunNextInstruction c = Ok (tt, c') /\ PC c' = uint32 (PC c + 4).

(** From a state of the run with at most [n] lines left, the loop of
    [RunProgram] ends: it ends in the first state of the run in which
    [Done] is set. *)
Lemma loop_ends n :
  forall k c,
    steps k cpu0 = Ok c -> Done c = false -> is_uint32 (PC c) ->
    instructions c = instructions cpu0 ->
    (out_of_bounds c = false ->
     Z.of_nat k <= instr_num c
     /\ len (instructions cpu0) - instr_num c <= Z.of_nat n) ->
    exists fuel m c_end,
      steps m c = Ok c_end /\ RunLoop fuel c = Some (Ok c_end)
      /\ Done c_end = true
      /\ forall j cj, (j < m)%nat -> steps j c = Ok cj -> Done cj = false.
Proof.
  induction n as [|n IH]; intros k c Hk Hd HPC Hi Hm.
  all: destruct (out_of_bounds c) eqn:Hb.
  all: try (exists 1%nat, 1%nat, (set_Done true c); simpl;
            rewrite Hd, (step_out_of_bounds c Hb);
            repeat (split; [reflexivity|]);
            intros j cj Hj Hs; destruct j as [|j]; [|lia];
            injection Hs as <-; exact Hd).
  - exfalso. destruct (Hm eq_refl) as [_ Hn].
    destruct (instr_num_in_bounds c HPC Hb) as (_ & _ & Hs).
    rewrite Hi in Hs. lia.
  - destruct (Hm eq_refl) as [Hkn Hn].
    destruct (instr_num_in_bounds c HPC Hb) as (_ & _ & Hs).
    rewrite Hi in Hs.
    destruct (advances k c) as (c' & Hstep & HPC'); auto.
    { unfold len in Hs. lia. }
    destruct (step_keeps0 c c' Hb Hstep) as (_ & Hd' & Hi' & _).
    destruct (IH (S k) c')
      as (fuel & m & c_end & Hsteps & Hloop & Hend & Hfirst).
    + eapply steps_snoc; eassumption.
    + congruence.
    + rewrite HPC'. apply uint32_range.
    + congruence.
    + intros Hb'.
      rewrite (next_slot c c' HPC Hb HPC' Hi' Hb'). lia.
    + exists (S fuel), (S m), c_end. simpl.
      rewrite Hd, Hstep. repeat (split; [assumption|]).
      intros j cj Hj Hs'. destruct j as [|j].
      * injection Hs' as <-. exact Hd.
      * simpl in Hs'. rewrite Hstep in Hs'.
        apply (Hfirst j cj); [lia|exact Hs'].
Qed.

(** C9: when every executed instruction advances the program counter by 4,
    [RunProgram] terminates: with enough fuel it returns.  The loop has
    then run the program to completion: it ended in the state [c_end] that
    [m] single steps reach from the start, the first state of the run in
    which [Done] is set.  On return the program counter is 16 and [Done] is
    false, and registers and memory are those of [c_end], the values that
    the run produced. *)
Theorem RunProgram_terminates :
  is_uint32 (PC cpu0) ->
  exists fuel m c_end final,
    steps m cpu0 = Ok c_end
    /\ Done c_end = true
    /\ (forall j cj, (j < m)%nat -> steps j cpu0 = Ok cj -> Done cj = false)
    /\ RunLoop fuel cpu0 = Some (Ok c_end)
    /\ RunProgram fuel cpu0 = Some (Ok final)
    /\ PC final = 16 /\ Done final = false
    /\ Registers final = Registers c_end /\ Memory final = Memory c_end.
Proof.
  intros HPC.
  assert (exists fuel m c_end,
             steps m cpu0 = Ok c_end /\ RunLoop fuel cpu0 = Some (Ok c_end)
             /\ Done c_end = true
             /\ forall j cj, (j < m)%nat -> steps j cpu0 = Ok cj ->
                             Done cj = false)
    as (fuel & m & c_end & Hsteps & Hloop & Hend & Hfirst).
  { destruct (Done cpu0) eqn:Hd.
    - exists 0%nat, 0%nat, cpu0. simpl. rewrite Hd.
      repeat (split; [reflexivity|]). intros j cj Hj. lia.
    - apply (loop_ends (length (instructions cpu0)) 0 cpu0); auto.
      intros Hb.
      destruct (instr_num_in_bounds cpu0 HPC Hb) as (_ & _ & Hs).
      unfold len. lia. }
  exists fuel, m, c_end, (set_Done false (set_PC 16 c_end)).
  unfold RunProgram. rewrite Hloop. cbn. auto 10.
Qed.

End StraightLine.

(** Register 0 holds zero in every state that single steps reach from a
    state in which it holds zero, in particular from a processor made by
    [NewCPU] and loaded with a program. *)
Lemma steps_register_zero k cpu c :
  Registers cpu !! 0%nat = Some 0 -> steps k cpu = Ok c ->
  Registers c !! 0%nat = Some 0.
Proof.
  revert cpu. induction k as [|k IH]; intros cpu H0 Hs.
  - injection Hs as <-. exact H0.
  - simpl in Hs.
    destruct (RunNextInstruction cpu) as [[[] cpu1]|] eqn:H1; [|discriminate].
    apply (IH cpu1); [|exact Hs].
    destruct (out_of_bounds cpu) eqn:Hb.
    + rewrite (step_out_of_bounds cpu Hb) in H1. injection H1 as <-. exact H0.
    + destruct (step_keeps0 cpu cpu1 Hb H1) as (HR & _). congruence.
Qed.

Lemma loaded_register_zero k memorySize program c :
  steps k (LoadInstructions program (NewCPU memorySize)) = Ok c ->
  Registers c !! 0%nat = Some 0.
Proof.
  apply steps_register_zero.
  destruct (loadLines_frame program 0 (set_entryPoint "" (NewCPU memorySize)))
    as (_ & HR & _).
  unfold LoadInstructions. cbn zeta.
  destruct (instr_num _ >? _); cbn [Registers set_Done set_instructions];
    rewrite HR; reflexivity.
Qed.

(** The program of the test [TestStoreByte], loaded. *)
Definition store_byte_cpu : CPU :=
  LoadInstructions ["li x1, 4"; "sb x1, 0(x0)"] (NewCPU 16).

(** The run of the program of [TestStoreByte] returns with register 1 and
    the byte at address 0 holding 4, the values that the two instructions
    produced. *)
Lemma RunProgram_terminates_witness :
  exists fuel final,
    RunProgram fuel store_byte_cpu = Some (Ok final)
    /\ PC final = 16 /\ Done final = false
    /\ Registers final !! 1%nat = Some 4 /\ Memory final !! 0%nat = Some 4.
Proof.
  assert (forall k c,
             (k < length (instructions store_byte_cpu))%nat ->
             steps k store_byte_cpu = Ok c -> Done c = false ->
             out_of_bounds c = false ->
             exists c', RunNextInstruction c = Ok (tt, c')
                        /\ PC c' = uint32 (PC c + 4)) as Hadv.
  { intros k c Hk Hs Hd Hb.
    change (length (instructions store_byte_cpu)) with 2%nat in Hk.
    destruct k as [|[|k]]; [| |lia].
    - injection Hs as <-. eexists. split; reflexivity.
    - vm_compute in Hs. injection Hs as <-. eexists. split; reflexivity. }
  assert (is_uint32 (PC store_byte_cpu)) as HPC0
    by (unfold is_uint32; change (PC store_byte_cpu) with 16; lia).
  destruct (RunProgram_terminates store_byte_cpu Hadv HPC0)
    as (fuel & m & c_end & final & Hs & Hd & Hfirst & _ & Hr & HPC & HD & HR & HM).
  exists fuel, final.
  split; [exact Hr|]. split; [exact HPC|]. split; [exact HD|].
  rewrite HR, HM.
  destruct m as [|[|[|[|m]]]].
  - injection Hs as <-. discriminate Hd.
  - vm_compute in Hs. injection Hs as <-. discriminate Hd.
  - vm_compute in Hs. injection Hs as <-. discriminate Hd.
  - vm_compute in Hs. injection Hs as <-. split; reflexivity.
  - exfalso.
    assert (exists c3, steps 3 store_byte_cpu = Ok c3 /\ Done c3 = true)
      as (c3 & H3 & Hd3) by (eexists; split; vm_compute; reflexivity).
    rewrite (Hfirst 3%nat c3) in Hd3; [discriminate Hd3|lia|exact H3].
Defined.

(** ** Decoding a three-operand line *)

(** The pattern matches at the head of the text and closes the groups
    [cs], last group first. *)
Definition captures (p : regex) (s : string) (st : mstate) (cs : list string)
    : Prop :=
  exists r, match_here p s st = Some r /\ closed r = cs.

Lemma cap_nil s st cs : closed st = cs -> captures [] s st cs.
Proof. intros H. exists st. auto. Qed.

Lemma cap_open p s st cs :
  captures p s (open_group st) cs -> captures (GroupOpen :: p) s st cs.
Proof. intros H. exact H. Qed.

Lemma cap_close p s st cs :
  captures p s (close_group st) cs -> captures (GroupClose :: p) s st cs.
Proof. intros H. exact H. Qed.

Lemma cap_plus c p a w rest st cs :
  c a = true -> all_chars c w = true -> stops c rest = true ->
  captures p rest (pushs w (push a st)) cs ->
  captures (Cls c Plus :: p) (String a (w +:+ rest)) st cs.
Proof.
  intros Ha Hw Hs (r & Hr & Hc). exists r. split; [|exact Hc].
  simpl. rewrite Ha. apply greedy_run; assumption.
Qed.

Lemma cap_star c p w rest st cs :
  all_chars c w = true -> stops c rest = true ->
  captures p rest (pushs w st) cs ->
  captures (Cls c Star :: p) (w +:+ rest) st cs.
Proof.
  intros Hw Hs (r & Hr & Hc). exists r. split; [|exact Hc].
  simpl. apply greedy_run; assumption.
Qed.

Lemma cap_one c p a s st cs :
  c a = true -> captures p s (push a st) cs ->
  captures (Cls c One :: p) (String a s) st cs.
Proof.
  intros Ha (r & Hr & Hc). exists r. split; [|exact Hc].
  simpl. rewrite Ha. exact Hr.
Qed.

Lemma cap_opt_skip c p s st cs :
  stops c s = true -> captures p s st cs ->
  captures (Cls c Opt :: p) s st cs.
Proof.
  intros Hs (r & Hr & Hc). exists r. split; [|exact Hc].
  destruct s as [|a s]; simpl; [exact Hr|].
  simpl in Hs. apply negb_true_iff in Hs. rewrite Hs. exact Hr.
Qed.

Lemma closed_group a w st :
  closed (close_group (pushs w (push a (open_group st))))
  = String a w :: closed st.
Proof.
  cbn [close_group closed]. rewrite current_pushs, closed_pushs. reflexivity.
Qed.

Lemma captures_submatches p s cs :
  captures p s start cs ->
  exists w, FindStringSubmatch p s = w :: rev cs.
Proof.
  intros (r & Hr & <-). rewrite (FindStringSubmatch_here _ _ _ Hr).
  unfold submatches. eauto.
Qed.

(** A word: word characters, at least one. *)
Definition is_word (s : string) : bool :=
  match s with
  | String a s' => word a && all_chars word s'
  | EmptyString => false
  end.

Lemma word_class a :
  word a = true ->
  space a = false /\ is_space a = false /\ is_char "," a = false
  /\ is_char "-" a = false /\ is_char "." a = false /\ is_char "+" a = false.
Proof.
  destruct a as [[] [] [] [] [] [] [] []]; vm_compute; intros H;
    first [discriminate H | repeat split].
Qed.

Lemma is_identifier_word s : is_identifier s = true -> is_word s = true.
Proof.
  destruct s as [|a s]; simpl; [auto|]. intros H.
  apply andb_true_iff in H as [H Hs]. apply andb_true_iff in H as [Ha _].
  rewrite Ha, Hs. reflexivity.
Qed.

(** A line [m r1, r2, d] of four words, written with single spaces. *)
Definition three_operand_line (m r1 r2 d : string) : string :=
  m +:+ " " +:+ r1 +:+ ", " +:+ r2 +:+ ", " +:+ d.

Lemma threePtRe_tokens m r1 r2 d :
  is_word m = true -> is_word r1 = true -> is_word r2 = true ->
  is_word d = true ->
  exists w,
    FindStringSubmatch threePtRe (three_operand_line m r1 r2 d)
    = [w; m; r1; r2; d].
Proof.
  destruct m as [|m0 m]; [discriminate|].
  destruct r1 as [|a1 r1]; [discriminate|].
  destruct r2 as [|a2 r2]; [discriminate|].
  destruct d as [|d0 d]; [discriminate|].
  intros Hm H1 H2 Hd. simpl in Hm, H1, H2, Hd.
  apply andb_true_iff in Hm as [Hm0 Hm], H1 as [Ha1 H1], H2 as [Ha2 H2],
    Hd as [Hd0 Hd].
  destruct (word_class _ Ha1) as (Hs1 & _).
  destruct (word_class _ Ha2) as (Hs2 & _).
  destruct (word_class _ Hd0) as (Hsd & _ & _ & Hdash & Hdot & _).
  apply (captures_submatches threePtRe _ [String d0 d; String a2 r2;
                                          String a1 r1; String m0 m]).
  unfold three_operand_line, threePtRe, group. cbn [app].
  apply cap_open. rewrite append_cons.
  apply cap_plus; [assumption|assumption|reflexivity|].
  apply cap_close.
  apply (cap_plus space _ " " ""); [reflexivity|reflexivity| |].
  { rewrite append_cons. cbn [stops]. rewrite Hs1. reflexivity. }
  apply cap_open. rewrite append_cons.
  apply cap_plus; [assumption|assumption|reflexivity|].
  apply cap_close.
  apply (cap_star space _ ""); [reflexivity|reflexivity|].
  apply cap_one; [reflexivity|].
  apply (cap_star space _ " "); [reflexivity| |].
  { rewrite append_cons. cbn [stops]. rewrite Hs2. reflexivity. }
  apply cap_open. rewrite append_cons.
  apply cap_plus; [assumption|assumption|reflexivity|].
  apply cap_close.
  apply (cap_star space _ ""); [reflexivity|reflexivity|].
  apply cap_one; [reflexivity|].
  apply (cap_star space _ " "); [reflexivity| |].
  { cbn [stops]. rewrite Hsd. reflexivity. }
  apply cap_open.
  apply cap_opt_skip; [cbn [stops]; rewrite Hdash; reflexivity|].
  apply cap_opt_skip; [cbn [stops]; rewrite Hdot; reflexivity|].
  rewrite <- (append_nil_r d).
  apply cap_plus; [assumption|assumption|reflexivity|].
  apply cap_close. apply cap_nil.
  rewrite append_nil_r.
  repeat (rewrite ?closed_group, ?closed_pushs; cbn [closed push]).
  reflexivity.
Qed.

(** *** Trimming and the first token *)

Lemma trim_right_nospace w :
  all_chars (fun a => negb (is_space a)) w = true -> trim_right w = w.
Proof.
  induction w as [|a w IH]; simpl; [reflexivity|].
  intros H. apply andb_true_iff in H as [Ha Hw].
  rewrite (IH Hw). apply negb_true_iff in Ha. rewrite Ha.
  destruct w; reflexivity.
Qed.

Lemma word_nospace w :
  all_chars word w = true ->
  all_chars (fun a => negb (is_space a)) w = true.
Proof.
  apply all_chars_impl. intros a Ha.
  destruct (word_class a Ha) as (_ & -> & _). reflexivity.
Qed.

Lemma trim_right_app_word pre d :
  is_word d = true -> trim_right (pre +:+ d) = pre +:+ d.
Proof.
  intros Hd. induction pre as [|a pre IH].
  - rewrite append_nil_l. apply trim_right_nospace, word_nospace.
    destruct d as [|d0 d]; [discriminate|]. exact Hd.
  - rewrite append_cons. simpl. rewrite IH.
    destruct (pre +:+ d) eqn:He; [|reflexivity].
    destruct pre; [|discriminate He].
    rewrite append_nil_l in He. subst d. discriminate Hd.
Qed.

Lemma TrimSpace_line m r1 r2 d :
  is_word m = true -> is_word d = true ->
  TrimSpace (three_operand_line m r1 r2 d) = three_operand_line m r1 r2 d.
Proof.
  intros Hm Hd. unfold TrimSpace.
  assert (trim_left (three_operand_line m r1 r2 d)
          = three_operand_line m r1 r2 d) as ->.
  { destruct m as [|m0 m]; [discriminate|].
    simpl in Hm. apply andb_true_iff in Hm as [Hm0 _].
    destruct (word_class _ Hm0) as (_ & Hs & _).
    unfold three_operand_line. rewrite append_cons. simpl. rewrite Hs.
    reflexivity. }
  unfold three_operand_line. rewrite <- !append_assoc.
  apply trim_right_app_word, Hd.
Qed.

Lemma first_token m rest :
  is_word m = true -> stops word rest = true ->
  FindStringAnchored firstTokenRe (m +:+ rest) = m.
Proof.
  destruct m as [|m0 m]; [discriminate|]. intros Hm Hs.
  simpl in Hm. apply andb_true_iff in Hm as [Hm0 Hm].
  unfold FindStringAnchored.
  assert (match_here firstTokenRe (String m0 m +:+ rest) start
          = Some (close_group (pushs m (push m0 (open_group start))))) as ->.
  { rewrite append_cons. unfold firstTokenRe, group. cbn [app match_here].
    rewrite Hm0. apply greedy_run; [exact Hm|exact Hs|reflexivity]. }
  cbn [whole close_group]. rewrite whole_pushs. reflexivity.
Qed.

(** *** Register names and label names *)

Lemma table_names_are_words :
  forallb (fun entry => is_word (fst entry)) abiToRegister = true.
Proof. vm_compute. reflexivity. Qed.

Lemma lookup_table_In {A : Type} (table : list (string * A)) key v :
  lookup_table table key = Some v -> In (key, v) table.
Proof.
  induction table as [|[k x] table IH]; simpl; [discriminate|].
  destruct (String.eqb_spec k key) as [->|].
  - intros [= ->]. auto.
  - auto.
Qed.

Lemma register_name_word r n : getRegisterNumber r = Ok n -> is_word r = true.
Proof.
  unfold getRegisterNumber.
  destruct (lookup_table abiToRegister r) as [reg|] eqn:H; [|discriminate].
  intros _. apply lookup_table_In in H.
  pose proof table_names_are_words as Hall.
  rewrite forallb_forall in Hall. apply (Hall _ H).
Qed.

(** The name of a label is not a number for [Atoi]. *)
Lemma Atoi_identifier L : is_identifier L = true -> Atoi L = None.
Proof.
  destruct L as [|a L]; [discriminate|]. intros H. simpl in H.
  apply andb_true_iff in H as [H _]. apply andb_true_iff in H as [Ha Hd].
  apply negb_true_iff in Hd.
  destruct (word_class a Ha) as (_ & _ & _ & Hdash & _ & Hplus).
  unfold Atoi. rewrite Hdash, Hplus. cbn [orb digits_value]. rewrite Hd.
  reflexivity.
Qed.

(** *** The branch [beq] *)




(** A program with a branch over one line to the label [end]. *)
Definition branch_cpu : CPU :=
  LoadInstructions ["beq x1, x3, end"; "li x3, 1"; "end:"] (NewCPU 16).


Example beq_not_taken :
  register_of
    (run_fresh 10 16 ["beq x1, x2, end"; "li x3, 1"; "end:"]) 3 = Some 1.
Proof. vm_compute. reflexivity. Qed.

Example beq_taken :
  register_of
    (run_fresh 10 16 ["beq x1, x3, end"; "li x3, 1"; "end:"]) 3 = Some 0.
Proof. vm_compute. reflexivity. Qed.

(** * Further properties of the decoder and the engine *)

(** ** The text that a match needs *)

Section SuffixProperty.

(** A property of texts that stays true when a character is put in front:
    "the text has a space", "the text has a comma that an operand
    follows". *)
Variable Q : string -> Prop.
Hypothesis Q_cons : forall a s, Q s -> Q (String a s).

Lemma greedy_suffix c (k : string -> mstate -> option mstate) :
  (forall s st r, k s st = Some r -> Q s) ->
  forall s st r, greedy c k s st = Some r -> Q s.
Proof.
  intros Hk s. induction s as [|a s IH]; intros st r; simpl.
  - apply Hk.
  - destruct (c a); [|apply Hk].
    destruct (greedy c k s (push a st)) as [r0|] eqn:Hg; [|apply Hk].
    intros _. apply Q_cons. eapply IH. exact Hg.
Qed.

(** When the end [p2] of a pattern only matches texts with the property,
    so does the whole pattern. *)
Lemma match_here_suffix p1 p2 :
  (forall s st r, match_here p2 s st = Some r -> Q s) ->
  forall s st r, match_here (p1 ++ p2) s st = Some r -> Q s.
Proof.
  intros H2. induction p1 as [|x p1 IH]; [exact H2|].
  intros s st r. change ((x :: p1) ++ p2) with (x :: (p1 ++ p2)).
  destruct x as [c [| | |]| |]; simpl.
  - destruct s as [|a s]; [discriminate|].
    destruct (c a); [|discriminate]. intros H. apply Q_cons. eapply IH, H.
  - destruct s as [|a s]; [apply IH|].
    destruct (c a); [|apply IH].
    destruct (match_here (p1 ++ p2) s (push a st)) as [r0|] eqn:Hm; [|apply IH].
    intros _. apply Q_cons. eapply IH, Hm.
  - apply greedy_suffix. exact IH.
  - destruct s as [|a s]; [discriminate|].
    destruct (c a); [|discriminate]. intros H. apply Q_cons.
    eapply greedy_suffix; [exact IH|exact H].
  - apply IH.
  - apply IH.
Qed.

Lemma FindStringSubmatch_suffix p s :
  (forall s st r, match_here p s st = Some r -> Q s) ->
  FindStringSubmatch p s <> [] -> Q s.
Proof.
  intros Hp. induction s as [|a s IH]; simpl.
  - destruct (match_here p "" start) eqn:Hm; [|congruence].
    intros _. eapply Hp, Hm.
  - destruct (match_here p (String a s) start) eqn:Hm.
    + intros _. eapply Hp, Hm.
    + intros H. apply Q_cons, IH, H.
Qed.

End SuffixProperty.

(** The text has a character of the class [d]. *)
Fixpoint has_char (d : ascii -> bool) (s : string) : bool :=
  match s with
  | String a s' => d a || has_char d s'
  | EmptyString => false
  end.

Lemma has_char_cons d a s : has_char d s = true -> has_char d (String a s) = true.
Proof. simpl. intros ->. apply orb_true_r. Qed.

Lemma plus_has_char c p s st r :
  match_here (Cls c Plus :: p) s st = Some r -> has_char c s = true.
Proof.
  simpl. destruct s as [|a s]; [discriminate|].
  destruct (c a) eqn:Ha; [|discriminate]. intros _. simpl. rewrite Ha.
  reflexivity.
Qed.

(** Every pattern of the decoder asks for white space after its first
    group. *)
Lemma pattern_needs_space re g p s :
  re = group g ++ Cls space Plus :: p ->
  FindStringSubmatch re s <> [] -> has_char space s = true.
Proof.
  intros -> H.
  apply (FindStringSubmatch_suffix (fun s => has_char space s = true))
    with (p := group g ++ Cls space Plus :: p); [apply has_char_cons| |exact H].
  apply match_here_suffix; [apply has_char_cons|].
  intros s0 st r. apply plus_has_char.
Qed.

Lemma no_match_without_space s :
  has_char space s = false ->
  FindStringSubmatch threePtRe s = []
  /\ FindStringSubmatch twoPtImmRe s = []
  /\ FindStringSubmatch loadStoreRe s = []
  /\ FindStringSubmatch jumpRe s = [].
Proof.
  intros Hs.
  assert (forall re g p, re = group g ++ Cls space Plus :: p ->
                         FindStringSubmatch re s = []) as H.
  { intros re g p Hre.
    destruct (FindStringSubmatch re s) eqn:Hf; [reflexivity|].
    rewrite (pattern_needs_space re g p s Hre) in Hs; [discriminate|].
    rewrite Hf. discriminate. }
  repeat split; eapply H; reflexivity.
Qed.

Lemma matched_none re s parse :
  FindStringSubmatch re s = [] -> matched re s parse = Ok (NoOp "").
Proof. unfold matched. intros ->. reflexivity. Qed.

Lemma decodeMv_none token s :
  FindStringSubmatch twoPtImmRe s = [] -> decodeMv token s = Ok (NoOp "").
Proof.
  unfold decodeMv. intros ->. destruct (String.eqb token "mv"); reflexivity.
Qed.

(** A line without white space inside, such as a label line or a bare
    mnemonic, is a no-operation. *)
Theorem decode_without_space line :
  has_char space (TrimSpace line) = false ->
  DecodeInstr line = Ok (NoOp "").
Proof.
  intros Hs.
  destruct (no_match_without_space _ Hs) as (H3 & H2 & HL & HJ).
  unfold DecodeInstr.
  repeat match goal with
         | |- (if ?b then _ else _) = _ => destruct b
         end;
    first [apply matched_none; assumption | apply decodeMv_none; assumption].
Qed.

Lemma decode_without_space_witness :
  DecodeInstr "main:" = Ok (NoOp "") /\ DecodeInstr "add" = Ok (NoOp "").
Proof.
  split; apply decode_without_space; reflexivity.
Defined.

(** A line that is empty, or blank, or starts with a character that is not
    a word character, is a no-operation. *)
Theorem decode_without_mnemonic line :
  stops word (TrimSpace line) = true ->
  DecodeInstr line = Ok (NoOp "").
Proof.
  intros Hs. unfold DecodeInstr.
  assert (FindStringAnchored firstTokenRe (TrimSpace line) = "") as ->.
  { unfold FindStringAnchored, firstTokenRe, group. cbn [app match_here].
    destruct (TrimSpace line) as [|a s]; [reflexivity|].
    simpl in Hs. apply negb_true_iff in Hs. rewrite Hs. reflexivity. }
  reflexivity.
Qed.

Lemma decode_without_mnemonic_witness :
  DecodeInstr "" = Ok (NoOp "") /\ DecodeInstr "   " = Ok (NoOp "")
  /\ DecodeInstr "# add x1, x2, x3" = Ok (NoOp "").
Proof.
  split; [|split]; apply decode_without_mnemonic; reflexivity.
Defined.

(** ** The number of submatches *)

Fixpoint count_groups (p : regex) : nat :=
  match p with
  | [] => 0
  | GroupClose :: p' => S (count_groups p')
  | _ :: p' => count_groups p'
  end.

Lemma greedy_groups c (k : string -> mstate -> option mstate) n :
  (forall s st r, k s st = Some r ->
                  length (closed r) = (length (closed st) + n)%nat) ->
  forall s st r, greedy c k s st = Some r ->
                 length (closed r) = (length (closed st) + n)%nat.
Proof.
  intros Hk s. induction s as [|a s IH]; intros st r; simpl.
  - apply Hk.
  - destruct (c a); [|apply Hk].
    destruct (greedy c k s (push a st)) as [r0|] eqn:Hg; [|apply Hk].
    intros [= <-]. apply (IH _ _ Hg).
Qed.

Lemma match_here_groups p :
  forall s st r, match_here p s st = Some r ->
                 length (closed r) = (length (closed st) + count_groups p)%nat.
Proof.
  induction p as [|x p IH]; intros s st r.
  - simpl. intros [= <-]. lia.
  - destruct x as [c [| | |]| |]; simpl.
    + destruct s as [|a s]; [discriminate|].
      destruct (c a); [|discriminate]. intros H. apply (IH _ _ _ H).
    + destruct s as [|a s]; [apply IH|].
      destruct (c a); [|apply IH].
      destruct (match_here p s (push a st)) as [r0|] eqn:Hm; [|apply IH].
      intros [= <-]. apply (IH _ _ _ Hm).
    + apply greedy_groups. exact IH.
    + destruct s as [|a s]; [discriminate|].
      destruct (c a); [|discriminate]. intros H.
      apply (greedy_groups c _ _ IH _ _ _ H).
    + intros H. apply (IH _ _ _ H).
    + intros H. rewrite (IH _ _ _ H). simpl. lia.
Qed.

(** [FindStringSubmatch] gives nothing, or the whole match and one text for
    every group of the pattern. *)
Lemma FindStringSubmatch_length p s :
  FindStringSubmatch p s = []
  \/ length (FindStringSubmatch p s) = S (count_groups p).
Proof.
  induction s as [|a s IH]; simpl.
  - destruct (match_here p "" start) as [r|] eqn:Hm; [right|left; reflexivity].
    unfold submatches. simpl. rewrite length_rev.
    rewrite (match_here_groups p _ _ _ Hm). reflexivity.
  - destruct (match_here p (String a s) start) as [r|] eqn:Hm; [right|exact IH].
    unfold submatches. simpl. rewrite length_rev.
    rewrite (match_here_groups p _ _ _ Hm). reflexivity.
Qed.

Lemma five_tokens s :
  FindStringSubmatch threePtRe s = []
  \/ exists t0 t1 t2 t3 t4, FindStringSubmatch threePtRe s = [t0; t1; t2; t3; t4].
Proof.
  destruct (FindStringSubmatch_length threePtRe s) as [H|H]; [left; exact H|right].
  destruct (FindStringSubmatch threePtRe s) as [|t0 [|t1 [|t2 [|t3 [|t4 [|]]]]]];
    try discriminate H.
  eauto 6.
Qed.

Lemma four_tokens s :
  FindStringSubmatch twoPtImmRe s = []
  \/ exists t0 t1 t2 t3, FindStringSubmatch twoPtImmRe s = [t0; t1; t2; t3].
Proof.
  destruct (FindStringSubmatch_length twoPtImmRe s) as [H|H]; [left; exact H|right].
  destruct (FindStringSubmatch twoPtImmRe s) as [|t0 [|t1 [|t2 [|t3 [|]]]]];
    try discriminate H.
  eauto 6.
Qed.

Lemma five_tokens_loadStore s :
  FindStringSubmatch loadStoreRe s = []
  \/ exists t0 t1 t2 t3 t4, FindStringSubmatch loadStoreRe s = [t0; t1; t2; t3; t4].
Proof.
  destruct (FindStringSubmatch_length loadStoreRe s) as [H|H]; [left; exact H|right].
  destruct (FindStringSubmatch loadStoreRe s) as [|t0 [|t1 [|t2 [|t3 [|t4 [|]]]]]];
    try discriminate H.
  eauto 6.
Qed.

Lemma three_tokens s :
  FindStringSubmatch jumpRe s = []
  \/ exists t0 t1 t2, FindStringSubmatch jumpRe s = [t0; t1; t2].
Proof.
  destruct (FindStringSubmatch_length jumpRe s) as [H|H]; [left; exact H|right].
  destruct (FindStringSubmatch jumpRe s) as [|t0 [|t1 [|t2 [|]]]];
    try discriminate H.
  eauto 6.
Qed.

(** ** The faults of the decoder *)

(** The faults that name a register, an immediate or an operation of the
    program text. *)
Definition text_fault (f : fault) : Prop :=
  match f with
  | InvalidRegister _ | ImmediateParseError _ | InvalidOperation _ => True
  | _ => False
  end.

Lemma getRegisterNumber_fault name f :
  getRegisterNumber name = Panic f -> f = InvalidRegister name.
Proof.
  unfold getRegisterNumber. destruct (lookup_table _ _); [discriminate|].
  intros [= <-]. reflexivity.
Qed.

Lemma parseImm_fault imm_str f :
  parseImm imm_str = Panic f -> f = ImmediateParseError imm_str.
Proof.
  unfold parseImm. destruct (Atoi _); [discriminate|].
  intros [= <-]. reflexivity.
Qed.

(** Case analysis on a parse that panics. *)
Ltac panic_cases H :=
  cbn [rbind index lookup list_lookup drop] in H;
  repeat
    match type of H with
    | rbind (getRegisterNumber ?t) _ = Panic _ =>
        let E := fresh "E" in
        destruct (getRegisterNumber t) eqn:E;
        [cbn [rbind] in H
        |cbn [rbind] in H; injection H as <-;
         apply getRegisterNumber_fault in E; subst; exact I]
    | rbind (parseImm ?t) _ = Panic _ =>
        let E := fresh "E" in
        destruct (parseImm t) eqn:E;
        [cbn [rbind] in H
        |cbn [rbind] in H; injection H as <-;
         apply parseImm_fault in E; subst; exact I]
    | match ?x with _ => _ end = Panic _ => destruct x; cbn [rbind] in H
    end;
  try discriminate H;
  try (injection H as <-; exact I).

Lemma matched_fault re s parse f :
  (forall tokens, FindStringSubmatch re s = tokens -> tokens <> [] ->
                  parse tokens = Panic f -> text_fault f) ->
  matched re s parse = Panic f -> text_fault f.
Proof.
  intros Hp. unfold matched.
  destruct (FindStringSubmatch re s) as [|t ts] eqn:Hf; [discriminate|].
  simpl. apply Hp; [reflexivity|discriminate].
Qed.

Lemma decodeMv_fault token s f :
  decodeMv token s = Panic f -> text_fault f.
Proof.
  unfold decodeMv. destruct (String.eqb token "mv"); [|discriminate].
  destruct (four_tokens s) as [->|(t0 & t1 & t2 & t3 & ->)]; [discriminate|].
  cbn [length Nat.eqb]. intros H. panic_cases H.
Qed.

(** The decoder panics only over the program text: an invalid register
    name, an immediate that does not parse, or an operation that is not in
    the table.  It never runs over the end of the token list. *)
Theorem DecodeInstr_faults line f :
  DecodeInstr line = Panic f -> text_fault f.
Proof.
  unfold DecodeInstr.
  repeat match goal with
         | |- (if ?b then _ else _) = _ -> _ => destruct b
         end;
    try (apply decodeMv_fault);
    apply matched_fault; intros tokens Hf Hne H.
  all: try (destruct (five_tokens (TrimSpace line))
              as [Hn|(t0 & t1 & t2 & t3 & t4 & Ht)];
            [congruence|]; rewrite Ht in Hf; subst tokens).
  all: try (destruct (four_tokens (TrimSpace line))
              as [Hn|(t0 & t1 & t2 & t3 & Ht)];
            [congruence|]; rewrite Ht in Hf; subst tokens).
  all: try (destruct (five_tokens_loadStore (TrimSpace line))
              as [Hn|(t0 & t1 & t2 & t3 & t4 & Ht)];
            [congruence|]; rewrite Ht in Hf; subst tokens).
  all: try (destruct (three_tokens (TrimSpace line))
              as [Hn|(t0 & t1 & t2 & Ht)];
            [congruence|]; rewrite Ht in Hf; subst tokens).
  all: unfold parseThreePt, parseThreePtImm, parseLoadImm, parseLoad,
         parseStore, parseBranchThree, parseBranchTwo, parseSet,
         parseSetImm, parseJal in H.
  all: try (panic_cases H; fail).
  destruct (parseJalr [t0; t1; t2; t3; t4]) as [i|f0] eqn:E; cbn [rbind] in H.
  - eapply decodeMv_fault. exact H.
  - injection H as <-. unfold parseJalr in E. panic_cases E.
Qed.

Lemma DecodeInstr_faults_witness :
  text_fault (InvalidRegister "x32").
Proof.
  apply (DecodeInstr_faults "add x32, x1, x2"). reflexivity.
Defined.

(** ** Lines of two operands *)

(** A line [m r, d] of three words, written with single spaces. *)
Definition two_operand_line (m r d : string) : string :=
  m +:+ " " +:+ r +:+ ", " +:+ d.

Lemma twoPtImmRe_tokens m r d :
  is_word m = true -> is_word r = true -> is_word d = true ->
  exists w, FindStringSubmatch twoPtImmRe (two_operand_line m r d) = [w; m; r; d].
Proof.
  destruct m as [|m0 m]; [discriminate|].
  destruct r as [|a1 r]; [discriminate|].
  destruct d as [|d0 d]; [discriminate|].
  intros Hm H1 Hd. simpl in Hm, H1, Hd.
  apply andb_true_iff in Hm as [Hm0 Hm], H1 as [Ha1 H1], Hd as [Hd0 Hd].
  destruct (word_class _ Ha1) as (Hs1 & _).
  destruct (word_class _ Hd0) as (Hsd & _).
  apply (captures_submatches twoPtImmRe _ [String d0 d; String a1 r; String m0 m]).
  unfold two_operand_line, twoPtImmRe, group. cbn [app].
  apply cap_open. rewrite append_cons.
  apply cap_plus; [assumption|assumption|reflexivity|].
  apply cap_close.
  apply (cap_plus space _ " " ""); [reflexivity|reflexivity| |].
  { rewrite append_cons. cbn [stops]. rewrite Hs1. reflexivity. }
  apply cap_open. rewrite append_cons.
  apply cap_plus; [assumption|assumption|reflexivity|].
  apply cap_close.
  apply (cap_star space _ ""); [reflexivity|reflexivity|].
  apply cap_one; [reflexivity|].
  apply (cap_star space _ " "); [reflexivity| |].
  { cbn [stops]. rewrite Hsd. reflexivity. }
  apply cap_open.
  rewrite <- (append_nil_r d).
  apply cap_plus; [assumption|assumption|reflexivity|].
  apply cap_close. apply cap_nil.
  rewrite append_nil_r.
  repeat (rewrite ?closed_group, ?closed_pushs; cbn [closed push]).
  reflexivity.
Qed.

(** Nothing is trimmed from a text that starts and ends with a word. *)
Lemma TrimSpace_ends m s d :
  is_word m = true -> is_word d = true ->
  TrimSpace (m +:+ s +:+ d) = m +:+ s +:+ d.
Proof.
  intros Hm Hd. unfold TrimSpace.
  assert (trim_left (m +:+ s +:+ d) = m +:+ s +:+ d) as ->.
  { destruct m as [|m0 m]; [discriminate|].
    simpl in Hm. apply andb_true_iff in Hm as [Hm0 _].
    destruct (word_class _ Hm0) as (_ & Hs & _).
    rewrite append_cons. simpl. rewrite Hs. reflexivity. }
  rewrite <- append_assoc. apply trim_right_app_word, Hd.
Qed.

Lemma TrimSpace_two m r d :
  is_word m = true -> is_word d = true ->
  TrimSpace (two_operand_line m r d) = two_operand_line m r d.
Proof.
  intros Hm Hd. unfold two_operand_line.
  replace (m +:+ " " +:+ r +:+ ", " +:+ d)
    with (m +:+ (" " +:+ r +:+ ", ") +:+ d)
    by (rewrite !append_assoc; reflexivity).
  apply TrimSpace_ends; assumption.
Qed.

Lemma first_token_two m r d :
  is_word m = true ->
  FindStringAnchored firstTokenRe (two_operand_line m r d) = m.
Proof. intros Hm. unfold two_operand_line. apply first_token; auto. Qed.

Lemma first_token_three m r1 r2 d :
  is_word m = true ->
  FindStringAnchored firstTokenRe (three_operand_line m r1 r2 d) = m.
Proof. intros Hm. unfold three_operand_line. apply first_token; auto. Qed.

Lemma table_numbers_in_range :
  forallb (fun entry => (0 <=? snd entry) && (snd entry <=? 31)) abiToRegister
  = true.
Proof. vm_compute. reflexivity. Qed.

(** A register name resolves to an index from 0 to 31. *)
Lemma register_number_range r n :
  getRegisterNumber r = Ok n -> 0 <= n <= 31.
Proof.
  unfold getRegisterNumber.
  destruct (lookup_table abiToRegister r) as [reg|] eqn:H; [|discriminate].
  intros [= <-]. apply lookup_table_In in H.
  pose proof table_numbers_in_range as Hall.
  rewrite forallb_forall in Hall. specialize (Hall _ H). simpl in Hall.
  apply andb_true_iff in Hall as [H0 H31].
  apply Z.leb_le in H0, H31.
  unfold int8. rewrite Z.mod_small; lia.
Qed.

(** ** The jumps [jal] and [jalr], and the branch [blez] *)

(** The line [jal rd, L] panics in the decoder, whatever the register and
    the destination are: [parseJal] is given the token list with the whole
    match in front and reads the mnemonic as the register. *)
Theorem jal_decode_panics rd L :
  is_word rd = true -> is_word L = true ->
  DecodeInstr ("jal " +:+ rd +:+ ", " +:+ L) = Panic (InvalidRegister "jal").
Proof.
  intros Hrd HL.
  change ("jal " +:+ rd +:+ ", " +:+ L) with (two_operand_line "jal" rd L).
  unfold DecodeInstr.
  rewrite TrimSpace_two, first_token_two by auto.
  cbn -[two_operand_line FindStringSubmatch twoPtImmRe]. unfold matched.
  destruct (twoPtImmRe_tokens "jal" rd L) as (w & Hw); auto.
  rewrite Hw. reflexivity.
Qed.

Lemma jal_decode_panics_witness :
  DecodeInstr "jal ra, loop" = Panic (InvalidRegister "jal").
Proof. apply (jal_decode_panics "ra" "loop"); reflexivity. Defined.

(** The line [jalr rd, rs1, imm] panics in the decoder for all registers
    and immediates. *)
Theorem jalr_line_panics rd rs1 imm :
  is_word rd = true -> is_word rs1 = true -> is_word imm = true ->
  DecodeInstr ("jalr " +:+ rd +:+ ", " +:+ rs1 +:+ ", " +:+ imm)
  = Panic (InvalidRegister "jalr").
Proof.
  intros Hrd Hrs Himm.
  change ("jalr " +:+ rd +:+ ", " +:+ rs1 +:+ ", " +:+ imm)
    with (three_operand_line "jalr" rd rs1 imm).
  unfold DecodeInstr.
  rewrite TrimSpace_line, first_token_three by auto.
  cbn -[three_operand_line FindStringSubmatch threePtRe]. unfold matched.
  destruct (threePtRe_tokens "jalr" rd rs1 imm) as (w & Hw); auto.
  rewrite Hw. reflexivity.
Qed.

Lemma jalr_line_panics_witness :
  DecodeInstr "jalr ra, t0, 8" = Panic (InvalidRegister "jalr").
Proof. apply (jalr_line_panics "ra" "t0" "8"); reflexivity. Defined.

(** The mnemonic [blez] is in the list of the two-operand branches, but not
    in their table of operations: the line [blez r, L] is a no-operation
    with the reason "Invalid Operation", and never branches. *)
Theorem blez_is_noop r L cpu :
  is_word r = true -> is_word L = true ->
  DecodeInstr ("blez " +:+ r +:+ ", " +:+ L) = Ok (NoOp "Invalid Operation")
  /\ Operate (NoOp "Invalid Operation") cpu
     = Ok (tt, set_PC (uint32 (PC cpu + 4)) cpu).
Proof.
  intros Hr HL. split; [|reflexivity].
  change ("blez " +:+ r +:+ ", " +:+ L) with (two_operand_line "blez" r L).
  unfold DecodeInstr.
  rewrite TrimSpace_two, first_token_two by auto.
  cbn -[two_operand_line FindStringSubmatch twoPtImmRe]. unfold matched.
  destruct (twoPtImmRe_tokens "blez" r L) as (w & Hw); auto.
  rewrite Hw. reflexivity.
Qed.

Lemma blez_is_noop_witness :
  DecodeInstr "blez x1, loop" = Ok (NoOp "Invalid Operation").
Proof. apply (blez_is_noop "x1" "loop" (NewCPU 16)); reflexivity. Defined.

(** ** Register access with valid indices *)

Lemma readReg_ok i v cpu :
  0 <= i -> Registers cpu !! Z.to_nat i = Some v -> readReg i cpu = Ok (v, cpu).
Proof.
  intros Hi Hv. unfold readReg.
  destruct (Z.ltb_spec i 0); [lia|]. rewrite Hv. reflexivity.
Qed.

Lemma writeReg_in_range i v cpu :
  0 <= i < len (Registers cpu) ->
  writeReg i v cpu
  = Ok (tt, set_Registers (<[Z.to_nat i := v]> (Registers cpu)) cpu).
Proof.
  intros Hi. unfold writeReg.
  destruct (Z.ltb_spec i 0); [lia|].
  destruct (Z.leb_spec (len (Registers cpu)) i); [lia|]. reflexivity.
Qed.

(** The state after an instruction that assigns [v] to the register [rd]
    and goes to the next line. *)
Definition assigned (rd v : Z) (cpu : CPU) : CPU :=
  set_PC (uint32 (PC cpu + 4))
    (if rd =? 0 then cpu
     else set_Registers (<[Z.to_nat rd := v]> (Registers cpu)) cpu).

Lemma when_rd_assigned rd (value : M Z) v cpu :
  0 <= rd < len (Registers cpu) ->
  value cpu = Ok (v, cpu) ->
  bind (when_rd rd (assign rd value)) (fun _ => addPC 4) cpu
  = Ok (tt, assigned rd v cpu).
Proof.
  intros Hrd Hv. unfold bind, when_rd, assigned.
  destruct (rd =? 0); cbn; [reflexivity|].
  unfold assign, bind. rewrite Hv.
  rewrite writeReg_in_range by assumption. reflexivity.
Qed.

Lemma len_registers cpu : length (Registers cpu) = 32%nat -> len (Registers cpu) = 32.
Proof. unfold len. intros ->. reflexivity. Qed.

(** ** The moves [mv] and [li] *)

(** The line [mv rd, rs] copies the register [rs] to [rd] and goes to the
    next line; with [rd] register 0 it only goes to the next line. *)
Theorem mv_copies rd rs nd ns cpu a :
  getRegisterNumber rd = Ok nd ->
  getRegisterNumber rs = Ok ns ->
  length (Registers cpu) = 32%nat ->
  Registers cpu !! Z.to_nat ns = Some a ->
  exists instr,
    DecodeInstr ("mv " +:+ rd +:+ ", " +:+ rs) = Ok instr
    /\ Operate instr cpu = Ok (tt, assigned nd a cpu).
Proof.
  intros Hrd Hrs Hlen Ha.
  pose proof (register_name_word _ _ Hrd) as Hwd.
  pose proof (register_name_word _ _ Hrs) as Hws.
  pose proof (register_number_range _ _ Hrd) as Hnd.
  pose proof (register_number_range _ _ Hrs) as Hns.
  exists (InstrThreePtImm nd ns 0 (fun i1 i2 => Ok i1)). split.
  - change ("mv " +:+ rd +:+ ", " +:+ rs) with (two_operand_line "mv" rd rs).
    unfold DecodeInstr.
    rewrite TrimSpace_two, first_token_two by auto.
    cbn -[two_operand_line FindStringSubmatch twoPtImmRe].
    destruct (twoPtImmRe_tokens "mv" rd rs) as (w & Hw); auto.
    rewrite Hw. cbn [length Nat.eqb index lookup list_lookup rbind].
    rewrite Hrd. cbn [rbind]. rewrite Hrs. reflexivity.
  - cbn [Operate]. apply when_rd_assigned.
    + rewrite len_registers by assumption. lia.
    + unfold bind. rewrite (readReg_ok ns a) by (assumption || lia).
      reflexivity.
Qed.

Lemma mv_copies_witness :
  exists instr,
    DecodeInstr "mv a0, sp" = Ok instr
    /\ Operate instr (NewCPU 64) = Ok (tt, assigned 10 64 (NewCPU 64)).
Proof.
  apply (mv_copies "a0" "sp" 10 2 (NewCPU 64) 64); reflexivity.
Defined.

(** The line [li rd, N] with a decimal number [N] without sign loads the
    number, cut to 32 bits, into [rd]. *)
Theorem li_loads rd N nd v cpu :
  getRegisterNumber rd = Ok nd ->
  is_word N = true ->
  Atoi N = Some v ->
  length (Registers cpu) = 32%nat ->
  exists instr,
    DecodeInstr ("li " +:+ rd +:+ ", " +:+ N) = Ok instr
    /\ Operate instr cpu = Ok (tt, assigned nd (int32 v) cpu).
Proof.
  intros Hrd HN Hv Hlen.
  pose proof (register_name_word _ _ Hrd) as Hwd.
  pose proof (register_number_range _ _ Hrd) as Hnd.
  exists (LoadImmInstr nd (int32 v) (fun imm => ret imm)). split.
  - change ("li " +:+ rd +:+ ", " +:+ N) with (two_operand_line "li" rd N).
    unfold DecodeInstr.
    rewrite TrimSpace_two, first_token_two by auto.
    cbn -[two_operand_line FindStringSubmatch twoPtImmRe]. unfold matched.
    destruct (twoPtImmRe_tokens "li" rd N) as (w & Hw); auto.
    rewrite Hw. cbn [length Nat.eqb drop]. unfold parseLoadImm.
    cbn [index lookup list_lookup rbind].
    cbn [lookup_table instrToLoadImmOp String.eqb Ascii.eqb Bool.eqb].
    rewrite Hrd. cbn [rbind]. unfold parseImm. rewrite Hv. reflexivity.
  - cbn [Operate]. apply when_rd_assigned.
    + rewrite len_registers by assumption. lia.
    + reflexivity.
Qed.

Lemma li_loads_witness :
  exists instr,
    DecodeInstr "li t0, 4294967297" = Ok instr
    /\ Operate instr (NewCPU 16) = Ok (tt, assigned 5 1 (NewCPU 16)).
Proof.
  apply (li_loads "t0" "4294967297" 5 4294967297 (NewCPU 16)); reflexivity.
Defined.

(** *** A negative immediate after [li] *)

(** After spaces, the text goes on with a word character. *)
Fixpoint operand_next (s : string) : bool :=
  match s with
  | String a s' =>
      if word a then true else if space a then operand_next s' else false
  | EmptyString => false
  end.

(** The text has a comma that an operand follows. *)
Fixpoint comma_operand (s : string) : bool :=
  match s with
  | String a s' => (is_char "," a && operand_next s') || comma_operand s'
  | EmptyString => false
  end.

Lemma comma_operand_cons a s :
  comma_operand s = true -> comma_operand (String a s) = true.
Proof. simpl. intros ->. apply orb_true_r. Qed.

Lemma spaces_then_word (k : string -> mstate -> option mstate) :
  (forall s st r, k s st = Some r -> operand_next s = true) ->
  forall s st r, greedy space k s st = Some r -> operand_next s = true.
Proof.
  intros Hk s. induction s as [|a s IH]; intros st r; simpl.
  - apply Hk.
  - destruct (space a) eqn:Hs.
    + destruct (greedy space k s (push a st)) as [r0|] eqn:Hg.
      * intros _. rewrite (IH _ _ Hg). destruct (word a); reflexivity.
      * intros H. apply Hk in H. simpl in H. rewrite Hs in H. exact H.
    + intros H. apply Hk in H. simpl in H. rewrite Hs in H. exact H.
Qed.

Lemma twoPtImmRe_needs_operand s st r :
  match_here twoPtImmRe s st = Some r -> comma_operand s = true.
Proof.
  change twoPtImmRe
    with ((group [Cls word Plus] ++ [Cls space Plus] ++ group [Cls word Plus]
             ++ [Cls space Star])
            ++ [Cls (is_char ",") One; Cls space Star; GroupOpen;
                Cls word Plus; GroupClose]).
  revert s st r.
  apply (match_here_suffix (fun s => comma_operand s = true));
    [apply comma_operand_cons|].
  intros s st r. cbn [match_here].
  destruct s as [|a s]; [discriminate|].
  destruct (is_char "," a) eqn:Ha; [|discriminate].
  intros H. cbn [comma_operand]. rewrite Ha.
  rewrite (spaces_then_word (match_here [GroupOpen; Cls word Plus; GroupClose]))
    with (st := push a st) (r := r); [reflexivity| |exact H].
  intros s0 st0 r0 H0.
  destruct s0 as [|b s0]; [discriminate H0|].
  cbn [operand_next]. cbn [match_here] in H0.
  destruct (word b); [reflexivity|discriminate H0].
Qed.

Lemma comma_operand_none s :
  has_char (is_char ",") s = false -> comma_operand s = false.
Proof.
  induction s as [|a s IH]; simpl; [reflexivity|].
  intros H. apply orb_false_iff in H as [Ha Hs].
  rewrite Ha, (IH Hs). reflexivity.
Qed.

Lemma comma_operand_app w rest :
  has_char (is_char ",") w = false ->
  comma_operand (w +:+ rest) = comma_operand rest.
Proof.
  induction w as [|a w IH]; [reflexivity|]. simpl.
  intros H. apply orb_false_iff in H as [Ha Hw].
  rewrite Ha, (IH Hw). reflexivity.
Qed.

Lemma word_no_comma w :
  all_chars word w = true -> has_char (is_char ",") w = false.
Proof.
  induction w as [|a w IH]; [reflexivity|]. cbn [all_chars has_char].
  intros H. apply andb_true_iff in H as [Ha Hw].
  destruct (word_class a Ha) as (_ & _ & -> & _). rewrite (IH Hw). reflexivity.
Qed.

Lemma is_word_all w : is_word w = true -> all_chars word w = true.
Proof. destruct w as [|a w]; [discriminate|]. exact (fun H => H). Qed.

(** The line [li rd, -N] is a no-operation: the pattern of the
    load-immediate lines has no place for the sign, and the register keeps
    its value. *)
Theorem li_negative_is_noop rd N :
  is_word rd = true -> is_word N = true ->
  DecodeInstr ("li " +:+ rd +:+ ", -" +:+ N) = Ok (NoOp "").
Proof.
  intros Hrd HN. unfold DecodeInstr.
  replace ("li " +:+ rd +:+ ", -" +:+ N)
    with ("li" +:+ (" " +:+ rd +:+ ", -") +:+ N)
    by (rewrite !append_assoc; reflexivity).
  rewrite TrimSpace_ends by auto.
  rewrite first_token by reflexivity.
  cbn -[FindStringSubmatch twoPtImmRe String.append].
  apply matched_none.
  destruct (FindStringSubmatch twoPtImmRe _) eqn:Hf; [reflexivity|].
  assert (comma_operand ("li" +:+ (" " +:+ rd +:+ ", -") +:+ N) = true) as Hc.
  { apply (FindStringSubmatch_suffix (fun s => comma_operand s = true))
      with (p := twoPtImmRe);
      [apply comma_operand_cons|apply twoPtImmRe_needs_operand|].
    rewrite Hf. discriminate. }
  rewrite !append_assoc in Hc.
  change ("li" +:+ " " +:+ rd +:+ ", -" +:+ N)
    with ("li " +:+ rd +:+ ", -" +:+ N) in Hc.
  rewrite (comma_operand_app "li ") in Hc by reflexivity.
  rewrite (comma_operand_app rd) in Hc
    by (apply word_no_comma, is_word_all, Hrd).
  rewrite !append_cons, append_nil_l in Hc. simpl in Hc.
  rewrite comma_operand_none in Hc
    by (apply word_no_comma, is_word_all, HN).
  discriminate Hc.
Qed.

Lemma li_negative_is_noop_witness :
  DecodeInstr "li x1, -1" = Ok (NoOp "").
Proof. apply (li_negative_is_noop "x1" "1"); reflexivity. Defined.

(** ** Lines of three operands *)

(** An operand of a three-operand line: a word, or a word after a minus
    sign. *)
Definition is_operand (d : string) : bool :=
  match d with
  | String a w => if is_char "-" a then is_word w else is_word d
  | EmptyString => false
  end.

Lemma cap_opt_take c p a s st cs :
  c a = true -> captures p s (push a st) cs ->
  captures (Cls c Opt :: p) (String a s) st cs.
Proof.
  intros Ha (r & Hr & Hc). exists r. split; [|exact Hc].
  simpl. rewrite Ha, Hr. reflexivity.
Qed.

Lemma closed_group_pushs w st :
  closed (close_group (pushs w (open_group st))) = w :: closed st.
Proof.
  cbn [close_group closed]. rewrite current_pushs, closed_pushs. reflexivity.
Qed.

Lemma threePtRe_tokens_signed m r1 r2 w :
  is_word m = true -> is_word r1 = true -> is_word r2 = true ->
  is_word w = true ->
  exists t,
    FindStringSubmatch threePtRe (three_operand_line m r1 r2 (String "-" w))
    = [t; m; r1; r2; String "-" w].
Proof.
  destruct m as [|m0 m]; [discriminate|].
  destruct r1 as [|a1 r1]; [discriminate|].
  destruct r2 as [|a2 r2]; [discriminate|].
  destruct w as [|d0 d]; [discriminate|].
  intros Hm H1 H2 Hd. simpl in Hm, H1, H2, Hd.
  apply andb_true_iff in Hm as [Hm0 Hm], H1 as [Ha1 H1], H2 as [Ha2 H2],
    Hd as [Hd0 Hd].
  destruct (word_class _ Ha1) as (Hs1 & _).
  destruct (word_class _ Ha2) as (Hs2 & _).
  destruct (word_class _ Hd0) as (_ & _ & _ & _ & Hdot & _).
  apply (captures_submatches threePtRe _
           [String "-" (String d0 d); String a2 r2; String a1 r1; String m0 m]).
  unfold three_operand_line, threePtRe, group. cbn [app].
  apply cap_open. rewrite append_cons.
  apply cap_plus; [assumption|assumption|reflexivity|].
  apply cap_close.
  apply (cap_plus space _ " " ""); [reflexivity|reflexivity| |].
  { rewrite append_cons. cbn [stops]. rewrite Hs1. reflexivity. }
  apply cap_open. rewrite append_cons.
  apply cap_plus; [assumption|assumption|reflexivity|].
  apply cap_close.
  apply (cap_star space _ ""); [reflexivity|reflexivity|].
  apply cap_one; [reflexivity|].
  apply (cap_star space _ " "); [reflexivity| |].
  { rewrite append_cons. cbn [stops]. rewrite Hs2. reflexivity. }
  apply cap_open. rewrite append_cons.
  apply cap_plus; [assumption|assumption|reflexivity|].
  apply cap_close.
  apply (cap_star space _ ""); [reflexivity|reflexivity|].
  apply cap_one; [reflexivity|].
  apply (cap_star space _ " "); [reflexivity|reflexivity|].
  apply cap_open.
  apply cap_opt_take; [reflexivity|].
  apply cap_opt_skip; [cbn [stops]; rewrite Hdot; reflexivity|].
  rewrite <- (append_nil_r d).
  apply cap_plus; [assumption|assumption|reflexivity|].
  apply cap_close. apply cap_nil.
  rewrite append_nil_r.
  change (pushs d (push d0 (push "-" (open_group ?st))))
    with (pushs (String "-" (String d0 d)) (open_group st)).
  repeat (rewrite ?closed_group_pushs, ?closed_group, ?closed_pushs;
          cbn [closed push]).
  reflexivity.
Qed.

Lemma is_char_eq c a : is_char (String c "") a = true -> a = c.
Proof. simpl. intros H. apply Ascii.eqb_eq in H. congruence. Qed.

Lemma threePtRe_tokens_operand m r1 r2 d :
  is_word m = true -> is_word r1 = true -> is_word r2 = true ->
  is_operand d = true ->
  exists t,
    FindStringSubmatch threePtRe (three_operand_line m r1 r2 d)
    = [t; m; r1; r2; d].
Proof.
  intros Hm H1 H2 Hd. destruct d as [|a w]; [discriminate|].
  unfold is_operand in Hd. destruct (is_char "-" a) eqn:Ha.
  - apply is_char_eq in Ha. subst a. apply threePtRe_tokens_signed; assumption.
  - apply threePtRe_tokens; assumption.
Qed.

Lemma TrimSpace_operand m r1 r2 d :
  is_word m = true -> is_operand d = true ->
  TrimSpace (three_operand_line m r1 r2 d) = three_operand_line m r1 r2 d.
Proof.
  intros Hm Hd. destruct d as [|a w]; [discriminate|].
  unfold is_operand in Hd. destruct (is_char "-" a) eqn:Ha.
  - apply is_char_eq in Ha. subst a. unfold three_operand_line.
    replace (m +:+ " " +:+ r1 +:+ ", " +:+ r2 +:+ ", " +:+ String "-" w)
      with (m +:+ (" " +:+ r1 +:+ ", " +:+ r2 +:+ ", -") +:+ w)
      by (rewrite !append_assoc; reflexivity).
    apply TrimSpace_ends; assumption.
  - apply TrimSpace_line; assumption.
Qed.

Lemma in_list_cases (x : string) (l : list string) (P : string -> Prop) :
  Contains l x = true -> Forall P l -> P x.
Proof.
  unfold Contains. intros H Hall. apply existsb_exists in H as (y & Hy & He).
  apply String.eqb_eq in He. subst y.
  rewrite Forall_forall in Hall. apply Hall. apply list_elem_of_In. exact Hy.
Qed.

Lemma threePt_names m :
  Contains threePtInstrTypes m = true ->
  is_word m = true /\ exists op, lookup_table instrToThreePtOp m = Some op.
Proof.
  intros H. apply (in_list_cases m threePtInstrTypes); [exact H|].
  unfold threePtInstrTypes. repeat constructor; eexists; reflexivity.
Qed.

Lemma threePtImm_names m :
  Contains threePtImmInstrTypes m = true ->
  is_word m = true /\ Contains threePtInstrTypes m = false
  /\ exists op, lookup_table instrToThreePtImmOp m = Some op.
Proof.
  intros H. apply (in_list_cases m threePtImmInstrTypes); [exact H|].
  unfold threePtImmInstrTypes.
  repeat constructor; eexists; reflexivity.
Qed.

(** The result of an instruction that assigns the value of [r], if there
    is one, to the register [rd]. *)
Definition assigned_result (rd : Z) (r : result Z) (cpu : CPU)
    : result (unit * CPU) :=
  if rd =? 0 then Ok (tt, assigned rd 0 cpu)
  else match r with
       | Ok v => Ok (tt, assigned rd v cpu)
       | Panic f => Panic f
       end.

Lemma when_rd_assigned_result rd (r : result Z) (value : M Z) cpu :
  0 <= rd < len (Registers cpu) ->
  value cpu = match r with Ok v => Ok (v, cpu) | Panic f => Panic f end ->
  bind (when_rd rd (assign rd value)) (fun _ => addPC 4) cpu
  = assigned_result rd r cpu.
Proof.
  intros Hrd Hv. unfold bind, when_rd, assigned_result, assigned.
  destruct (rd =? 0); cbn; [reflexivity|].
  unfold assign, bind. rewrite Hv. destruct r as [v|f]; [|reflexivity].
  rewrite writeReg_in_range by assumption. reflexivity.
Qed.

(** A line [m rd, rs1, rs2] with a mnemonic of the register-register
    family and three register names decodes to the instruction with the
    operation of the table, and its execution assigns the value of the
    operation on the two source registers to [rd] and goes to the next
    line; a fault of the operation is a fault of the instruction, unless
    [rd] is register 0. *)
Theorem three_register_line m rd rs1 rs2 nd n1 n2 cpu a b :
  Contains threePtInstrTypes m = true ->
  getRegisterNumber rd = Ok nd ->
  getRegisterNumber rs1 = Ok n1 ->
  getRegisterNumber rs2 = Ok n2 ->
  length (Registers cpu) = 32%nat ->
  Registers cpu !! Z.to_nat n1 = Some a ->
  Registers cpu !! Z.to_nat n2 = Some b ->
  exists op instr,
    lookup_table instrToThreePtOp m = Some op
    /\ DecodeInstr (three_operand_line m rd rs1 rs2) = Ok instr
    /\ Operate instr cpu = assigned_result nd (op a b) cpu.
Proof.
  intros Hm Hrd H1 H2 Hlen Ha Hb.
  destruct (threePt_names m Hm) as (Hwm & op & Hop).
  pose proof (register_name_word _ _ Hrd) as Hwd.
  pose proof (register_name_word _ _ H1) as Hw1.
  pose proof (register_name_word _ _ H2) as Hw2.
  pose proof (register_number_range _ _ Hrd) as Hnd.
  pose proof (register_number_range _ _ H1) as Hn1.
  pose proof (register_number_range _ _ H2) as Hn2.
  exists op, (InstrThreePt nd n1 n2 op). split; [exact Hop|]. split.
  - unfold DecodeInstr.
    rewrite TrimSpace_line, first_token_three by auto.
    rewrite Hm. unfold matched.
    destruct (threePtRe_tokens m rd rs1 rs2) as (w & Hw); auto.
    rewrite Hw. cbn [length Nat.eqb drop]. unfold parseThreePt.
    cbn [index lookup list_lookup rbind]. rewrite Hop.
    rewrite Hrd. cbn [rbind]. rewrite H1. cbn [rbind]. rewrite H2. reflexivity.
  - cbn [Operate]. apply when_rd_assigned_result.
    + rewrite len_registers by assumption. lia.
    + unfold bind. rewrite (readReg_ok n1 a), (readReg_ok n2 b)
        by (assumption || lia).
      unfold lift. destruct (op a b); reflexivity.
Qed.

Lemma three_register_line_witness :
  exists op instr,
    lookup_table instrToThreePtOp "sub" = Some op
    /\ DecodeInstr "sub t0, sp, ra" = Ok instr
    /\ Operate instr (NewCPU 64) = assigned_result 5 (op 64 0) (NewCPU 64).
Proof.
  apply (three_register_line "sub" "t0" "sp" "ra" 5 2 1 (NewCPU 64) 64 0);
    reflexivity.
Defined.

(** A line [m rd, rs1, imm] with a mnemonic of the register-immediate
    family, two register names and a decimal immediate with or without
    minus sign decodes to the instruction with the operation of the table
    and the immediate cut to 32 bits, and its execution assigns the value
    of the operation on the source register and the immediate to [rd]. *)
Theorem register_immediate_line m rd rs1 imm nd n1 v cpu a :
  Contains threePtImmInstrTypes m = true ->
  getRegisterNumber rd = Ok nd ->
  getRegisterNumber rs1 = Ok n1 ->
  is_operand imm = true ->
  Atoi imm = Some v ->
  length (Registers cpu) = 32%nat ->
  Registers cpu !! Z.to_nat n1 = Some a ->
  exists op instr,
    lookup_table instrToThreePtImmOp m = Some op
    /\ DecodeInstr (three_operand_line m rd rs1 imm) = Ok instr
    /\ Operate instr cpu = assigned_result nd (op a (int32 v)) cpu.
Proof.
  intros Hm Hrd H1 Himm Hv Hlen Ha.
  destruct (threePtImm_names m Hm) as (Hwm & Hnot & op & Hop).
  pose proof (register_name_word _ _ Hrd) as Hwd.
  pose proof (register_name_word _ _ H1) as Hw1.
  pose proof (register_number_range _ _ Hrd) as Hnd.
  pose proof (register_number_range _ _ H1) as Hn1.
  exists op, (InstrThreePtImm nd n1 (int32 v) op). split; [exact Hop|]. split.
  - unfold DecodeInstr.
    rewrite TrimSpace_operand, first_token_three by auto.
    rewrite Hnot, Hm. unfold matched.
    destruct (threePtRe_tokens_operand m rd rs1 imm) as (w & Hw); auto.
    rewrite Hw. cbn [length Nat.eqb drop]. unfold parseThreePtImm.
    cbn [index lookup list_lookup rbind]. rewrite Hop.
    rewrite Hrd. cbn [rbind]. rewrite H1. cbn [rbind].
    unfold parseImm. rewrite Hv. reflexivity.
  - cbn [Operate]. apply when_rd_assigned_result.
    + rewrite len_registers by assumption. lia.
    + unfold bind. rewrite (readReg_ok n1 a) by (assumption || lia).
      unfold lift. destruct (op a (int32 v)); reflexivity.
Qed.

Lemma register_immediate_line_witness :
  exists op instr,
    lookup_table instrToThreePtImmOp "addi" = Some op
    /\ DecodeInstr "addi sp, sp, -16" = Ok instr
    /\ Operate instr (NewCPU 64) = assigned_result 2 (op 64 (-16)) (NewCPU 64).
Proof.
  apply (register_immediate_line "addi" "sp" "sp" "-16" 2 2 (-16)
           (NewCPU 64) 64);
    reflexivity.
Defined.

(** ** Division *)




(** ** Destinations of a branch *)

Lemma is_identifier_operand L : is_identifier L = true -> is_operand L = true.
Proof.
  intros H. pose proof (is_identifier_word L H) as Hw.
  destruct L as [|a w]; [discriminate|]. unfold is_operand.
  simpl in H. apply andb_true_iff in H as [H _].
  apply andb_true_iff in H as [Ha _].
  destruct (word_class a Ha) as (_ & _ & _ & -> & _). exact Hw.
Qed.

(** The tests of the three-operand branches, as the closures of
    [instrToBranchThreeOp] hand them to [trueOrNext]. *)
Definition branchThreeTests : list (string * (Z -> Z -> bool)) :=
  [ ("beq", fun rs1 rs2 => rs1 =? rs2);
    ("bne", fun rs1 rs2 => negb (rs1 =? rs2));
    ("blt", fun rs1 rs2 => rs1 <? rs2);
    ("bltu", fun rs1 rs2 => uint32 rs1 <? uint32 rs2);
    ("bgt", fun rs1 rs2 => rs1 >? rs2);
    ("bgtu", fun rs1 rs2 => uint32 rs1 >? uint32 rs2);
    ("ble", fun rs1 rs2 => rs1 <=? rs2);
    ("bleu", fun rs1 rs2 => uint32 rs1 <=? uint32 rs2);
    ("bge", fun rs1 rs2 => rs1 >=? rs2);
    ("bgeu", fun rs1 rs2 => uint32 rs1 >=? uint32 rs2) ].

(** The table of the operations is the table of the tests, each one
    handed to [trueOrNext]. *)
Lemma instrToBranchThreeOp_tests :
  instrToBranchThreeOp
  = map (fun entry =>
           (fst entry,
            fun rs1 rs2 destination =>
              trueOrNext (snd entry rs1 rs2) destination))
        branchThreeTests.
Proof. reflexivity. Qed.

(** A mnemonic with a test is one of the ten three-operand branches: the
    tests of [DecodeInstr] for the earlier families fail, the one for the
    branches holds, and the operation is the test handed to
    [trueOrNext]. *)
Lemma branchThree_names m test :
  lookup_table branchThreeTests m = Some test ->
  is_word m = true
  /\ Contains threePtInstrTypes m = false
  /\ Contains threePtImmInstrTypes m = false
  /\ Contains loadImmInstrTypes m = false
  /\ Contains loadInstrTypes m = false
  /\ Contains storeInstrTypes m = false
  /\ Contains branchThreeInstrTypes m = true
  /\ lookup_table instrToBranchThreeOp m
     = Some (fun rs1 rs2 destination => trueOrNext (test rs1 rs2) destination).
Proof.
  unfold branchThreeTests. cbn [lookup_table]. intros H.
  repeat
    lazymatch type of H with
    | (if String.eqb ?k m then _ else _) = Some _ =>
        destruct (String.eqb_spec k m) as [<-|_];
        [injection H as <-; repeat split; reflexivity|]
    end.
  discriminate H.
Qed.

(** The instruction of a line [m r1, r2, d] of a three-operand branch. *)
Lemma decode_branch_operand m test r1 r2 d n1 n2 :
  lookup_table branchThreeTests m = Some test ->
  getRegisterNumber r1 = Ok n1 -> getRegisterNumber r2 = Ok n2 ->
  is_operand d = true ->
  DecodeInstr (three_operand_line m r1 r2 d)
  = Ok (BranchThreeInstr n1 n2 d
          (fun rs1 rs2 destination => trueOrNext (test rs1 rs2) destination)).
Proof.
  intros Hm H1 H2 Hd.
  destruct (branchThree_names m test Hm)
    as (Hwm & F1 & F2 & F3 & F4 & F5 & Hin & Hop).
  pose proof (register_name_word _ _ H1) as Hw1.
  pose proof (register_name_word _ _ H2) as Hw2.
  unfold DecodeInstr.
  rewrite TrimSpace_operand, first_token_three by auto.
  rewrite F1, F2, F3, F4, F5, Hin. unfold matched.
  destruct (threePtRe_tokens_operand m r1 r2 d) as (w & ->); auto.
  cbn [length Nat.eqb drop]. unfold parseBranchThree.
  cbn [index lookup list_lookup rbind]. rewrite Hop.
  rewrite H1. cbn [rbind]. rewrite H2. reflexivity.
Qed.




(** For each of the ten three-operand branches: a destination that is an
    identifier without entry in the label table is a fault when the test
    of the branch holds, and goes unnoticed when it does not. *)
Theorem branch_undefined_label m test r1 r2 L n1 n2 cpu a b :
  lookup_table branchThreeTests m = Some test ->
  getRegisterNumber r1 = Ok n1 ->
  getRegisterNumber r2 = Ok n2 ->
  is_identifier L = true ->
  Labels cpu !! L = None ->
  readReg n1 cpu = Ok (a, cpu) ->
  readReg n2 cpu = Ok (b, cpu) ->
  exists instr,
    DecodeInstr (three_operand_line m r1 r2 L) = Ok instr
    /\ Operate instr cpu
       = if test a b then Panic InvalidJump
         else Ok (tt, set_PC (uint32 (PC cpu + 4)) cpu).
Proof.
  intros Hm H1 H2 HL Hlab Ha Hb.
  eexists. split.
  { apply (decode_branch_operand m test r1 r2 L n1 n2);
      auto using is_identifier_operand. }
  cbn [Operate]. unfold bind at 1. rewrite Ha.
  unfold bind at 1. rewrite Hb. unfold trueOrNext.
  destruct (test a b); [|reflexivity].
  unfold bind, immOrLabel, bind, get.
  rewrite (Atoi_identifier L HL), Hlab. reflexivity.
Qed.

Lemma branch_undefined_label_witness :
  exists instr,
    DecodeInstr "bltu x1, x2, nowhere" = Ok instr
    /\ Operate instr (NewCPU 16) = Panic InvalidJump
    /\ exists instr',
        DecodeInstr "bne x1, x3, nowhere" = Ok instr'
        /\ Operate instr' (NewCPU 16) = Ok (tt, set_PC 20 (NewCPU 16)).
Proof.
  destruct (branch_undefined_label "bltu"
              (fun rs1 rs2 => uint32 rs1 <? uint32 rs2)
              "x1" "x2" "nowhere" 1 2 (NewCPU 16) 0 16
              eq_refl eq_refl eq_refl eq_refl eq_refl eq_refl eq_refl)
    as (i1 & Hd1 & Ho1).
  destruct (branch_undefined_label "bne"
              (fun rs1 rs2 => negb (rs1 =? rs2))
              "x1" "x3" "nowhere" 1 3 (NewCPU 16) 0 0
              eq_refl eq_refl eq_refl eq_refl eq_refl eq_refl eq_refl)
    as (i2 & Hd2 & Ho2).
  exists i1. split; [exact Hd1|]. split; [exact Ho1|].
  exists i2. split; [exact Hd2|exact Ho2].
Defined.

(** ** What a run leaves unchanged *)

(** The parts of the state that no instruction changes, and the memory
    history, to which an instruction only adds entries at the front. *)
Definition shape (cpu cpu' : CPU) : Prop :=
  length (Registers cpu') = length (Registers cpu)
  /\ length (Memory cpu') = length (Memory cpu)
  /\ MemorySize cpu' = MemorySize cpu
  /\ entryPoint cpu' = entryPoint cpu
  /\ instructions cpu' = instructions cpu
  /\ Labels cpu' = Labels cpu
  /\ exists entries, MemoryHistory cpu' = entries ++ MemoryHistory cpu.

Lemma shape_refl cpu : shape cpu cpu.
Proof. unfold shape. repeat split. exists []. reflexivity. Qed.

Lemma shape_trans c1 c2 c3 : shape c1 c2 -> shape c2 c3 -> shape c1 c3.
Proof.
  unfold shape.
  intros (? & ? & ? & ? & ? & ? & e1 & He1) (? & ? & ? & ? & ? & ? & e2 & He2).
  repeat split; try congruence.
  exists (e2 ++ e1). rewrite He2, He1. apply app_assoc.
Qed.

Lemma shape_of_keeps_history cpu entry :
  shape cpu (set_MemoryHistory (entry :: MemoryHistory cpu) cpu).
Proof. unfold shape. cbn. repeat split. exists [entry]. reflexivity. Qed.

Lemma shape_record_history entry : preserves shape (record_history entry).
Proof. apply preserves_modify. intros cpu. apply shape_of_keeps_history. Qed.

Lemma shape_addPC d : preserves shape (addPC d).
Proof.
  apply preserves_modify. intros cpu. unfold shape. cbn. repeat split.
  exists []. reflexivity.
Qed.

Lemma shape_set_PC v : preserves shape (modify (set_PC v)).
Proof.
  apply preserves_modify. intros cpu. unfold shape. cbn. repeat split.
  exists []. reflexivity.
Qed.

Lemma shape_set_Done v cpu : shape cpu (set_Done v cpu).
Proof. unfold shape. cbn. repeat split. exists []. reflexivity. Qed.

Lemma shape_readReg i : preserves shape (readReg i).
Proof.
  intros cpu a cpu'. unfold readReg.
  destruct (i <? 0); [discriminate|].
  destruct (Registers cpu !! Z.to_nat i); [|discriminate].
  intros [= _ <-]. apply shape_refl.
Qed.

Lemma shape_writeReg rd v : preserves shape (writeReg rd v).
Proof.
  intros cpu a cpu'. unfold writeReg.
  destruct ((rd <? 0) || (len (Registers cpu) <=? rd)); [discriminate|].
  intros [= _ <-]. unfold shape. cbn -[length insert].
  rewrite length_insert. repeat split. exists []. reflexivity.
Qed.

Lemma shape_immOrLabel destination : preserves shape (immOrLabel destination).
Proof.
  intros cpu a cpu' H. apply keeps_immOrLabel in H as Hk.
  unfold immOrLabel, bind, get in H.
  destruct (Atoi destination); [injection H as _ <-; apply shape_refl|].
  destruct (Labels cpu !! destination); [|discriminate].
  injection H as _ <-. apply shape_refl.
Qed.

#[local] Hint Resolve shape_refl shape_record_history shape_addPC shape_set_PC
  shape_readReg shape_writeReg shape_immOrLabel : frame.

Ltac frame_shape :=
  unfold when_rd, assign, trueOrNext;
  repeat frame_step shape_refl shape_trans.

Lemma shape_loadWord address : preserves shape (loadWord address).
Proof.
  unfold loadWord. apply preserves_bind; [apply shape_trans|frame_shape|].
  intros cpu. destruct (checkMemoryAccess cpu address); frame_shape.
Qed.

Lemma shape_loadHalf address : preserves shape (loadHalf address).
Proof.
  unfold loadHalf. apply preserves_bind; [apply shape_trans|frame_shape|].
  intros cpu. destruct (checkMemoryAccess cpu address); frame_shape.
Qed.

Lemma shape_loadByte address : preserves shape (loadByte address).
Proof.
  unfold loadByte. apply preserves_bind; [apply shape_trans|frame_shape|].
  intros cpu. destruct (checkMemoryAccess cpu address); [frame_shape|].
  destruct (Memory cpu !! Z.to_nat address); frame_shape.
Qed.

(** A write through a slice of the memory keeps the length of the memory:
    the bytes that [PutUint32] and [PutUint16] give are as many as the slice
    has. *)
Lemma length_write (mem : list Z) n (b rest : list Z) (b' : list Z) :
  drop n mem = b ++ rest -> length b' = length b ->
  length (take n mem ++ b' ++ rest) = length mem.
Proof.
  intros Hd Hb. rewrite <- (take_drop n mem) at 2.
  rewrite Hd, !length_app, Hb. reflexivity.
Qed.

Lemma shape_storeWord address value : preserves shape (storeWord address value).
Proof.
  intros cpu a cpu' H. unfold storeWord in H. munfold.
  destruct (checkMemoryAccess cpu address);
    [injection H as _ <-; apply shape_refl|].
  cbn in H. destruct (slice_from (Memory cpu) address) as [b|] eqn:Hs;
    [|discriminate].
  unfold slice_from in Hs. destruct (address <=? len (Memory cpu));
    [|discriminate]. injection Hs as <-.
  destruct (drop (Z.to_nat address) (Memory cpu))
    as [|b0 [|b1 [|b2 [|b3 rest]]]] eqn:Hd; try discriminate.
  cbn in H. injection H as _ <-. unfold shape. cbn -[length]. repeat split.
  - apply (length_write _ _ [b0; b1; b2; b3] rest [_; _; _; _] Hd). reflexivity.
  - eexists [_]. reflexivity.
Qed.

Lemma shape_storeHalf address value : preserves shape (storeHalf address value).
Proof.
  intros cpu a cpu' H. unfold storeHalf in H. munfold.
  destruct (checkMemoryAccess cpu address);
    [injection H as _ <-; apply shape_refl|].
  cbn in H. destruct (slice_from (Memory cpu) address) as [b|] eqn:Hs;
    [|discriminate].
  unfold slice_from in Hs. destruct (address <=? len (Memory cpu));
    [|discriminate]. injection Hs as <-.
  destruct (drop (Z.to_nat address) (Memory cpu))
    as [|b0 [|b1 rest]] eqn:Hd; try discriminate.
  cbn in H. injection H as _ <-. unfold shape. cbn -[length]. repeat split.
  - apply (length_write _ _ [b0; b1] rest [_; _] Hd). reflexivity.
  - eexists [_]. reflexivity.
Qed.

Lemma shape_storeByte address value : preserves shape (storeByte address value).
Proof.
  intros cpu a cpu' H. unfold storeByte in H. munfold.
  destruct (checkMemoryAccess cpu address);
    [injection H as _ <-; apply shape_refl|].
  cbn in H. destruct (address <? len (Memory cpu)); [|discriminate].
  injection H as _ <-. unfold shape. cbn -[length insert].
  rewrite length_insert. repeat split. eexists [_]. reflexivity.
Qed.

#[local] Hint Resolve shape_loadWord shape_loadHalf shape_loadByte
  shape_storeWord shape_storeHalf shape_storeByte : frame.

Lemma shape_LoadImmOp name op imm :
  lookup_table instrToLoadImmOp name = Some op -> preserves shape (op imm).
Proof. intros H. table_cases H; frame_shape. Qed.

Lemma shape_LoadOp name op rs1_val imm :
  lookup_table instrToLoadOp name = Some op -> preserves shape (op rs1_val imm).
Proof. intros H. table_cases H; frame_shape. Qed.

Lemma shape_StoreOp name op rs1_val rs2_val imm :
  lookup_table instrToStoreOp name = Some op ->
  preserves shape (op rs1_val rs2_val imm).
Proof. intros H. table_cases H; frame_shape. Qed.

Lemma shape_BranchThreeOp name op rs1 rs2 destination :
  lookup_table instrToBranchThreeOp name = Some op ->
  preserves shape (op rs1 rs2 destination).
Proof. intros H. table_cases H; frame_shape. Qed.

Lemma shape_BranchTwoOp name op rs1 destination :
  lookup_table instrToBranchTwoOp name = Some op ->
  preserves shape (op rs1 destination).
Proof. intros H. table_cases H; frame_shape. Qed.

Lemma Operate_shape instr : from_tables instr -> preserves shape (Operate instr).
Proof.
  destruct instr; cbn [from_tables Operate]; intros H;
    try (lazymatch type of H with ex _ => destruct H as [name H] end);
    try (pose proof (fun imm => shape_LoadImmOp _ _ imm H));
    try (pose proof (fun a imm => shape_LoadOp _ _ a imm H));
    try (pose proof (fun a b imm => shape_StoreOp _ _ a b imm H));
    try (pose proof (fun a b d => shape_BranchThreeOp _ _ a b d H));
    try (pose proof (fun a d => shape_BranchTwoOp _ _ a d H));
    frame_shape.
Qed.

Lemma step_shape cpu cpu' : RunNextInstruction cpu = Ok (tt, cpu') -> shape cpu cpu'.
Proof.
  intros H. destruct (out_of_bounds cpu) eqn:Hb.
  - rewrite (step_out_of_bounds cpu Hb) in H. injection H as <-.
    apply shape_set_Done.
  - destruct (step_in_bounds cpu cpu' Hb H) as (line & instr & _ & Hd & Hop).
    eapply Operate_shape; [eapply DecodeInstr_from_tables|]; eassumption.
Qed.

Lemma steps_shape k cpu cpu' : steps k cpu = Ok cpu' -> shape cpu cpu'.
Proof.
  revert cpu. induction k as [|k IH]; intros cpu Hs.
  - injection Hs as <-. apply shape_refl.
  - simpl in Hs.
    destruct (RunNextInstruction cpu) as [[[] cpu1]|] eqn:H1; [|discriminate].
    eapply shape_trans; [apply step_shape, H1|apply IH, Hs].
Qed.

(** The result of the loop of [RunProgram] is a state that single steps
    reach, and in which [Done] is set. *)
Lemma RunLoop_steps fuel cpu c :
  RunLoop fuel cpu = Some (Ok c) ->
  exists k, steps k cpu = Ok c /\ Done c = true.
Proof.
  revert cpu. induction fuel as [|fuel IH]; intros cpu; simpl.
  - destruct (Done cpu) eqn:Hd; [|discriminate].
    intros [= <-]. exists 0%nat. auto.
  - destruct (Done cpu) eqn:Hd.
    + intros [= <-]. exists 0%nat. auto.
    + destruct (RunNextInstruction cpu) as [[[] cpu1]|] eqn:H1; [|discriminate].
      intros H. destruct (IH cpu1 H) as (k & Hk & Hdone).
      exists (S k). simpl. rewrite H1. auto.
Qed.

(** However many instructions are executed, and whichever they are, the
    program, the label table, the entry point, the recorded memory size, the
    number of registers and the size of the memory stay as they are, and
    the memory history keeps all its entries: new ones are put in front. *)
Theorem steps_keep_shape k cpu cpu' :
  steps k cpu = Ok cpu' ->
  instructions cpu' = instructions cpu
  /\ Labels cpu' = Labels cpu
  /\ entryPoint cpu' = entryPoint cpu
  /\ MemorySize cpu' = MemorySize cpu
  /\ length (Registers cpu') = length (Registers cpu)
  /\ length (Memory cpu') = length (Memory cpu)
  /\ exists entries, MemoryHistory cpu' = entries ++ MemoryHistory cpu.
Proof.
  intros H. apply steps_shape in H. unfold shape in H. tauto.
Qed.

(** The program of the test [TestStore], loaded. *)
Definition store_word_cpu : CPU :=
  LoadInstructions ["li x1, 12345678"; "sw x1, 0(x0)"] (NewCPU 16).

Definition store_word_cpu2 : CPU :=
  match steps 2 store_word_cpu with
  | Ok c => c
  | Panic _ => store_word_cpu
  end.

Lemma steps_keep_shape_witness :
  steps 2 store_word_cpu = Ok store_word_cpu2
  /\ length (Memory store_word_cpu2) = 16%nat
  /\ exists entries, MemoryHistory store_word_cpu2 = entries ++ [].
Proof.
  assert (steps 2 store_word_cpu = Ok store_word_cpu2) as H
    by (vm_compute; reflexivity).
  split; [exact H|].
  destruct (steps_keep_shape 2 store_word_cpu store_word_cpu2 H)
    as (_ & _ & _ & _ & _ & Hm & Hh).
  split; [exact Hm|exact Hh].
Defined.

(** When [RunProgram] returns, the program counter is back at 16 and
    [Done] is false, whatever the program did, and the parts of the state
    that no instruction changes are those of the state it started from. *)
Theorem RunProgram_returns fuel cpu final :
  RunProgram fuel cpu = Some (Ok final) ->
  PC final = 16 /\ Done final = false
  /\ instructions final = instructions cpu
  /\ Labels final = Labels cpu
  /\ length (Registers final) = length (Registers cpu)
  /\ length (Memory final) = length (Memory cpu)
  /\ exists k c_end,
      steps k cpu = Ok c_end /\ Done c_end = true
      /\ Registers final = Registers c_end /\ Memory final = Memory c_end.
Proof.
  unfold RunProgram.
  destruct (RunLoop fuel cpu) as [[c|f]|] eqn:Hl; try discriminate.
  intros [= <-].
  destruct (RunLoop_steps fuel cpu c Hl) as (k & Hk & Hd).
  pose proof (steps_shape k cpu c Hk) as (HR & HM & _ & _ & HI & HL & _).
  cbn. repeat split; try assumption.
  exists k, c. auto.
Qed.

Lemma RunProgram_returns_witness :
  exists final,
    RunProgram 3 store_word_cpu = Some (Ok final)
    /\ PC final = 16 /\ Done final = false.
Proof.
  assert (RunProgram 3 store_word_cpu
          = Some (Ok (set_Done false (set_PC 16 (set_Done true store_word_cpu2)))))
    as H by (vm_compute; reflexivity).
  eexists. split; [exact H|].
  destruct (RunProgram_returns 3 store_word_cpu _ H) as (H1 & H2 & _).
  split; [exact H1|exact H2].
Defined.

(** ** The registers that an instruction leaves alone *)

Definition keeps_at (i : nat) (cpu cpu' : CPU) : Prop :=
  Registers cpu' !! i = Registers cpu !! i.

Lemma keeps_at_refl i cpu : keeps_at i cpu cpu.
Proof. reflexivity. Qed.

Lemma keeps_at_trans i c1 c2 c3 :
  keeps_at i c1 c2 -> keeps_at i c2 c3 -> keeps_at i c1 c3.
Proof. unfold keeps_at. congruence. Qed.

Lemma keeps_at_of_keeps {A : Type} i (m : M A) :
  preserves keeps m -> preserves (keeps_at i) m.
Proof.
  intros H cpu a cpu' Hm. destruct (H cpu a cpu' Hm) as (HR & _).
  unfold keeps_at. rewrite HR. reflexivity.
Qed.

Lemma keeps_at_writeReg i rd v :
  i <> Z.to_nat rd -> preserves (keeps_at i) (writeReg rd v).
Proof.
  intros Hne cpu a cpu'. unfold writeReg.
  destruct ((rd <? 0) || (len (Registers cpu) <=? rd)); [discriminate|].
  intros [= _ <-]. unfold keeps_at. cbn -[insert].
  apply list_lookup_insert_ne. congruence.
Qed.

Ltac frame_at Hne :=
  unfold when_rd, assign;
  repeat first
    [ solve [apply keeps_at_of_keeps; frame]
    | apply keeps_at_writeReg; exact Hne
    | frame_step keeps_at_refl keeps_at_trans ].

(** An instruction with a destination register changes no other
    register. *)
Theorem Operate_register_frame instr rd value cpu cpu' (i : nat) :
  from_tables instr ->
  writes instr = Some (rd, value) ->
  Operate instr cpu = Ok (tt, cpu') ->
  i <> Z.to_nat rd ->
  Registers cpu' !! i = Registers cpu !! i.
Proof.
  intros Ht Hw Hop Hne.
  assert (preserves (keeps_at i) (Operate instr)) as Hp; [|exact (Hp _ _ _ Hop)].
  clear Hop.
  destruct instr; cbn [writes] in Hw; try discriminate Hw;
    injection Hw as -> _; cbn [from_tables Operate] in *;
    try (lazymatch type of Ht with ex _ => destruct Ht as [name Ht] end);
    try (pose proof (fun imm => keeps_LoadImmOp _ _ imm Ht));
    try (pose proof (fun a imm => keeps_LoadOp _ _ a imm Ht));
    frame_at Hne.
Qed.

(** The instruction of [addi x5, x2, 1]. *)
Definition addi_x5 : Instr :=
  match DecodeInstr "addi x5, x2, 1" with
  | Ok instr => instr
  | Panic _ => NoOp ""
  end.

Lemma Operate_register_frame_witness :
  exists cpu',
    Operate addi_x5 (NewCPU 16) = Ok (tt, cpu')
    /\ Registers cpu' !! 5%nat = Some 17
    /\ Registers cpu' !! 2%nat = Registers (NewCPU 16) !! 2%nat.
Proof.
  eexists. split; [vm_compute; reflexivity|]. split; [reflexivity|].
  eapply (Operate_register_frame addi_x5 5 _ (NewCPU 16) _ 2).
  - exact I.
  - reflexivity.
  - vm_compute. reflexivity.
  - discriminate.
Defined.

(** ** The bytes that a store leaves alone *)

Lemma lookup_write (mem : list Z) n (b rest b' : list Z) (i : nat) :
  drop n mem = b ++ rest -> length b' = length b -> (n <= length mem)%nat ->
  (i < n)%nat \/ (n + length b <= i)%nat ->
  (take n mem ++ b' ++ rest) !! i = mem !! i.
Proof.
  intros Hd Hb Hn Hi. rewrite <- (take_drop n mem) at 2. rewrite Hd.
  assert (length (take n mem) = n) as Hl by (rewrite length_take; lia).
  destruct Hi as [Hi|Hi].
  - rewrite !lookup_app_l by lia. reflexivity.
  - rewrite !(lookup_app_r (take n mem)) by lia.
    rewrite !lookup_app_r by lia. rewrite Hb. reflexivity.
Qed.

Lemma drop_nonempty (mem : list Z) n x l :
  drop n mem = x :: l -> (n <= length mem)%nat.
Proof.
  intros Hd. pose proof (length_drop mem n) as H. rewrite Hd in H.
  simpl in H. lia.
Qed.

Lemma storeWord_local A V cpu cpu' (i : nat) :
  0 <= A ->
  storeWord A V cpu = Ok (tt, cpu') ->
  Z.of_nat i < A \/ A + 4 <= Z.of_nat i ->
  Memory cpu' !! i = Memory cpu !! i.
Proof.
  intros HA H Hi. unfold storeWord in H. munfold.
  destruct (checkMemoryAccess cpu A); [injection H as <-; reflexivity|].
  cbn in H. unfold slice_from in H.
  destruct (A <=? len (Memory cpu)); [|discriminate].
  destruct (drop (Z.to_nat A) (Memory cpu))
    as [|b0 [|b1 [|b2 [|b3 rest]]]] eqn:Hd; try discriminate.
  cbn in H. injection H as <-. cbn -[lookup].
  apply (lookup_write _ _ [b0; b1; b2; b3] rest [_; _; _; _] i Hd);
    [reflexivity|eapply drop_nonempty, Hd|simpl; lia].
Qed.

Lemma storeHalf_local A V cpu cpu' (i : nat) :
  0 <= A ->
  storeHalf A V cpu = Ok (tt, cpu') ->
  Z.of_nat i < A \/ A + 2 <= Z.of_nat i ->
  Memory cpu' !! i = Memory cpu !! i.
Proof.
  intros HA H Hi. unfold storeHalf in H. munfold.
  destruct (checkMemoryAccess cpu A); [injection H as <-; reflexivity|].
  cbn in H. unfold slice_from in H.
  destruct (A <=? len (Memory cpu)); [|discriminate].
  destruct (drop (Z.to_nat A) (Memory cpu))
    as [|b0 [|b1 rest]] eqn:Hd; try discriminate.
  cbn in H. injection H as <-. cbn -[lookup].
  apply (lookup_write _ _ [b0; b1] rest [_; _] i Hd);
    [reflexivity|eapply drop_nonempty, Hd|simpl; lia].
Qed.

Lemma storeByte_local A V cpu cpu' (i : nat) :
  0 <= A ->
  storeByte A V cpu = Ok (tt, cpu') ->
  Z.of_nat i < A \/ A + 1 <= Z.of_nat i ->
  Memory cpu' !! i = Memory cpu !! i.
Proof.
  intros HA H Hi. unfold storeByte in H. munfold.
  destruct (checkMemoryAccess cpu A); [injection H as <-; reflexivity|].
  cbn in H. destruct (A <? len (Memory cpu)); [|discriminate].
  injection H as <-. cbn -[lookup insert].
  apply list_lookup_insert_ne. lia.
Qed.

(** The number of bytes that a store instruction writes. *)
Definition store_width (name : string) : Z :=
  if String.eqb name "sw" then 4 else if String.eqb name "sh" then 2 else 1.

(** A store changes the bytes at its address only: [sw] four of them, [sh]
    two and [sb] one; every other byte of the memory is as it was, and so
    are the registers and the program counter. *)
Theorem store_is_local name op base imm V cpu cpu' (i : nat) :
  lookup_table instrToStoreOp name = Some op ->
  op base V imm cpu = Ok (tt, cpu') ->
  Z.of_nat i < uint32 (int32 (imm + base))
  \/ uint32 (int32 (imm + base)) + store_width name <= Z.of_nat i ->
  Memory cpu' !! i = Memory cpu !! i
  /\ Registers cpu' = Registers cpu.
Proof.
  intros Ht Hop Hi. split.
  - unfold instrToStoreOp in Ht. cbn [lookup_table] in Ht. unfold store_width in Hi.
    destruct (String.eqb_spec "sw" name) as [<-|].
    { injection Ht as <-.
      eapply storeWord_local; [apply uint32_range|exact Hop|exact Hi]. }
    destruct (String.eqb_spec "sh" name) as [<-|].
    { injection Ht as <-.
      eapply storeHalf_local; [apply uint32_range|exact Hop|exact Hi]. }
    destruct (String.eqb_spec "sb" name) as [<-|]; [|discriminate].
    injection Ht as <-.
    eapply storeByte_local; [apply uint32_range|exact Hop|exact Hi].
  - apply (keeps_StoreOp name op base V imm Ht) in Hop as (HR & _). exact HR.
Qed.

(** A memory of 16 bytes that are all 255. *)
Definition full_memory_cpu : CPU := set_Memory (replicate 16 255) (NewCPU 16).

Lemma store_is_local_witness :
  exists op cpu',
    lookup_table instrToStoreOp "sh" = Some op
    /\ op 4 0 0 full_memory_cpu = Ok (tt, cpu')
    /\ Memory cpu' !! 4%nat = Some 0
    /\ Memory cpu' !! 5%nat = Some 0
    /\ Memory cpu' !! 6%nat = Memory full_memory_cpu !! 6%nat.
Proof.
  eexists. eexists. split; [reflexivity|].
  split; [vm_compute; reflexivity|]. split; [reflexivity|]. split; [reflexivity|].
  refine (proj1 (store_is_local "sh" _ 4 0 0 full_memory_cpu _ 6 eq_refl _ _)).
  - vm_compute. reflexivity.
  - right. vm_compute. discriminate.
Defined.

(** ** The line that the interface shows *)

(** [GetCurrInstr] gives the line that the next step fetches, and the empty
    text when the next step would end the run instead of executing a
    line. *)
Theorem GetCurrInstr_is_next cpu :
  is_uint32 (PC cpu) ->
  len (instructions cpu) <= 2 ^ 30 - 4 ->
  if out_of_bounds cpu then GetCurrInstr cpu = ""
  else instructions cpu !! Z.to_nat (instr_num cpu) = Some (GetCurrInstr cpu).
Proof.
  intros HPC Hlen. unfold GetCurrInstr. cbn zeta.
  destruct (out_of_bounds cpu) eqn:Hb.
  - unfold out_of_bounds in Hb. apply orb_true_iff in Hb as [Hb|Hb].
    + apply Z.ltb_lt in Hb.
      assert (2 ^ 30 - 4 <= instr_num cpu) as Hn.
      { unfold instr_num, uint32, is_uint32 in *.
        replace (PC cpu - 16) with (PC cpu - 16 + 2 ^ 32 + (-1) * 2 ^ 32) by lia.
        rewrite Z.mod_add by lia. rewrite Z.mod_small by lia.
        assert (2 ^ 30 - 4 <= (PC cpu - 16 + 2 ^ 32) / 4)
          by (apply Z.div_le_lower_bound; lia).
        assert ((PC cpu - 16 + 2 ^ 32) / 4 < 2 ^ 32)
          by (apply Z.div_lt_upper_bound; lia).
        rewrite int_id by lia. assumption. }
      destruct (Z.ltb_spec (instr_num cpu) (len (instructions cpu)));
        [lia|reflexivity].
    + destruct (Z.gtb_spec (instr_num cpu) (len (instructions cpu) - 1));
        [|discriminate].
      destruct (Z.ltb_spec (instr_num cpu) (len (instructions cpu)));
        [lia|reflexivity].
  - destruct (instr_num_in_bounds cpu HPC Hb) as (_ & _ & Hn).
    destruct (Z.ltb_spec (instr_num cpu) (len (instructions cpu))); [|lia].
    destruct (Z.geb_spec (instr_num cpu) 0); [|lia]. cbn [andb].
    destruct (instructions cpu !! Z.to_nat (instr_num cpu)) as [line|] eqn:Hl;
      [reflexivity|].
    apply lookup_ge_None in Hl. unfold len in *. lia.
Qed.

Lemma GetCurrInstr_is_next_witness :
  instructions store_word_cpu !! 0%nat = Some (GetCurrInstr store_word_cpu)
  /\ GetCurrInstr store_word_cpu2 = "".
Proof.
  split.
  - refine (GetCurrInstr_is_next store_word_cpu _ _);
      [unfold is_uint32; change (PC store_word_cpu) with 16; lia
      |vm_compute; discriminate].
  - refine (GetCurrInstr_is_next store_word_cpu2 _ _);
      [vm_compute; split; [discriminate|reflexivity]
      |vm_compute; discriminate].
Defined.

(** ** The commands of the interface *)

(** [main.go]: the program text is loaded again at every command. *)
Definition exectute (fuel : nat) (instrs : list string) (cpu : CPU)
    : option (result CPU) :=
  RunProgram fuel (LoadInstructions instrs cpu).

Definition step (instrs : list string) : M unit := fun cpu =>
  let cpu := LoadInstructions instrs cpu in
  if negb (Done cpu) then RunNextInstruction cpu else Ok (tt, cpu).

(** The command [step] executes the line at the slot of the program
    counter and leaves [Done] false, when the program counter is within the
    program that it is given; otherwise it sets [Done] and changes neither
    registers nor memory nor the program counter. *)
Theorem step_command instrs cpu cpu' :
  is_uint32 (PC cpu) ->
  step instrs cpu = Ok (tt, cpu') ->
  if out_of_bounds (LoadInstructions instrs cpu)
  then Done cpu' = true /\ PC cpu' = PC cpu
       /\ Registers cpu' = Registers cpu /\ Memory cpu' = Memory cpu
  else Done cpu' = false
       /\ exists line instr,
           instrs !! Z.to_nat ((PC cpu - 16) / 4) = Some line
           /\ DecodeInstr line = Ok instr
           /\ Operate instr (LoadInstructions instrs cpu) = Ok (tt, cpu').
Proof.
  intros HPC. unfold step. cbn zeta.
  assert (let c := LoadInstructions instrs cpu in
          Done c = (instr_num cpu >? len instrs - 1) /\ instructions c = instrs
          /\ Registers c = Registers cpu /\ Memory c = Memory cpu
          /\ PC c = PC cpu /\ instr_num c = instr_num cpu)
    as (HD & HI & HR & HM & HP & HN).
  { unfold LoadInstructions.
    destruct (loadLines_frame instrs 0 (set_entryPoint "" cpu))
      as (H1 & H2 & H3 & _).
    cbn in H1, H2, H3.
    set (cpu1 := loadLines 0 instrs (set_entryPoint "" cpu)) in *.
    assert (instr_num (set_instructions instrs cpu1) = instr_num cpu) as HN.
    { unfold instr_num. cbn. rewrite H1. reflexivity. }
    cbn zeta. rewrite HN.
    change (instructions (set_instructions instrs cpu1)) with instrs.
    destruct (instr_num cpu >? len instrs - 1); cbn;
      unfold instr_num; cbn; rewrite ?H1; repeat split; congruence. }
  set (c := LoadInstructions instrs cpu) in *.
  destruct (out_of_bounds c) eqn:Hb.
  - destruct (Done c) eqn:Hd; cbn [negb].
    + intros [= <-]. auto.
    + rewrite (step_out_of_bounds c Hb). intros [= <-]. cbn. auto.
  - assert (is_uint32 (PC c)) as HPc by (rewrite HP; exact HPC).
    destruct (instr_num_in_bounds c HPc Hb) as (_ & Hn & _).
    assert (Done c = false) as Hd.
    { unfold out_of_bounds in Hb. apply orb_false_iff in Hb as [_ Hb].
      rewrite HI, HN in Hb. rewrite HD. exact Hb. }
    rewrite Hd. cbn [negb]. intros H.
    destruct (step_keeps0 c cpu' Hb H) as (_ & Hd' & _).
    destruct (step_in_bounds c cpu' Hb H) as (line & instr & Hl & Hdec & Hop).
    split; [congruence|]. exists line, instr.
    rewrite HI, Hn, HP in Hl. auto.
Qed.

Lemma step_command_witness :
  exists cpu',
    step ["li x1, 4"] (NewCPU 16) = Ok (tt, cpu')
    /\ Done cpu' = false
    /\ exists cpu'',
        step ["li x1, 4"] cpu' = Ok (tt, cpu'')
        /\ Done cpu'' = true /\ Registers cpu'' = Registers cpu'.
Proof.
  assert (step ["li x1, 4"] (NewCPU 16) = Ok (tt, one_line_cpu1)) as H1
    by (vm_compute; reflexivity).
  assert (step ["li x1, 4"] one_line_cpu1
          = Ok (tt, LoadInstructions ["li x1, 4"] one_line_cpu1)) as H2
    by (vm_compute; reflexivity).
  exists one_line_cpu1. split; [exact H1|]. split.
  - refine (proj1 (step_command ["li x1, 4"] (NewCPU 16) one_line_cpu1 _ H1)).
    vm_compute. split; [discriminate|reflexivity].
  - eexists. split; [exact H2|].
    assert (is_uint32 (PC one_line_cpu1)) as HPC
      by (vm_compute; split; [discriminate|reflexivity]).
    destruct (step_command ["li x1, 4"] one_line_cpu1 _ HPC H2)
      as (Hd & _ & HR & _).
    split; [exact Hd|exact HR].
Defined.

(** The command [exectute] given a program that the program counter has
    already left (it was stepped through to its end) executes nothing: it
    only takes the program counter back to 16. *)
Theorem exectute_after_the_end fuel instrs cpu :
  is_uint32 (PC cpu) -> 16 <= PC cpu ->
  len instrs <= (PC cpu - 16) / 4 ->
  exists final,
    exectute fuel instrs cpu = Some (Ok final)
    /\ PC final = 16 /\ Done final = false
    /\ Registers final = Registers cpu /\ Memory final = Memory cpu.
Proof.
  intros HPC H16 Hlen.
  assert ((instr_num cpu >? len instrs - 1) = true) as Hn.
  { unfold instr_num, uint32, is_uint32 in *. rewrite Z.mod_small by lia.
    assert (0 <= (PC cpu - 16) / 4) by (apply Z.div_pos; lia).
    assert ((PC cpu - 16) / 4 < 2 ^ 32) by (apply Z.div_lt_upper_bound; lia).
    rewrite int_id by lia. apply Z.gtb_lt. lia. }
  assert (let c := LoadInstructions instrs cpu in
          Done c = true /\ Registers c = Registers cpu /\ Memory c = Memory cpu)
    as (HD & HR & HM).
  { unfold LoadInstructions.
    destruct (loadLines_frame instrs 0 (set_entryPoint "" cpu))
      as (H1 & H2 & H3 & _).
    cbn in H1, H2, H3.
    set (cpu1 := loadLines 0 instrs (set_entryPoint "" cpu)) in *.
    assert (instr_num (set_instructions instrs cpu1) = instr_num cpu) as HN.
    { unfold instr_num. cbn. rewrite H1. reflexivity. }
    cbn zeta. rewrite HN.
    change (instructions (set_instructions instrs cpu1)) with instrs.
    rewrite Hn. cbn. auto. }
  unfold exectute, RunProgram.
  set (c := LoadInstructions instrs cpu) in *.
  assert (RunLoop fuel c = Some (Ok c)) as ->
    by (destruct fuel; simpl; rewrite HD; reflexivity).
  eexists. split; [reflexivity|]. cbn. auto.
Qed.

Lemma exectute_after_the_end_witness :
  exists final,
    exectute 0 ["li x1, 4"] one_line_cpu1 = Some (Ok final)
    /\ PC final = 16 /\ Done final = false
    /\ Registers final = Registers one_line_cpu1
    /\ Memory final = Memory one_line_cpu1.
Proof.
  apply (exectute_after_the_end 0 ["li x1, 4"] one_line_cpu1).
  - vm_compute. split; [discriminate|reflexivity].
  - vm_compute. discriminate.
  - vm_compute. discriminate.
Defined.

(** ** The names of the registers *)

(** [main.go]: the name that the interface shows beside a register. *)
Definition registerToABI : list (Z * string) :=
  [ (0, "zero"); (1, "ra"); (2, "sp"); (3, "gp"); (4, "tp"); (5, "t0");
    (6, "t1"); (7, "t2"); (8, "fp"); (9, "s1"); (10, "a0"); (11, "a1");
    (12, "a2"); (13, "a3"); (14, "a4"); (15, "a5"); (16, "a6"); (17, "a7");
    (18, "s2"); (19, "s3"); (20, "s4"); (21, "s5"); (22, "s6"); (23, "s7");
    (24, "s8"); (25, "s9"); (26, "s10"); (27, "s11"); (28, "t3"); (29, "t4");
    (30, "t5"); (31, "t6") ].

(** A Go map literal with integer keys; a missing key gives the zero
    value, the empty text. *)
Fixpoint lookup_number (table : list (Z * string)) (key : Z) : string :=
  match table with
  | [] => ""
  | (k, v) :: table' => if k =? key then v else lookup_number table' key
  end.

Lemma register_names_checked :
  forallb (fun i =>
             match getRegisterNumber (lookup_number registerToABI i),
                   getRegisterNumber ("x" +:+ pretty i) with
             | Ok n, Ok n' => (n =? i) && (n' =? i)
             | _, _ => false
             end)
          (seqZ 0 32) = true.
Proof. vm_compute. reflexivity. Qed.

(** The two names under which the interface shows register [i], the
    numbered name and the name of the binary interface, are both names
    that the decoder reads as register [i]. *)
Theorem register_names_round_trip i :
  0 <= i < 32 ->
  getRegisterNumber (lookup_number registerToABI i) = Ok i
  /\ getRegisterNumber ("x" +:+ pretty i) = Ok i.
Proof.
  intros Hi. pose proof register_names_checked as H.
  rewrite forallb_forall in H.
  specialize (H i). cbv beta in H.
  destruct (getRegisterNumber (lookup_number registerToABI i)) as [n|];
    destruct (getRegisterNumber ("x" +:+ pretty i)) as [n'|];
    try (discriminate H; apply list_elem_of_In, elem_of_seqZ; lia).
  assert ((n =? i) && (n' =? i) = true) as Hn
    by (apply H, list_elem_of_In, elem_of_seqZ; lia).
  apply andb_true_iff in Hn as [H1 H2].
  apply Z.eqb_eq in H1, H2. subst. auto.
Qed.

Lemma register_names_round_trip_witness :
  getRegisterNumber "fp" = Ok 8 /\ getRegisterNumber "x8" = Ok 8.
Proof. apply (register_names_round_trip 8). lia. Defined.

(** ** Jumps *)

(** A line [m d] of a mnemonic and a destination, written with one
    space. *)
Definition jump_line (m d : string) : string := m +:+ " " +:+ d.

Lemma cap_opt_back c p a s st cs :
  match_here p s (push a st) = None ->
  captures p (String a s) st cs ->
  captures (Cls c Opt :: p) (String a s) st cs.
Proof.
  intros Hn (r & Hr & Hc). exists r. split; [|exact Hc].
  cbn [match_here]. rewrite Hn. destruct (c a); exact Hr.
Qed.

(** The pattern of the jumps does not match at a character that a word
    character follows: its first group is one character long. *)
Lemma jumpRe_skip a b rest :
  space b = false -> match_here jumpRe (String a (String b rest)) start = None.
Proof.
  intros Hb. unfold jumpRe, group. cbn [app match_here].
  destruct (word a); [|reflexivity]. rewrite Hb. reflexivity.
Qed.

Lemma FindStringSubmatch_next p a s :
  match_here p (String a s) start = None ->
  FindStringSubmatch p (String a s) = FindStringSubmatch p s.
Proof. intros H. cbn [FindStringSubmatch]. rewrite H. reflexivity. Qed.

(** The match starts at the last character [c] of the mnemonic, and the
    second group is the destination. *)
Lemma jumpRe_tokens pre c d :
  all_chars word pre = true -> word c = true -> is_word d = true ->
  exists w,
    FindStringSubmatch jumpRe (pre +:+ String c (" " +:+ d))
    = [w; String c ""; d].
Proof.
  intros Hpre Hc Hd. induction pre as [|a pre IH].
  - rewrite append_nil_l.
    destruct d as [|d0 d]; [discriminate|]. simpl in Hd.
    apply andb_true_iff in Hd as [Hd0 Hd].
    destruct (word_class _ Hd0) as (Hsd & _).
    apply (captures_submatches jumpRe _ [String d0 d; String c ""]).
    unfold jumpRe, group. cbn [app].
    apply cap_open. apply cap_one; [exact Hc|]. apply cap_close.
    apply (cap_plus space _ " " ""); [reflexivity|reflexivity| |].
    { cbn [stops]. rewrite Hsd. reflexivity. }
    apply cap_open. rewrite ?append_nil_l.
    destruct d as [|d1 d].
    + apply cap_opt_back; [reflexivity|].
      apply (cap_plus word _ d0 "" ""); [exact Hd0|reflexivity|reflexivity|].
      apply cap_close. apply cap_nil. reflexivity.
    + simpl in Hd. apply andb_true_iff in Hd as [Hd1 Hd].
      apply cap_opt_take; [apply word_any, Hd0|].
      rewrite <- (append_nil_r d).
      apply cap_plus; [assumption|assumption|reflexivity|].
      apply cap_close. apply cap_nil.
      rewrite append_nil_r.
      change (pushs d (push d1 (push d0 (open_group ?st))))
        with (pushs (String d0 (String d1 d)) (open_group st)).
      rewrite closed_group_pushs. reflexivity.
  - simpl in Hpre. apply andb_true_iff in Hpre as [Ha Hpre].
    rewrite append_cons. rewrite FindStringSubmatch_next; [apply IH, Hpre|].
    destruct pre as [|b pre].
    + rewrite append_nil_l. apply jumpRe_skip.
      destruct (word_class _ Hc) as (Hs & _). exact Hs.
    + rewrite append_cons. apply jumpRe_skip.
      simpl in Hpre. apply andb_true_iff in Hpre as [Hb _].
      destruct (word_class _ Hb) as (Hs & _). exact Hs.
Qed.

Lemma TrimSpace_jump m d :
  is_word m = true -> is_word d = true ->
  TrimSpace (jump_line m d) = jump_line m d.
Proof. intros Hm Hd. unfold jump_line. apply TrimSpace_ends; assumption. Qed.

Lemma first_token_jump m d :
  is_word m = true -> FindStringAnchored firstTokenRe (jump_line m d) = m.
Proof. intros Hm. unfold jump_line. apply first_token; auto. Qed.

Lemma decode_j d :
  is_word d = true -> DecodeInstr (jump_line "j" d) = Ok (JumpInstr d).
Proof.
  intros Hd. unfold DecodeInstr.
  rewrite TrimSpace_jump, first_token_jump by auto.
  cbn -[jump_line FindStringSubmatch jumpRe]. unfold matched.
  destruct (jumpRe_tokens "" "j" d) as (w & Hw); auto.
  change ("" +:+ String "j" (" " +:+ d)) with (jump_line "j" d) in Hw.
  rewrite Hw. reflexivity.
Qed.

Lemma decode_call d :
  is_word d = true ->
  DecodeInstr (jump_line "call" d) = Ok (JumpAndLinkInstr d 1).
Proof.
  intros Hd. unfold DecodeInstr.
  rewrite TrimSpace_jump, first_token_jump by auto.
  cbn -[jump_line FindStringSubmatch jumpRe]. unfold matched.
  destruct (jumpRe_tokens "cal" "l" d) as (w & Hw); auto.
  change ("cal" +:+ String "l" (" " +:+ d)) with (jump_line "call" d) in Hw.
  rewrite Hw. reflexivity.
Qed.

Lemma decode_jr r n :
  getRegisterNumber r = Ok n ->
  DecodeInstr (jump_line "jr" r) = Ok (JumpAndLinkRInstr 0 0 n).
Proof.
  intros Hr. pose proof (register_name_word _ _ Hr) as Hw.
  unfold DecodeInstr.
  rewrite TrimSpace_jump, first_token_jump by auto.
  cbn -[jump_line FindStringSubmatch jumpRe]. unfold matched.
  destruct (jumpRe_tokens "j" "r" r) as (w & Hw'); auto.
  change ("j" +:+ String "r" (" " +:+ r)) with (jump_line "jr" r) in Hw'.
  rewrite Hw'. cbn [length Nat.eqb index lookup list_lookup rbind].
  rewrite Hr. reflexivity.
Qed.

(** The displacement to a label of the table takes the program counter to
    the address of the label. *)
Lemma jump_to_label L addr cpu :
  is_identifier L = true -> Labels cpu !! L = Some addr ->
  is_uint32 addr -> is_uint32 (PC cpu) ->
  bind (immOrLabel L) (fun imm => addPC (uint32 imm)) cpu
  = Ok (tt, set_PC addr cpu).
Proof.
  intros HL Hlab Haddr HPC.
  unfold bind, immOrLabel, bind, get. rewrite (Atoi_identifier L HL), Hlab.
  cbn. unfold addPC, modify, set_PC. do 3 f_equal. cbn [PC].
  unfold is_uint32 in *. rewrite !int_id by lia.
  unfold uint32. rewrite Zplus_mod_idemp_r.
  replace (PC cpu + (addr - PC cpu)) with addr by lia.
  apply Z.mod_small. lia.
Qed.

(** The line [j L] goes to the label [L] and changes nothing else. *)
Theorem j_to_label L addr cpu :
  is_identifier L = true ->
  Labels cpu !! L = Some addr ->
  is_uint32 addr ->
  is_uint32 (PC cpu) ->
  exists instr,
    DecodeInstr (jump_line "j" L) = Ok instr
    /\ Operate instr cpu = Ok (tt, set_PC addr cpu).
Proof.
  intros HL Hlab Haddr HPC.
  exists (JumpInstr L). split; [apply decode_j, is_identifier_word, HL|].
  cbn [Operate]. apply jump_to_label; assumption.
Qed.

Lemma j_to_label_witness :
  exists instr,
    DecodeInstr "j end" = Ok instr
    /\ Operate instr branch_cpu = Ok (tt, set_PC 28 branch_cpu).
Proof.
  apply (j_to_label "end" 28 branch_cpu);
    try reflexivity; unfold is_uint32;
    try change (PC branch_cpu) with 16; lia.
Defined.

Lemma set_PC_same cpu : set_PC (PC cpu) cpu = cpu.
Proof. destruct cpu. reflexivity. Qed.

(** A jump with the displacement 0 is a jump to itself: a run that comes
    to such a line does not end, whatever the fuel. *)
Theorem jump_to_itself_never_ends d cpu fuel :
  is_word d = true ->
  Atoi d = Some 0 ->
  Done cpu = false ->
  is_uint32 (PC cpu) ->
  out_of_bounds cpu = false ->
  instructions cpu !! Z.to_nat (instr_num cpu) = Some (jump_line "j" d) ->
  RunProgram fuel cpu = None.
Proof.
  intros Hd H0 Hdone HPC Hb Hline.
  assert (RunNextInstruction cpu = Ok (tt, cpu)) as Hstep.
  { unfold out_of_bounds in Hb. apply orb_false_iff in Hb as [H16 Hn].
    unfold RunNextInstruction, bind at 1, get. rewrite H16, Hn, Hline.
    unfold bind, lift. rewrite (decode_j d Hd). cbn [Operate].
    unfold bind, immOrLabel, bind, get. rewrite H0. cbn.
    unfold addPC, modify. change (uint32 0) with 0.
    rewrite Z.add_0_r, (uint32_id _ HPC), set_PC_same. reflexivity. }
  unfold RunProgram.
  assert (RunLoop fuel cpu = None) as ->; [|reflexivity].
  induction fuel as [|fuel IH]; simpl; rewrite Hdone; [reflexivity|].
  rewrite Hstep. exact IH.
Qed.

Lemma jump_to_itself_never_ends_witness :
  RunProgram 1000 (LoadInstructions ["li x1, 1"; "j 0"; "li x1, 2"] (set_PC 20 (NewCPU 16)))
  = None.
Proof.
  apply (jump_to_itself_never_ends "0").
  - reflexivity.
  - reflexivity.
  - reflexivity.
  - vm_compute. split; [discriminate|reflexivity].
  - reflexivity.
  - reflexivity.
Defined.

(** The line [call f] puts the address of the next line into [ra] and goes
    to the label [f]; a later [jr ra], executed while [ra] still holds that
    address, goes to the line after the call and changes no register. *)
Theorem call_and_return f addr cpu :
  is_identifier f = true ->
  Labels cpu !! f = Some addr ->
  is_uint32 addr ->
  is_uint32 (PC cpu) ->
  length (Registers cpu) = 32%nat ->
  exists call ret cpu1,
    DecodeInstr (jump_line "call" f) = Ok call
    /\ DecodeInstr (jump_line "jr" "ra") = Ok ret
    /\ Operate call cpu = Ok (tt, cpu1)
    /\ PC cpu1 = addr
    /\ forall cpu2,
        Registers cpu2 !! 1%nat = Registers cpu1 !! 1%nat ->
        Operate ret cpu2 = Ok (tt, set_PC (uint32 (PC cpu + 4)) cpu2).
Proof.
  intros Hf Hlab Haddr HPC Hlen.
  set (link := int32 (int32 (PC cpu) + 4)).
  set (cpu1 := set_PC addr
                 (set_Registers (<[1%nat := link]> (Registers cpu)) cpu)).
  exists (JumpAndLinkInstr f 1), (JumpAndLinkRInstr 0 0 1), cpu1.
  split; [apply decode_call, is_identifier_word, Hf|].
  split; [apply (decode_jr "ra" 1); reflexivity|].
  split; [|split; [reflexivity|]].
  - cbn [Operate]. unfold bind at 1. unfold when_rd. cbn [Z.eqb negb].
    unfold assign, bind at 1. unfold bind at 1, get, ret.
    rewrite writeReg_in_range by (rewrite len_registers by assumption; lia).
    fold link.
    rewrite (jump_to_label f addr); try assumption. reflexivity.
  - intros cpu2 Hra.
    assert (Registers cpu2 !! 1%nat = Some link) as Hl.
    { rewrite Hra. subst cpu1. cbn -[insert].
      apply list_lookup_insert_eq. lia. }
    cbn [Operate]. unfold bind at 1. unfold when_rd. cbn [Z.eqb negb ret].
    unfold bind. rewrite (readReg_ok 1 link) by (assumption || lia).
    unfold modify. do 3 f_equal.
    pose proof (int32_range (int32 (PC cpu) + 4)) as Hr. fold link in Hr.
    unfold is_int32 in Hr. rewrite (int_id link) by lia.
    change (int 0) with 0. rewrite Z.add_0_l.
    subst link. rewrite uint32_int32.
    unfold uint32, int32.
    rewrite Zplus_mod, (Zminus_mod ((PC cpu + 2 ^ 31) mod 2 ^ 32)), Zmod_mod,
      <- Zminus_mod, <- Zplus_mod.
    f_equal. lia.
Qed.

Lemma call_and_return_witness :
  exists call ret cpu1,
    DecodeInstr "call end" = Ok call
    /\ DecodeInstr "jr ra" = Ok ret
    /\ Operate call branch_cpu = Ok (tt, cpu1)
    /\ PC cpu1 = 28
    /\ forall cpu2,
        Registers cpu2 !! 1%nat = Registers cpu1 !! 1%nat ->
        Operate ret cpu2 = Ok (tt, set_PC 20 cpu2).
Proof.
  apply (call_and_return "end" 28 branch_cpu);
    try reflexivity; unfold is_uint32;
    try change (PC branch_cpu) with 16; lia.
Defined.

(** ** The lines that define a label *)

(** The end of the label pattern, after the repetition of its group. *)
Definition colon_next : string -> mstate -> option mstate :=
  match_here [GroupClose; Cls (Ascii.eqb ":") One].

Lemma labelRe_here a s st :
  match_here labelRe (String a s) st
  = if any a then greedy any colon_next s (push a (open_group st)) else None.
Proof. reflexivity. Qed.

(** In a text without colon the repetition finds no place to stop. *)
Lemma greedy_no_colon rest st :
  has_char (is_char ":") rest = false -> greedy any colon_next rest st = None.
Proof.
  revert st. induction rest as [|a rest IH]; intros st H; [reflexivity|].
  cbn [has_char] in H. apply orb_false_iff in H as [Ha Hr].
  assert (colon_next (String a rest) st = None) as Hk.
  { unfold colon_next. cbn [match_here].
    change (Ascii.eqb ":" a) with (is_char ":" a). rewrite Ha. reflexivity. }
  cbn [greedy]. rewrite (IH _ Hr), Hk. destruct (any a); reflexivity.
Qed.

(** The repetition backs up to the last colon of the text. *)
Lemma greedy_last_colon w rest st :
  all_chars any w = true -> has_char (is_char ":") rest = false ->
  greedy any colon_next (w +:+ String ":" rest) st
  = Some (push ":" (close_group (pushs w st))).
Proof.
  revert st. induction w as [|a w IH]; intros st Hw Hr.
  - rewrite append_nil_l. cbn [greedy pushs].
    change (any ":") with true. cbn match.
    rewrite (greedy_no_colon _ _ Hr). reflexivity.
  - simpl in Hw. apply andb_true_iff in Hw as [Ha Hw].
    rewrite append_cons. cbn [greedy pushs]. rewrite Ha, (IH _ Hw Hr).
    reflexivity.
Qed.

(** A line defines the label that is its text up to its last colon, when
    there is at least one character in front of that colon. *)
Lemma label_of_last_colon a w rest :
  all_chars any (String a w) = true ->
  has_char (is_char ":") rest = false ->
  label_of (String a w +:+ ":" +:+ rest) = Some (String a w).
Proof.
  intros Hall Hr. simpl in Hall. apply andb_true_iff in Hall as [Ha Hw].
  unfold label_of.
  rewrite (FindStringSubmatch_here _ _
             (push ":" (close_group (pushs w (push a (open_group start)))))).
  - unfold submatches. cbn [whole closed push close_group].
    rewrite closed_pushs, current_pushs. reflexivity.
  - rewrite append_cons, labelRe_here, Ha.
    apply greedy_last_colon; assumption.
Qed.

Lemma labelRe_needs_colon s st r :
  match_here labelRe s st = Some r -> has_char (is_char ":") s = true.
Proof.
  revert s st r.
  change labelRe
    with ([GroupOpen; Cls any Plus; GroupClose] ++ [Cls (Ascii.eqb ":") One]).
  apply (match_here_suffix (fun s => has_char (is_char ":") s = true)
           (has_char_cons _)).
  intros s st r. cbn [match_here].
  destruct s as [|a s]; [discriminate|].
  destruct (Ascii.eqb ":" a) eqn:Ha; [|discriminate].
  intros _. cbn [has_char]. change (is_char ":" a) with (Ascii.eqb ":" a).
  rewrite Ha. reflexivity.
Qed.

(** A line without colon defines no label. *)
Lemma label_of_no_colon line :
  has_char (is_char ":") line = false -> label_of line = None.
Proof.
  intros H. unfold label_of.
  destruct (FindStringSubmatch labelRe line) as [|t ts] eqn:Hf; [reflexivity|].
  rewrite (FindStringSubmatch_suffix
             (fun s => has_char (is_char ":") s = true)
             (has_char_cons _) labelRe line) in H; [discriminate| |].
  - apply labelRe_needs_colon.
  - rewrite Hf. discriminate.
Qed.

(** Any line with a colon after at least one character is a label line: the
    name of the label is all the text in front of the last colon of the
    line, spaces included, and its address is that of the next line,
    provided that no later line defines the same name. *)
Theorem label_is_text_before_last_colon instrs cpu (i : nat) a w rest :
  all_chars any (String a w) = true ->
  has_char (is_char ":") rest = false ->
  instrs !! i = Some (String a w +:+ ":" +:+ rest) ->
  (forall j line, (i < j)%nat -> instrs !! j = Some line ->
                  label_of line <> Some (String a w)) ->
  Labels (LoadInstructions instrs cpu) !! String a w
  = Some (uint32 (Z.of_nat i * 4 + 16 + 4)).
Proof.
  intros Hall Hr Hi Hlast. rewrite LoadInstructions_Labels.
  rewrite (scan_labels_lookup instrs 0 _ i _ (String a w) Hi
             (label_of_last_colon a w rest Hall Hr) Hlast).
  reflexivity.
Qed.

(** A label that is written with two spaces in front of it. *)
Definition indented_label_cpu : CPU :=
  LoadInstructions ["li x1, 1"; "  main: # entry"] (NewCPU 16).

Lemma label_is_text_before_last_colon_witness :
  Labels indented_label_cpu !! "  main" = Some 24
  /\ Labels indented_label_cpu !! "main" = None.
Proof.
  split; [|vm_compute; reflexivity].
  apply (label_is_text_before_last_colon
           ["li x1, 1"; "  main: # entry"] (NewCPU 16) 1 " " " main" " # entry").
  - reflexivity.
  - reflexivity.
  - reflexivity.
  - intros j line Hj Hl. destruct j as [|[|j]]; [lia|lia|discriminate Hl].
Defined.

(** A program text without any colon leaves the label table as it is. *)
Theorem no_colon_no_label instrs cpu :
  (forall i line, instrs !! i = Some line ->
                  has_char (is_char ":") line = false) ->
  Labels (LoadInstructions instrs cpu) = Labels cpu.
Proof.
  intros H. rewrite LoadInstructions_Labels.
  generalize 0 (Labels cpu). induction instrs as [|line instrs IH]; intros k m.
  - reflexivity.
  - cbn [scan_labels].
    rewrite (label_of_no_colon line (H 0%nat line eq_refl)).
    apply IH. intros i line' Hi. apply (H (S i)). exact Hi.
Qed.

Lemma no_colon_no_label_witness :
  Labels (LoadInstructions ["li x1, 4"; "sb x1, 0(x0)"] branch_cpu)
  = Labels branch_cpu.
Proof.
  apply no_colon_no_label. intros i line Hi.
  destruct i as [|[|i]]; try discriminate Hi;
    injection Hi as <-; reflexivity.
Defined.

(** ** The entry point *)

(** The entry point that a line declares for [LoadInstructions]: a label
    line declares none. *)
Definition entry_of (instr : string) : option string :=
  match label_of instr with
  | Some _ => None
  | None =>
      match FindStringSubmatch globalRe instr with
      | [_; name] => Some name
      | _ => None
      end
  end.

Fixpoint scan_entry (instrs : list string) (e : string) : string :=
  match instrs with
  | [] => e
  | instr :: instrs' =>
      scan_entry instrs' match entry_of instr with Some name => name | None => e end
  end.

Lemma loadLine_entryPoint i instr cpu :
  entryPoint (loadLine i instr cpu)
  = match entry_of instr with Some name => name | None => entryPoint cpu end.
Proof.
  unfold loadLine, entry_of, label_of.
  destruct (FindStringSubmatch labelRe instr) as [|w [|l [|x t]]];
    try reflexivity;
    destruct (FindStringSubmatch globalRe instr) as [|w' [|l' [|x' t']]];
    reflexivity.
Qed.

Lemma loadLines_entryPoint instrs i cpu :
  entryPoint (loadLines i instrs cpu) = scan_entry instrs (entryPoint cpu).
Proof.
  revert i cpu. induction instrs as [|instr instrs IH]; intros i cpu; cbn.
  - reflexivity.
  - rewrite IH, loadLine_entryPoint. reflexivity.
Qed.

Lemma LoadInstructions_entryPoint instrs cpu :
  entryPoint (LoadInstructions instrs cpu) = scan_entry instrs "".
Proof.
  unfold LoadInstructions.
  pose proof (loadLines_entryPoint instrs 0 (set_entryPoint "" cpu)) as HE.
  cbn in HE. cbn zeta.
  destruct (instr_num _ >? _); cbn; exact HE.
Qed.

Lemma scan_entry_none instrs e :
  (forall j line, instrs !! j = Some line -> entry_of line = None) ->
  scan_entry instrs e = e.
Proof.
  revert e. induction instrs as [|instr instrs IH]; intros e H; simpl.
  - reflexivity.
  - rewrite (H 0%nat instr eq_refl).
    apply IH. intros j line Hj. apply (H (S j)). exact Hj.
Qed.

Lemma scan_entry_last instrs e (i : nat) line name :
  instrs !! i = Some line -> entry_of line = Some name ->
  (forall j line', (i < j)%nat -> instrs !! j = Some line' ->
                   entry_of line' = None) ->
  scan_entry instrs e = name.
Proof.
  revert e i. induction instrs as [|instr instrs IH]; intros e i Hi Hl Hlast.
  - discriminate Hi.
  - destruct i as [|i]; simpl.
    + injection Hi as ->. rewrite Hl. apply scan_entry_none.
      intros j line' Hj. apply (Hlast (S j)); [lia|exact Hj].
    + apply (IH _ i Hi Hl).
      intros j line' Hj Hline. apply (Hlast (S j)); [lia|exact Hline].
Qed.

(** The directive [.global name] declares the entry point [name]. *)
Lemma entry_of_global name :
  is_word name = true -> entry_of (".global " +:+ name) = Some name.
Proof.
  intros Hn. unfold entry_of.
  rewrite label_of_no_colon.
  - destruct name as [|n0 name]; [discriminate|]. simpl in Hn.
    apply andb_true_iff in Hn as [Hn0 Hn].
    destruct (captures_submatches globalRe (".global " +:+ String n0 name)
                [String n0 name]) as (w & ->); [|reflexivity].
    unfold globalRe, group. cbn [app lit].
    change (".global " +:+ String n0 name)
      with (String "." (String "g" (String "l" (String "o" (String "b"
             (String "a" (String "l" (String " " (String n0 name))))))))).
    do 8 (apply cap_one; [reflexivity|]).
    apply cap_open. rewrite <- (append_nil_r name).
    apply cap_plus; [assumption|assumption|reflexivity|].
    apply cap_close. apply cap_nil.
    rewrite append_nil_r, closed_group. reflexivity.
  - change (".global " +:+ name)
      with (String "." (String "g" (String "l" (String "o" (String "b"
             (String "a" (String "l" (String " " name)))))))).
    cbn [has_char]. change (is_char ":" ".") with false.
    change (is_char ":" "g") with false. change (is_char ":" "l") with false.
    change (is_char ":" "o") with false. change (is_char ":" "b") with false.
    change (is_char ":" "a") with false. change (is_char ":" " ") with false.
    cbn [orb].
    destruct name as [|n0 name]; [discriminate|]. simpl in Hn.
    apply andb_true_iff in Hn as [Hn0 Hn].
    assert (forall s, all_chars word s = true ->
                      has_char (is_char ":") s = false) as Hno.
    { induction s as [|c s IHs]; simpl; [reflexivity|]. intros H.
      apply andb_true_iff in H as [Hc Hs]. rewrite (IHs Hs).
      destruct c as [[] [] [] [] [] [] [] []]; vm_compute in Hc |- *;
        first [reflexivity | discriminate Hc]. }
    apply (Hno (String n0 name)). simpl. rewrite Hn0, Hn. reflexivity.
Qed.

(** After loading, the entry point is the name of the last [.global]
    directive of the program text; the program counter is not moved to
    it. *)
Theorem entry_point_is_last_global instrs cpu (i : nat) name :
  is_word name = true ->
  instrs !! i = Some (".global " +:+ name) ->
  (forall j line, (i < j)%nat -> instrs !! j = Some line ->
                  entry_of line = None) ->
  entryPoint (LoadInstructions instrs cpu) = name
  /\ PC (LoadInstructions instrs cpu) = PC cpu.
Proof.
  intros Hn Hi Hlast. split.
  - rewrite LoadInstructions_entryPoint.
    apply (scan_entry_last instrs "" i _ name Hi (entry_of_global name Hn) Hlast).
  - unfold LoadInstructions.
    destruct (loadLines_frame instrs 0 (set_entryPoint "" cpu)) as (H1 & _).
    cbn in H1. cbn zeta. destruct (instr_num _ >? _); cbn; exact H1.
Qed.

Lemma entry_point_is_last_global_witness :
  entryPoint (LoadInstructions ["li x1, 1"; ".global main"; "main:"; "li x2, 2"]
                (NewCPU 16)) = "main"
  /\ PC (LoadInstructions ["li x1, 1"; ".global main"; "main:"; "li x2, 2"]
           (NewCPU 16)) = 16.
Proof.
  apply (entry_point_is_last_global _ (NewCPU 16) 1 "main").
  - reflexivity.
  - reflexivity.
  - intros j line Hj Hl.
    destruct j as [|[|[|[|j]]]]; try lia; try discriminate Hl;
      injection Hl as <-; vm_compute; reflexivity.
Defined.

(** ** Loading a program again *)

Lemma scan_labels_twice instrs i (m : gmap string Z) :
  scan_labels i instrs (scan_labels i instrs m) = scan_labels i instrs m.
Proof.
  assert (forall m', scan_labels i instrs m' = scan_labels i instrs ∅ ∪ m') as H.
  { intros m'. rewrite <- scan_labels_union, (left_id_L ∅ (∪)). reflexivity. }
  rewrite (H (scan_labels i instrs m)), (H m).
  rewrite (assoc_L (∪)), (idemp_L (∪)). reflexivity.
Qed.

(** The state after [LoadInstructions], field by field. *)
Lemma LoadInstructions_fields instrs cpu :
  LoadInstructions instrs cpu
  = {| PC := PC cpu;
       Registers := Registers cpu;
       Memory := Memory cpu;
       MemorySize := MemorySize cpu;
       instructions := instrs;
       Done := instr_num cpu >? len instrs - 1;
       Labels := scan_labels 0 instrs (Labels cpu);
       MemoryHistory := MemoryHistory cpu;
       entryPoint := scan_entry instrs "" |}.
Proof.
  pose proof (LoadInstructions_Labels instrs cpu) as HL.
  pose proof (LoadInstructions_entryPoint instrs cpu) as HE.
  revert HL HE. unfold LoadInstructions.
  destruct (loadLines_frame instrs 0 (set_entryPoint "" cpu))
    as (H1 & H2 & H3 & H4 & H5).
  cbn in H1, H2, H3, H4, H5.
  set (cpu1 := loadLines 0 instrs (set_entryPoint "" cpu)) in *.
  assert (instr_num (set_instructions instrs cpu1) = instr_num cpu) as HN.
  { unfold instr_num. cbn. rewrite H1. reflexivity. }
  cbn zeta. rewrite HN.
  change (instructions (set_instructions instrs cpu1)) with instrs.
  destruct (instr_num cpu >? len instrs - 1); cbn; intros HL HE;
    unfold set_Done, set_instructions; cbn;
    rewrite H1, H2, H3, H4, H5, HL, HE; reflexivity.
Qed.

(** Loading the same program text a second time changes nothing: the
    interface loads the text again at every command. *)
Theorem LoadInstructions_idempotent instrs cpu :
  LoadInstructions instrs (LoadInstructions instrs cpu)
  = LoadInstructions instrs cpu.
Proof.
  rewrite (LoadInstructions_fields instrs (LoadInstructions instrs cpu)).
  rewrite (LoadInstructions_fields instrs cpu). cbn [PC Registers Memory
    MemorySize MemoryHistory Labels]. unfold instr_num. cbn [PC].
  rewrite scan_labels_twice. reflexivity.
Qed.

(** ** The instructions that change the memory *)

Definition same_memory (cpu cpu' : CPU) : Prop := Memory cpu' = Memory cpu.

Lemma same_memory_refl cpu : same_memory cpu cpu.
Proof. reflexivity. Qed.

Lemma same_memory_trans c1 c2 c3 :
  same_memory c1 c2 -> same_memory c2 c3 -> same_memory c1 c3.
Proof. unfold same_memory. congruence. Qed.

Lemma same_memory_record_history entry : preserves same_memory (record_history entry).
Proof. apply preserves_modify. reflexivity. Qed.

Lemma same_memory_addPC d : preserves same_memory (addPC d).
Proof. apply preserves_modify. reflexivity. Qed.

Lemma same_memory_set_PC v : preserves same_memory (modify (set_PC v)).
Proof. apply preserves_modify. reflexivity. Qed.

Lemma same_memory_readReg i : preserves same_memory (readReg i).
Proof.
  intros cpu a cpu'. unfold readReg.
  destruct (i <? 0); [discriminate|].
  destruct (Registers cpu !! Z.to_nat i); [|discriminate].
  intros [= _ <-]. reflexivity.
Qed.

Lemma same_memory_writeReg rd v : preserves same_memory (writeReg rd v).
Proof.
  intros cpu a cpu'. unfold writeReg.
  destruct ((rd <? 0) || (len (Registers cpu) <=? rd)); [discriminate|].
  intros [= _ <-]. reflexivity.
Qed.

Lemma same_memory_immOrLabel destination :
  preserves same_memory (immOrLabel destination).
Proof.
  intros cpu a cpu' H. unfold immOrLabel, bind, get in H.
  destruct (Atoi destination); [injection H as _ <-; reflexivity|].
  destruct (Labels cpu !! destination); [|discriminate].
  injection H as _ <-. reflexivity.
Qed.

#[local] Hint Resolve same_memory_refl same_memory_record_history
  same_memory_addPC same_memory_set_PC same_memory_readReg
  same_memory_writeReg same_memory_immOrLabel : frame.

Ltac frame_memory :=
  unfold when_rd, assign, trueOrNext;
  repeat frame_step same_memory_refl same_memory_trans.

Lemma same_memory_loadWord address : preserves same_memory (loadWord address).
Proof.
  unfold loadWord. apply preserves_bind; [apply same_memory_trans|frame_memory|].
  intros cpu. destruct (checkMemoryAccess cpu address); frame_memory.
Qed.

Lemma same_memory_loadHalf address : preserves same_memory (loadHalf address).
Proof.
  unfold loadHalf. apply preserves_bind; [apply same_memory_trans|frame_memory|].
  intros cpu. destruct (checkMemoryAccess cpu address); frame_memory.
Qed.

Lemma same_memory_loadByte address : preserves same_memory (loadByte address).
Proof.
  unfold loadByte. apply preserves_bind; [apply same_memory_trans|frame_memory|].
  intros cpu. destruct (checkMemoryAccess cpu address); [frame_memory|].
  destruct (Memory cpu !! Z.to_nat address); frame_memory.
Qed.

#[local] Hint Resolve same_memory_loadWord same_memory_loadHalf
  same_memory_loadByte : frame.

Lemma same_memory_LoadImmOp name op imm :
  lookup_table instrToLoadImmOp name = Some op -> preserves same_memory (op imm).
Proof. intros H. table_cases H; frame_memory. Qed.

Lemma same_memory_LoadOp name op rs1_val imm :
  lookup_table instrToLoadOp name = Some op ->
  preserves same_memory (op rs1_val imm).
Proof. intros H. table_cases H; frame_memory. Qed.

Lemma same_memory_BranchThreeOp name op rs1 rs2 destination :
  lookup_table instrToBranchThreeOp name = Some op ->
  preserves same_memory (op rs1 rs2 destination).
Proof. intros H. table_cases H; frame_memory. Qed.

Lemma same_memory_BranchTwoOp name op rs1 destination :
  lookup_table instrToBranchTwoOp name = Some op ->
  preserves same_memory (op rs1 destination).
Proof. intros H. table_cases H; frame_memory. Qed.

Definition is_store (instr : Instr) : bool :=
  match instr with
  | StoreInstr _ _ _ _ => true
  | _ => false
  end.

(** Only a store instruction changes the memory: after every other
    instruction, loads included, the memory is what it was. *)
Theorem only_stores_change_memory instr cpu cpu' :
  from_tables instr ->
  is_store instr = false ->
  Operate instr cpu = Ok (tt, cpu') ->
  Memory cpu' = Memory cpu.
Proof.
  intros Ht Hs Hop.
  assert (preserves same_memory (Operate instr)) as Hp; [|exact (Hp _ _ _ Hop)].
  clear Hop.
  destruct instr; try discriminate Hs; cbn [from_tables Operate] in *;
    try (lazymatch type of Ht with ex _ => destruct Ht as [name Ht] end);
    try (pose proof (fun imm => same_memory_LoadImmOp _ _ imm Ht));
    try (pose proof (fun a imm => same_memory_LoadOp _ _ a imm Ht));
    try (pose proof (fun a b d => same_memory_BranchThreeOp _ _ a b d Ht));
    try (pose proof (fun a d => same_memory_BranchTwoOp _ _ a d Ht));
    frame_memory.
Qed.

(** The instruction of [lw x5, 0(x0)]. *)
Definition lw_x5 : Instr :=
  match DecodeInstr "lw x5, 0(x0)" with
  | Ok instr => instr
  | Panic _ => NoOp ""
  end.

Lemma only_stores_change_memory_witness :
  exists cpu',
    Operate lw_x5 full_memory_cpu = Ok (tt, cpu')
    /\ Registers cpu' !! 5%nat = Some (-1)
    /\ Memory cpu' = Memory full_memory_cpu.
Proof.
  eexists. split; [vm_compute; reflexivity|]. split; [reflexivity|].
  eapply (only_stores_change_memory lw_x5 full_memory_cpu).
  - exists "lw". reflexivity.
  - reflexivity.
  - vm_compute. reflexivity.
Defined.

(** ** The values of the narrow loads *)

Lemma half_of_bytes b0 b1 :
  is_byte b0 -> is_byte b1 -> 0 <= Z.lor b0 (Z.shiftl b1 8) < 2 ^ 16.
Proof.
  unfold is_byte. intros H0 H1.
  assert (0 <= Z.shiftl b1 8) by (apply Z.shiftl_nonneg; lia).
  assert (Z.shiftl b1 8 = b1 * 2 ^ 8) as He by (apply Z.shiftl_mul_pow2; lia).
  pose proof (Z.add_lor_land b0 (Z.shiftl b1 8)) as Hadd.
  assert (0 <= Z.land b0 (Z.shiftl b1 8)) by (apply Z.land_nonneg; lia).
  assert (0 <= Z.lor b0 (Z.shiftl b1 8)) by (apply Z.lor_nonneg; lia).
  lia.
Qed.

Lemma loadHalf_value A cpu v cpu' :
  Forall is_byte (Memory cpu) ->
  loadHalf A cpu = Ok (v, cpu') -> 0 <= v < 2 ^ 16.
Proof.
  intros Hm H. unfold loadHalf in H. munfold.
  destruct (checkMemoryAccess cpu A); [injection H as <- _; lia|].
  unfold slice_from in H. destruct (A <=? len (Memory cpu)); [|discriminate].
  pose proof (Forall_drop is_byte (Z.to_nat A) _ Hm) as Hd.
  destruct (drop (Z.to_nat A) (Memory cpu)) as [|b0 [|b1 rest]];
    try discriminate H.
  cbn in H. injection H as <- _.
  inversion Hd as [|? ? Hb0 Hd']. inversion Hd' as [|? ? Hb1 _].
  apply half_of_bytes; assumption.
Qed.

Lemma loadByte_value A cpu v cpu' :
  loadByte A cpu = Ok (v, cpu') -> 0 <= v < 2 ^ 8.
Proof.
  intros H. unfold loadByte in H. munfold.
  destruct (checkMemoryAccess cpu A); [injection H as <- _; lia|].
  destruct (Memory cpu !! Z.to_nat A); [|discriminate].
  cbn in H. injection H as <- _. unfold uint8. apply Z.mod_pos_bound. lia.
Qed.

(** The loads [lh] and [lb], the signed ones by their names, never give a
    negative value: the value of [lh] is from 0 to 65535 and that of [lb]
    from 0 to 255, whatever the bytes of the memory are. *)
Theorem signed_loads_are_never_negative op_lh op_lb base imm cpu :
  lookup_table instrToLoadOp "lh" = Some op_lh ->
  lookup_table instrToLoadOp "lb" = Some op_lb ->
  Forall is_byte (Memory cpu) ->
  (forall v cpu', op_lh base imm cpu = Ok (v, cpu') -> 0 <= v < 2 ^ 16)
  /\ (forall v cpu', op_lb base imm cpu = Ok (v, cpu') -> 0 <= v < 2 ^ 8).
Proof.
  cbn. intros [= <-] [= <-] Hm. split; intros v cpu' H.
  - apply bind_ok in H as (h & c1 & Hl & Hr). injection Hr as <- _.
    pose proof (loadHalf_value _ _ _ _ Hm Hl) as Hh.
    rewrite int32_id; [exact Hh|unfold is_int32; lia].
  - apply bind_ok in H as (b & c1 & Hl & Hr). injection Hr as <- _.
    pose proof (loadByte_value _ _ _ _ Hl) as Hb.
    rewrite int32_id; [exact Hb|unfold is_int32; lia].
Qed.

Lemma signed_loads_are_never_negative_witness :
  exists op_lh op_lb,
    lookup_table instrToLoadOp "lh" = Some op_lh
    /\ lookup_table instrToLoadOp "lb" = Some op_lb
    /\ (forall v cpu', op_lh 4 0 full_memory_cpu = Ok (v, cpu') -> 0 <= v < 2 ^ 16)
    /\ (forall v cpu', op_lb 4 0 full_memory_cpu = Ok (v, cpu') -> 0 <= v < 2 ^ 8).
Proof.
  eexists. eexists. split; [reflexivity|]. split; [reflexivity|].
  apply (signed_loads_are_never_negative _ _ 4 0 full_memory_cpu eq_refl eq_refl).
  apply Forall_replicate. unfold is_byte. lia.
Defined.

(** ** Lines of a load or a store *)

(** A line [m r, imm(base)], written with single spaces. *)
Definition memory_line (m r imm base : string) : string :=
  m +:+ " " +:+ r +:+ ", " +:+ imm +:+ "(" +:+ base +:+ ")".

(** Decimal digits, at least one. *)
Definition is_digits (s : string) : bool :=
  match s with
  | String a s' => is_digit a && all_chars is_digit s'
  | EmptyString => false
  end.

(** A decimal number with an optional minus sign. *)
Definition is_number (s : string) : bool :=
  match s with
  | String a s' => if is_char "-" a then is_digits s' else is_digits s
  | EmptyString => false
  end.

(** The name of a base register: small letters and digits. *)
Definition is_base (s : string) : bool :=
  match s with
  | String a s' => lower_or_digit a && all_chars lower_or_digit s'
  | EmptyString => false
  end.

Lemma digit_class a :
  is_digit a = true -> space a = false /\ is_char "-" a = false.
Proof.
  destruct a as [[] [] [] [] [] [] [] []]; vm_compute; intros H;
    first [discriminate H | split; reflexivity].
Qed.

Lemma loadStoreRe_tokens m r imm base :
  is_word m = true -> is_word r = true -> is_number imm = true ->
  is_base base = true ->
  exists w,
    FindStringSubmatch loadStoreRe (memory_line m r imm base)
    = [w; m; r; imm; base].
Proof.
  destruct m as [|m0 m]; [discriminate|].
  destruct r as [|a1 r]; [discriminate|].
  destruct imm as [|i0 imm]; [discriminate|].
  destruct base as [|b0 base]; [discriminate|].
  intros Hm H1 Hi Hb. simpl in Hm, H1, Hb.
  apply andb_true_iff in Hm as [Hm0 Hm], H1 as [Ha1 H1], Hb as [Hb0 Hb].
  destruct (word_class _ Ha1) as (Hs1 & _).
  apply (captures_submatches loadStoreRe _
           [String b0 base; String i0 imm; String a1 r; String m0 m]).
  unfold memory_line, loadStoreRe, group. cbn [app].
  apply cap_open. rewrite append_cons.
  apply cap_plus; [assumption|assumption|reflexivity|].
  apply cap_close.
  apply (cap_plus space _ " " ""); [reflexivity|reflexivity| |].
  { rewrite append_cons. cbn [stops]. rewrite Hs1. reflexivity. }
  apply cap_open. rewrite append_cons.
  apply cap_plus; [assumption|assumption|reflexivity|].
  apply cap_close.
  apply (cap_star space _ ""); [reflexivity|reflexivity|].
  apply cap_one; [reflexivity|].
  cbn [is_number] in Hi. destruct (is_char "-" i0) eqn:Hdash.
  - apply is_char_eq in Hdash. subst i0.
    destruct imm as [|d0 imm]; [discriminate|]. simpl in Hi.
    apply andb_true_iff in Hi as [Hd0 Hi].
    apply (cap_star space _ " "); [reflexivity|reflexivity|].
    apply cap_open. rewrite append_cons.
    apply cap_opt_take; [reflexivity|]. rewrite append_cons.
    apply cap_plus; [assumption|assumption|reflexivity|].
    apply cap_close. apply cap_one; [reflexivity|].
    apply cap_open. rewrite append_cons.
    apply cap_plus; [assumption|assumption|reflexivity|].
    apply cap_close. apply cap_one; [reflexivity|]. apply cap_nil.
    change (pushs imm (push d0 (push "-" (open_group ?st))))
      with (pushs (String "-" (String d0 imm)) (open_group st)).
    repeat (rewrite ?closed_group_pushs, ?closed_group, ?closed_pushs;
            cbn [closed push]).
    reflexivity.
  - simpl in Hi. apply andb_true_iff in Hi as [Hd0 Hi].
    destruct (digit_class _ Hd0) as (Hsd & _).
    apply (cap_star space _ " "); [reflexivity| |].
    { rewrite append_cons. cbn [stops]. rewrite Hsd. reflexivity. }
    apply cap_open. rewrite append_cons.
    apply cap_opt_skip; [cbn [stops]; rewrite Hdash; reflexivity|].
    apply cap_plus; [assumption|assumption|reflexivity|].
    apply cap_close. apply cap_one; [reflexivity|].
    apply cap_open. rewrite append_cons.
    apply cap_plus; [assumption|assumption|reflexivity|].
    apply cap_close. apply cap_one; [reflexivity|]. apply cap_nil.
    repeat (rewrite ?closed_group_pushs, ?closed_group, ?closed_pushs;
            cbn [closed push]).
    reflexivity.
Qed.

Lemma trim_right_app_end pre a :
  is_space a = false -> trim_right (pre +:+ String a "") = pre +:+ String a "".
Proof.
  intros Ha. induction pre as [|c pre IH].
  - rewrite append_nil_l. simpl. rewrite Ha. reflexivity.
  - rewrite append_cons. simpl. rewrite IH.
    destruct (pre +:+ String a "") eqn:He; [|reflexivity].
    destruct pre; discriminate He.
Qed.

Lemma TrimSpace_memory m r imm base :
  is_word m = true ->
  TrimSpace (memory_line m r imm base) = memory_line m r imm base.
Proof.
  intros Hm. unfold TrimSpace.
  assert (trim_left (memory_line m r imm base) = memory_line m r imm base) as ->.
  { destruct m as [|m0 m]; [discriminate|].
    simpl in Hm. apply andb_true_iff in Hm as [Hm0 _].
    destruct (word_class _ Hm0) as (_ & Hs & _).
    unfold memory_line. rewrite append_cons. simpl. rewrite Hs.
    reflexivity. }
  unfold memory_line. rewrite <- !append_assoc.
  apply trim_right_app_end. reflexivity.
Qed.

Lemma first_token_memory m r imm base :
  is_word m = true ->
  FindStringAnchored firstTokenRe (memory_line m r imm base) = m.
Proof. intros Hm. unfold memory_line. apply first_token; auto. Qed.

Lemma table_names_are_bases :
  forallb (fun entry => is_base (fst entry)) abiToRegister = true.
Proof. vm_compute. reflexivity. Qed.

Lemma register_name_base r n : getRegisterNumber r = Ok n -> is_base r = true.
Proof.
  unfold getRegisterNumber.
  destruct (lookup_table abiToRegister r) as [reg|] eqn:H; [|discriminate].
  intros _. apply lookup_table_In in H.
  pose proof table_names_are_bases as Hall.
  rewrite forallb_forall in Hall. apply (Hall _ H).
Qed.

Lemma decode_sw rs2 imm base n2 nb v :
  getRegisterNumber rs2 = Ok n2 -> getRegisterNumber base = Ok nb ->
  is_number imm = true -> Atoi imm = Some v ->
  DecodeInstr (memory_line "sw" rs2 imm base)
  = Ok (StoreInstr nb n2 (int32 v)
          (fun rs1_val rs2_val imm =>
             storeWord (uint32 (int32 (imm + rs1_val))) rs2_val)).
Proof.
  intros H2 Hb Hi Hv.
  pose proof (register_name_word _ _ H2) as Hw2.
  pose proof (register_name_base _ _ Hb) as Hwb.
  unfold DecodeInstr.
  rewrite TrimSpace_memory, first_token_memory by auto.
  cbn -[memory_line FindStringSubmatch loadStoreRe]. unfold matched.
  destruct (loadStoreRe_tokens "sw" rs2 imm base) as (w & Hw); auto.
  rewrite Hw. cbn [length Nat.eqb drop]. unfold parseStore.
  cbn [index lookup list_lookup rbind].
  cbn [lookup_table instrToStoreOp String.eqb Ascii.eqb Bool.eqb].
  rewrite Hb. cbn [rbind]. rewrite H2. cbn [rbind].
  unfold parseImm. rewrite Hv. reflexivity.
Qed.

Lemma decode_lw rd imm base nd nb v :
  getRegisterNumber rd = Ok nd -> getRegisterNumber base = Ok nb ->
  is_number imm = true -> Atoi imm = Some v ->
  DecodeInstr (memory_line "lw" rd imm base)
  = Ok (LoadInstr nd nb (int32 v)
          (fun rs1_val imm => loadWord (uint32 (int32 (rs1_val + imm))))).
Proof.
  intros Hd Hb Hi Hv.
  pose proof (register_name_word _ _ Hd) as Hwd.
  pose proof (register_name_base _ _ Hb) as Hwb.
  unfold DecodeInstr.
  rewrite TrimSpace_memory, first_token_memory by auto.
  cbn -[memory_line FindStringSubmatch loadStoreRe]. unfold matched.
  destruct (loadStoreRe_tokens "lw" rd imm base) as (w & Hw); auto.
  rewrite Hw. cbn [length Nat.eqb drop]. unfold parseLoad.
  cbn [index lookup list_lookup rbind].
  cbn [lookup_table instrToLoadOp String.eqb Ascii.eqb Bool.eqb].
  rewrite Hd. cbn [rbind]. rewrite Hb. cbn [rbind].
  unfold parseImm. rewrite Hv. reflexivity.
Qed.

(** The line [sw rs2, imm(base)] followed by the line [lw rd, imm(base)]:
    when the word at the address [base + imm] lies within the memory, the
    load gives [rd] the value that the store took from [rs2], and the two
    lines advance the program counter by 8. *)
Theorem sw_then_lw rs2 rd base imm n2 nd nb v a V cpu :
  getRegisterNumber rs2 = Ok n2 ->
  getRegisterNumber rd = Ok nd ->
  getRegisterNumber base = Ok nb ->
  is_number imm = true ->
  Atoi imm = Some v ->
  length (Registers cpu) = 32%nat ->
  Registers cpu !! Z.to_nat nb = Some a ->
  Registers cpu !! Z.to_nat n2 = Some V ->
  is_int32 V ->
  uint32 (int32 (a + int32 v)) + 4 <= len (Memory cpu) ->
  len (Memory cpu) < 2 ^ 32 ->
  nd <> 0 ->
  exists store load cpu1 cpu2,
    DecodeInstr (memory_line "sw" rs2 imm base) = Ok store
    /\ DecodeInstr (memory_line "lw" rd imm base) = Ok load
    /\ Operate store cpu = Ok (tt, cpu1)
    /\ Operate load cpu1 = Ok (tt, cpu2)
    /\ Registers cpu2 = <[Z.to_nat nd := V]> (Registers cpu)
    /\ PC cpu2 = uint32 (uint32 (PC cpu + 4) + 4).
Proof.
  intros H2 Hd Hb Hi Hv Hlen Ha HV HVr Hin Hmem Hnd.
  pose proof (register_number_range _ _ H2) as Hn2.
  pose proof (register_number_range _ _ Hd) as Hnd'.
  pose proof (register_number_range _ _ Hb) as Hnb.
  set (A := uint32 (int32 (a + int32 v))) in *.
  assert (0 <= A) as HA by apply uint32_range.
  destruct (storeWord_ok cpu A V HA Hin Hmem)
    as (mem' & hist' & Hs & Hl & rest & Hdrop).
  set (cpu1 := set_PC (uint32 (PC cpu + 4))
                 (set_Memory mem' (set_MemoryHistory hist' cpu))).
  edestruct (loadWord_ok cpu1 A) as (h & Hload);
    [exact HA|cbn; lia|cbn; lia|exact Hdrop|].
  eexists _, _, cpu1, _.
  split; [apply (decode_sw rs2 imm base n2 nb v); assumption|].
  split; [apply (decode_lw rd imm base nd nb v); assumption|].
  split; [|split; [|split]].
  - cbn [Operate]. unfold bind at 1.
    rewrite (readReg_ok nb a) by (assumption || lia).
    unfold bind at 1. rewrite (readReg_ok n2 V) by (assumption || lia).
    unfold bind at 1. replace (int32 v + a) with (a + int32 v) by lia.
    fold A. rewrite Hs. reflexivity.
  - cbn [Operate]. unfold bind at 1, when_rd.
    destruct (Z.eqb_spec nd 0) as [|_]; [contradiction|]. cbn [negb].
    unfold assign, bind at 1. unfold bind at 1.
    rewrite (readReg_ok nb a) by (assumption || lia).
    fold A. rewrite Hload.
    rewrite writeReg_in_range
      by (cbn; rewrite len_registers by assumption; lia).
    reflexivity.
  - cbn. rewrite le32_roundtrip, int32_uint32, (int32_id V HVr). reflexivity.
  - reflexivity.
Qed.

Lemma sw_then_lw_witness :
  exists store load cpu1 cpu2,
    DecodeInstr "sw sp, -4(sp)" = Ok store
    /\ DecodeInstr "lw a0, -4(sp)" = Ok load
    /\ Operate store (NewCPU 16) = Ok (tt, cpu1)
    /\ Operate load cpu1 = Ok (tt, cpu2)
    /\ Registers cpu2 = <[10%nat := 16]> (Registers (NewCPU 16))
    /\ PC cpu2 = 24.
Proof.
  apply (sw_then_lw "sp" "a0" "sp" "-4" 2 10 2 (-4) 16 16 (NewCPU 16));
    try reflexivity; try (vm_compute; intuition discriminate).
Defined.

(** ** The comparisons [slt], [sltu], [slti] and [sltiu] *)

(** The tests of [DecodeInstr] that come before the one for the family of
    the mnemonic [m] all fail. *)
Definition earlier_families_fail (m : string) : Prop :=
  Contains threePtInstrTypes m = false
  /\ Contains threePtImmInstrTypes m = false
  /\ Contains loadImmInstrTypes m = false
  /\ Contains loadInstrTypes m = false
  /\ Contains storeInstrTypes m = false
  /\ Contains branchThreeInstrTypes m = false
  /\ Contains branchTwoInstrTypes m = false.

Lemma set_names m :
  Contains setInstrTypes m = true ->
  is_word m = true /\ earlier_families_fail m
  /\ exists op, lookup_table instrToSetOp m = Some op.
Proof.
  intros H. apply (in_list_cases m setInstrTypes); [exact H|].
  unfold setInstrTypes, earlier_families_fail.
  repeat constructor; eexists; reflexivity.
Qed.

Lemma setImm_names m :
  Contains setImmInstrTypes m = true ->
  is_word m = true /\ earlier_families_fail m
  /\ Contains setInstrTypes m = false
  /\ exists op, lookup_table instrToSetImmOp m = Some op.
Proof.
  intros H. apply (in_list_cases m setImmInstrTypes); [exact H|].
  unfold setImmInstrTypes, earlier_families_fail.
  repeat constructor; eexists; reflexivity.
Qed.

(** A comparison line gives its destination register the value 1 when the
    test of the table holds and 0 when it does not, and goes to the next
    line: [m rd, rs1, rs2] with a mnemonic of the register family compares
    two registers, [m rd, rs1, imm] with one of the immediate family
    compares a register with the immediate cut to 32 bits. *)
Theorem comparison_lines m rd rs1 x nd n1 cpu a :
  getRegisterNumber rd = Ok nd ->
  getRegisterNumber rs1 = Ok n1 ->
  length (Registers cpu) = 32%nat ->
  Registers cpu !! Z.to_nat n1 = Some a ->
  (Contains setInstrTypes m = true ->
   forall n2 b,
     getRegisterNumber x = Ok n2 ->
     Registers cpu !! Z.to_nat n2 = Some b ->
     exists op instr,
       lookup_table instrToSetOp m = Some op
       /\ DecodeInstr (three_operand_line m rd rs1 x) = Ok instr
       /\ Operate instr cpu
          = Ok (tt, assigned nd (if op a b then 1 else 0) cpu))
  /\ (Contains setImmInstrTypes m = true ->
      forall v,
        is_operand x = true ->
        Atoi x = Some v ->
        exists op instr,
          lookup_table instrToSetImmOp m = Some op
          /\ DecodeInstr (three_operand_line m rd rs1 x) = Ok instr
          /\ Operate instr cpu
             = Ok (tt, assigned nd (if op a (int32 v) then 1 else 0) cpu)).
Proof.
  intros Hrd H1 Hlen Ha.
  pose proof (register_name_word _ _ Hrd) as Hwd.
  pose proof (register_name_word _ _ H1) as Hw1.
  pose proof (register_number_range _ _ Hrd) as Hnd.
  pose proof (register_number_range _ _ H1) as Hn1.
  split.
  - intros Hm n2 b H2 Hb.
    destruct (set_names m Hm)
      as (Hwm & (F1 & F2 & F3 & F4 & F5 & F6 & F7) & op & Hop).
    pose proof (register_name_word _ _ H2) as Hw2.
    pose proof (register_number_range _ _ H2) as Hn2.
    exists op, (SetInstr nd n1 n2 op). split; [exact Hop|]. split.
    + unfold DecodeInstr.
      rewrite TrimSpace_line, first_token_three by auto.
      rewrite F1, F2, F3, F4, F5, F6, F7, Hm. unfold matched.
      destruct (threePtRe_tokens m rd rs1 x) as (w & Hw); auto.
      rewrite Hw. cbn [length Nat.eqb drop]. unfold parseSet.
      cbn [index lookup list_lookup rbind]. rewrite Hop.
      rewrite Hrd. cbn [rbind]. rewrite H1. cbn [rbind]. rewrite H2.
      reflexivity.
    + rewrite SetInstr_assigns. apply when_rd_assigned.
      * rewrite len_registers by assumption. lia.
      * unfold bind. rewrite (readReg_ok n1 a), (readReg_ok n2 b)
          by (assumption || lia).
        reflexivity.
  - intros Hm v Hx Hv.
    destruct (setImm_names m Hm)
      as (Hwm & (F1 & F2 & F3 & F4 & F5 & F6 & F7) & F8 & op & Hop).
    exists op, (SetImmInstr nd n1 (int32 v) op). split; [exact Hop|]. split.
    + unfold DecodeInstr.
      rewrite TrimSpace_operand, first_token_three by auto.
      rewrite F1, F2, F3, F4, F5, F6, F7, F8, Hm. unfold matched.
      destruct (threePtRe_tokens_operand m rd rs1 x) as (w & Hw); auto.
      rewrite Hw. cbn [length Nat.eqb drop]. unfold parseSetImm.
      cbn [index lookup list_lookup rbind]. rewrite Hop.
      rewrite Hrd. cbn [rbind]. rewrite H1. cbn [rbind].
      unfold parseImm. rewrite Hv. reflexivity.
    + rewrite SetImmInstr_assigns. apply when_rd_assigned.
      * rewrite len_registers by assumption. lia.
      * unfold bind. rewrite (readReg_ok n1 a) by (assumption || lia).
        reflexivity.
Qed.

Lemma comparison_lines_witness :
  exists op instr,
    lookup_table instrToSetImmOp "sltiu" = Some op
    /\ DecodeInstr "sltiu t0, sp, -1" = Ok instr
    /\ Operate instr (NewCPU 64)
       = Ok (tt, assigned 5 (if op 64 (-1) then 1 else 0) (NewCPU 64)).
Proof.
  refine (proj2 (comparison_lines "sltiu" "t0" "sp" "-1" 5 2 (NewCPU 64) 64
                   eq_refl eq_refl eq_refl eq_refl)
            eq_refl (-1) eq_refl eq_refl).
Defined.
